(** * Notebooks of fina-4380-2022-fall: McKinney chapter 10 and Lewinson chapter 1

    The repository is a pair of Jupyter notebooks
    ([src/Notebooks/McKinney/mckinney-10.ipynb] holds both, one after the
    other).  Their code cells are straight-line Python that calls pandas,
    numpy, yfinance, requests_cache and matplotlib, plus two function
    definitions, [peak_to_peak] and [top].

    The development has two layers.
    - [Py], [Src], [Static], [Exec]: the code cells as Python syntax trees
      (constructor names follow Python's [ast] module), analyses of that
      syntax, and an interpreter that runs a cell against an arbitrary
      Python runtime and records every runtime operation it performs.
    - [Pandas], [NumPy], [User]: an executable model of the library
      operations the notebooks' own functions and pipelines are made of, and
      the functions and pipelines themselves, translated line by line.

    Numbers are rationals ([Q]); a missing value (NaN) is explicit.
    Subtraction is that of the array's dtype: float64 rounds to nearest
    and overflows to infinity, int64 wraps around (see [NumPy]).  Means
    and standard deviations are taken exactly, the square root being a
    parameter. *)

From Stdlib Require Import ZArith QArith Qminmax Qpower Qround List String Ascii.
From Stdlib Require Import Lia Lqa Bool.
From Stdlib Require Import Permutation Sorted.
From stdpp Require Import gmap strings.
Import ListNotations.
Open Scope string_scope.

(* ===================================================================== *)
(** * Part I: definitions                                                 *)
(* ===================================================================== *)

(** ** Python syntax (the subset the notebooks use) *)

Scheme All for list.
Scheme All for prod.
Scheme All for option.

Module Py.

Inductive constant :=
| CStr (s : string)
| CInt (n : Z)
| CFloat (text : string)
| CBool (b : bool).

Inductive operator := Add | Sub | Mult | Div | Pow.

Inductive cmpop := CmpEq.

Inductive expr :=
| Name (id : string)
| Constant (value : constant)
| Attribute (value : expr) (attr : string)
| Call (func : expr) (args : list expr) (keywords : list (string * expr))
| Subscript (value : expr) (slice : expr)
| Slice (lower upper : option expr)
| BinOp (left : expr) (op : operator) (right : expr)
| Compare (left : expr) (op : cmpop) (right : expr)
| ListE (elts : list expr)
| Tuple (elts : list expr)
| Dict (items : list (expr * expr))
| Lambda (params : list string) (body : expr)
| ListComp (elt : expr) (target : string) (iter : expr).

(** [Try body handler] stands for [try: body / except Exception: handler].
    No cell of the notebooks uses it; it is part of the language so that
    "there is no handler" is a property of the cells and not of the syntax. *)
Inductive stmt :=
| Import (module : string) (asname : option string)
| Magic (line : string)
| Assign (target : expr) (value : expr)
| Expr (value : expr)
| For (target : expr) (iter : expr) (body : list stmt)
| FunctionDef (name : string) (params : list (string * option expr))
              (body : list stmt)
| Return (value : expr)
| Try (body : list stmt) (handler : list stmt).

(** A code cell: the line of the .ipynb file where its source starts, and
    its statements. *)
Record cell := Cell { cell_line : nat; cell_source : list stmt }.

Record notebook := Notebook { nb_title : string; nb_cells : list cell }.

(** Abbreviations used to write the cells. *)
Definition str (s : string) : expr := Constant (CStr s).
Definition int (n : Z) : expr := Constant (CInt n).
Definition flt (text : string) : expr := Constant (CFloat text).
Definition boolean (b : bool) : expr := Constant (CBool b).
(** [o.m(args, kw)] *)
Definition method (o : expr) (m : string) (args : list expr)
           (kw : list (string * expr)) : expr :=
  Call (Attribute o m) args kw.
(** [o[k]] with a string key *)
Definition item (o : expr) (k : string) : expr := Subscript o (str k).
Definition strs (l : list string) : expr := ListE (map str l).
Definition ints (l : list Z) : expr := ListE (map int l).

End Py.

(** ** The code cells of the two notebooks

    Every code cell, in file order.  Markdown cells carry no code and are
    left out.  [Cell n ...] starts at line [n] of the .ipynb file. *)

Module Src.
Import Py.
Local Open Scope Z_scope.

Definition nl : string := String (ascii_of_nat 10) EmptyString.

(** [np.random.randn(args)] *)
Definition randn (args : list Z) : expr :=
  method (Attribute (Name "np") "random") "randn" (map int args) [].

(** [np.random.seed(42)] *)
Definition seed_42 : stmt :=
  Expr (method (Attribute (Name "np") "random") "seed" [int 42] []).

(** Lines 102-105 and 724-727. *)
Definition assign_df : stmt :=
  Assign (Name "df")
    (method (Name "pd") "DataFrame"
       [Dict [(str "key1", strs ["a"; "a"; "b"; "b"; "a"]);
              (str "key2", strs ["one"; "two"; "one"; "two"; "one"]);
              (str "data1", randn [5]);
              (str "data2", randn [5])]]
       []).

(** Lines 392-396 and 754-758. *)
Definition assign_people : stmt :=
  Assign (Name "people")
    (method (Name "pd") "DataFrame" []
       [("data", randn [5; 5]);
        ("columns", strs ["a"; "b"; "c"; "d"; "e"]);
        ("index", strs ["Joe"; "Steve"; "Wes"; "Jim"; "Travis"])]).

(** [requests_cache.CachedSession(expire_after='1D')] *)
Definition new_session : expr :=
  method (Name "requests_cache") "CachedSession" []
    [("expire_after", str "1D")].

(** [yf.download(tickers=t, session=session)] *)
Definition download (tickers : string) : expr :=
  method (Name "yf") "download" []
    [("tickers", str tickers); ("session", Name "session")].

(** [df.groupby(k)] *)
Definition groupby (o : expr) (k : expr) : expr := method o "groupby" [k] [].

(** [print(e)] *)
Definition print (e : expr) : stmt := Expr (Call (Name "print") [e] []).

(** [plt.f(s)] *)
Definition plt (f : string) (args : list expr) (kw : list (string * expr))
  : stmt :=
  Expr (method (Name "plt") f args kw).

(** Lines 49-51 and 935-937. *)
Definition display_options : list stmt :=
  [ Assign (Subscript (Attribute (Name "plt") "rcParams") (str "figure.dpi"))
           (int 150);
    Magic "precision 4";
    Assign (Attribute (Attribute (Attribute (Name "pd") "options") "display")
                      "float_format")
           (Attribute (str "{:.4f}") "format") ].

(** [hier_df.groupby(level=l, axis=a).count()] *)
Definition hier_count (level : string) (axis : expr) : stmt :=
  Expr (method (method (Name "hier_df") "groupby" []
                  [("level", str level); ("axis", axis)])
               "count" [] []).

(** [df.groupby('key1').apply(top, col=c, n=2)] *)
Definition apply_top (c : string) : stmt :=
  Expr (method (groupby (Name "df") (str "key1")) "apply" [Name "top"]
          [("col", str c); ("n", int 2)]).

Definition mckinney_10 : notebook :=
  Notebook "McKinney Chapter 10 - Data Aggregation and Group Operations"
  [ Cell 38 [ Import "numpy" (Some "np");
              Import "pandas" (Some "pd");
              Import "matplotlib.pyplot" (Some "plt") ];
    Cell 49 display_options;
    Cell 60 [ Import "requests_cache" None;
              Assign (Name "session") new_session;
              Import "yfinance" (Some "yf");
              Import "pandas_datareader" (Some "pdr") ];
    Cell 101 [ seed_42; assign_df ];
    Cell 121 [ Expr (method
                 (Subscript (Attribute (Name "df") "loc")
                    (Tuple [Compare (item (Name "df") "key1") CmpEq (str "a");
                            str "data1"]))
                 "mean" [] []) ];
    Cell 130 [ Expr (method
                 (Subscript (Attribute (Name "df") "loc")
                    (Tuple [Compare (item (Name "df") "key1") CmpEq (str "b");
                            str "data1"]))
                 "mean" [] []) ];
    Cell 154 [ Assign (Name "grouped")
                 (groupby (item (Name "df") "data1") (item (Name "df") "key1")) ];
    Cell 163 [ Expr (Name "grouped") ];
    Cell 175 [ Expr (method (Name "grouped") "mean" [] []) ];
    Cell 191 [ Expr (method
                 (groupby (item (Name "df") "data1") (item (Name "df") "key1"))
                 "mean" [] []) ];
    Cell 207 [ Expr (method
                 (groupby (Subscript (Name "df") (strs ["data1"]))
                          (item (Name "df") "key1"))
                 "mean" [] []) ];
    Cell 227 [ Assign (Name "means")
                 (method
                    (groupby (item (Name "df") "data1")
                       (ListE [item (Name "df") "key1"; item (Name "df") "key2"]))
                    "mean" [] []);
               Expr (Name "means") ];
    Cell 248 [ Expr (method (Name "means") "unstack" [] []) ];
    Cell 268 [ Expr (method (groupby (Name "df") (str "key1")) "mean" [] []) ];
    Cell 277 [ Expr (method (groupby (Name "df") (strs ["key1"; "key2"]))
                       "mean" [] []) ];
    Cell 309 [ For (Tuple [Name "name"; Name "group"])
                   (groupby (Name "df") (str "key1"))
                   [ print (Name "name"); print (Name "group") ] ];
    Cell 323 [ For (Tuple [Tuple [Name "k1"; Name "k2"]; Name "group"])
                   (groupby (Name "df") (strs ["key1"; "key2"]))
                   [ print (Tuple [Name "k1"; Name "k2"]);
                     print (Name "group") ] ];
    Cell 371 [ Expr (method
                 (Subscript (groupby (Name "df") (strs ["key1"; "key2"]))
                            (strs ["data2"]))
                 "mean" [] []) ];
    Cell 391 [ seed_42; assign_people ];
    Cell 408 [ Expr (method (groupby (Name "people") (Name "len")) "sum" [] []) ];
    Cell 427 [ Assign (Name "key_list")
                 (strs ["one"; "one"; "one"; "two"; "two"]);
               Expr (method
                 (groupby (Name "people") (ListE [Name "len"; Name "key_list"]))
                 "min" [] []) ];
    Cell 437 [ Assign (Name "d")
                 (Dict [(str "Joe", str "a"); (str "Jim", str "b")]);
               Expr (method
                 (groupby (Name "people") (ListE [Name "len"; Name "d"]))
                 "min" [] []) ];
    Cell 460 [ Assign (Name "columns")
                 (method (Attribute (Name "pd") "MultiIndex") "from_arrays"
                    [ListE [strs ["US"; "US"; "US"; "JP"; "JP"];
                            ints [1; 3; 5; 1; 3]]]
                    [("names", strs ["cty"; "tenor"])]);
               Assign (Name "hier_df")
                 (method (Name "pd") "DataFrame" [randn [4; 5]]
                    [("columns", Name "columns")]) ];
    Cell 475 [ hier_count "cty" (int 1) ];
    Cell 486 [ hier_count "cty" (str "columns") ];
    Cell 497 [ hier_count "tenor" (int 1) ];
    Cell 527 [ Expr (method (item (groupby (Name "df") (str "key1")) "data1")
                       "quantile" [flt "0.9"] []) ];
    Cell 547 [ FunctionDef "peak_to_peak" [("arr", None)]
                 [ Return (BinOp (method (Name "arr") "max" [] []) Sub
                                 (method (Name "arr") "min" [] [])) ] ];
    Cell 557 [ Expr (method (item (groupby (Name "df") (str "key1")) "data1")
                       "agg" [Name "peak_to_peak"] []) ];
    Cell 576 [ Expr (method (item (groupby (Name "df") (str "key1")) "data1")
                       "describe" [] []) ];
    Cell 613 [ FunctionDef "top" [("x", None); ("col", None); ("n", Some (int 1))]
                 [ Return (method
                             (method (Name "x") "sort_values" [Name "col"] [])
                             "head" [Name "n"] []) ] ];
    Cell 623 [ apply_top "data1" ];
    Cell 632 [ apply_top "data2" ];
    Cell 655 [ Assign (Name "ind")
                 (method
                    (method (download "^GSPC ^DJI ^IXIC ^FTSE ^N225 ^HSI")
                       "rename_axis" []
                       [("columns", strs ["Variable"; "Index"])])
                    "stack" [] []) ];
    Cell 675 [ Expr (method
                 (Subscript (Attribute (Name "ind") "loc")
                            (Slice (Some (str "2015")) None))
                 "pivot_table" [] [("index", str "Index")]) ];
    Cell 695 [ Expr (method
                 (method
                    (Subscript (Attribute (Name "ind") "loc")
                               (Slice (Some (str "2015")) None))
                    "reset_index" [] [])
                 "pivot_table" []
                 [("values", str "Close");
                  ("index", method (Name "pd") "Grouper" []
                              [("key", str "Date"); ("freq", str "A")]);
                  ("columns", str "Index");
                  ("aggfunc", strs ["min"; "max"])]) ];
    Cell 723 [ seed_42; assign_df ];
    Cell 753 [ seed_42; assign_people ];
    Cell 792 [ Assign (Name "faang") (download "META AAPL AMZN NFLX GOOG");
               Assign (Attribute (Attribute (Name "faang") "columns") "names")
                      (strs ["Variable"; "Ticker"]);
               Assign (Subscript (Name "faang")
                         (method (Attribute (Name "pd") "MultiIndex")
                            "from_product"
                            [ListE [strs ["Return"];
                                    Attribute (item (Name "faang") "Adj Close")
                                              "columns"]]
                            []))
                      (method (item (Name "faang") "Adj Close")
                              "pct_change" [] []) ] ].

(** [spy['log Return']] *)
Definition log_return : expr := item (Name "spy") "log Return".

(** Lines 1119-1125 and 1242-1248: the pipeline shared by both [spy_m]. *)
Definition spy_m_pipeline : expr :=
  method
    (method
       (method
          (method
             (item (method (Name "spy") "resample" []
                      [("rule", str "M"); ("kind", str "period")])
                   "Return")
             "agg" [strs ["mean"; "std"; "count"]] [])
          "query" [str "count >= 15"] [])
       "drop" [] [("columns", strs ["count"])])
    "mul" [int 100] [].

(** Lines 1174-1176 and 1211-1213, with [squared] telling the two apart. *)
Definition lags_and_errors (N : Z) (squared : bool) : list stmt :=
  [ Assign (Name "N") (int N);
    Assign (Name "spy_lags")
      (method (Name "pd") "concat" []
         [("objs", ListComp (method (item (Name "spy") "Return") "shift"
                               [Name "t"] [])
                            "t"
                            (Call (Name "range")
                                  [BinOp (Name "N") Add (int 1)] []));
          ("axis", int 1)]);
    Assign (Name "corrs")
      (Subscript
         (Attribute
            (method (if squared
                     then BinOp (Name "spy_lags") Pow (int 2)
                     else Name "spy_lags")
                    "corr" [] [])
            "iloc")
         (int 0));
    Assign (Name "serrs")
      (method (Name "np") "sqrt"
         [BinOp (BinOp (int 1) Sub (BinOp (Name "corrs") Pow (int 2)))
                Div
                (BinOp (method (Name "spy_lags") "count" [] []) Sub (int 2))]
         []);
    plt "bar" []
      [("height", Name "corrs");
       ("x", Call (Name "range") [BinOp (Name "N") Add (int 1)] []);
       ("yerr", BinOp (int 2) Mult (Name "serrs"))] ].

Definition lewinson_01 : notebook :=
  Notebook "Lewinson Chapter 1 - Financial Data and Preprocessing"
  [ Cell 924 [ Import "matplotlib.pyplot" (Some "plt");
               Import "numpy" (Some "np");
               Import "pandas" (Some "pd") ];
    Cell 935 display_options;
    Cell 946 [ Import "scipy.stats" (Some "scs");
               Import "yfinance" (Some "yf");
               Import "requests_cache" None;
               Assign (Name "session") new_session ];
    Cell 973 [];
    Cell 982 [ Assign (Name "spy") (download "SPY") ];
    Cell 991 [ Assign (item (Name "spy") "Return")
                 (method (item (Name "spy") "Adj Close") "pct_change" [] []) ];
    Cell 1023 [ Assign log_return
                  (method (item (Name "spy") "Return") "pipe"
                     [Attribute (Name "np") "log1p"] []) ];
    Cell 1042 [ Expr (Attribute
                  (method (method (Name "spy") "filter" []
                             [("regex", str "Return")])
                          "describe" [] [])
                  "T") ];
    Cell 1051 [ print (method (str "Skewness:        {:.2f}") "format"
                         [method log_return "skew" [] []] []);
                print (method (str "Excess Kurtosis: {:.2f}") "format"
                         [method log_return "kurt" [] []] []) ];
    Cell 1080 [ Expr (method log_return "plot" []
                  [("kind", str "hist"); ("bins", int 100);
                   ("density", boolean true); ("label", str "Observed")]);
                Assign (Name "xs")
                  (method (Name "np") "linspace"
                     [method log_return "min" [] [];
                      method log_return "max" [] [];
                      int 100] []);
                Assign (Name "ys")
                  (method (Attribute (Name "scs") "norm") "pdf" []
                     [("x", Name "xs");
                      ("loc", method log_return "mean" [] []);
                      ("scale", method log_return "std" [] [])]);
                plt "plot" [Name "xs"; Name "ys"] [("label", str "Normal")];
                plt "title" [str "Distribution of SPY Daily Log Returns"] [];
                plt "xlabel" [str "SPY Daily Log Returns"] [];
                plt "ylabel" [str "Density"] [];
                plt "legend" [] [];
                plt "show" [] [] ];
    Cell 1118 [ Assign (Name "spy_m") spy_m_pipeline ];
    Cell 1143 [ Assign (Name "axes")
                  (method (Name "spy_m") "plot" []
                     [("subplots", boolean true); ("legend", boolean false)]);
                Expr (method (Subscript (Name "axes") (int 0)) "set_ylabel"
                        [str "Mean (%)"] []);
                Expr (method (Subscript (Name "axes") (int 1)) "set_ylabel"
                        [str "Std. Dev.(%)"] []);
                plt "suptitle"
                  [BinOp (str ("Stock Return Volatility Clusters in Time" ++ nl))
                         Add
                         (str "(Monthly Aggregates of Daily Returns on SPY)")]
                  [];
                plt "show" [] [] ];
    Cell 1173 (lags_and_errors 10 false ++
               [ plt "title" [str "Autocorrelation of SPY Daily Returns"] [];
                 plt "xlabel" [str "Daily Lags"] [];
                 plt "ylabel" [str "Autocorrelation Coefficient"] [];
                 plt "show" [] [] ]);
    Cell 1210 (lags_and_errors 60 true ++
               [ plt "title"
                   [str "Autocorrelation of Squared SPY Daily Returns"] [];
                 plt "xlabel" [str "Daily Lags"] [];
                 plt "ylabel" [str "Autocorrelation Coefficient"] [];
                 plt "show" [] [] ]);
    Cell 1241 [ Assign (Name "spy_m")
                  (method spy_m_pipeline "assign" []
                     [("mean_lag1",
                       Lambda ["x"]
                         (method (item (Name "x") "mean") "shift"
                                 [int 1] []))]) ];
    Cell 1259 [ Expr (method (Name "spy_m") "plot" []
                  [("x", str "mean_lag1"); ("y", str "std");
                   ("kind", str "scatter"); ("alpha", flt "0.5")]);
                plt "xlabel" [str "One-Month Lag of Mean Daily Returns (%)"] [];
                plt "ylabel" [str "Volatility of Daily Returns (%)"] [];
                plt "suptitle"
                  [BinOp (str ("Fisher Black's Leverage Effect" ++ nl))
                         Add
                         (str "(Monthly Aggregates of Daily Returns on SPY)")]
                  [];
                plt "show" [] [] ] ].

Definition notebooks : list notebook := [mckinney_10; lewinson_01].

End Src.

(** ** Analyses of the syntax *)

Module Static.
Import Py.

Definition mem (x : string) (l : list string) : bool :=
  existsb (String.eqb x) l.

Definition opt_list {A B} (f : A -> list B) (o : option A) : list B :=
  match o with Some a => f a | None => [] end.

(** Names an expression reads: its free names.  The parameters of a lambda
    and the target of a comprehension are local to it. *)
Fixpoint expr_names (e : expr) : list string :=
  match e with
  | Name id => [id]
  | Constant _ => []
  | Attribute v _ => expr_names v
  | Call f args kws =>
      expr_names f ++ flat_map expr_names args
        ++ flat_map (fun kw => expr_names (snd kw)) kws
  | Subscript v s => expr_names v ++ expr_names s
  | Slice lo hi => opt_list expr_names lo ++ opt_list expr_names hi
  | BinOp l _ r => expr_names l ++ expr_names r
  | Compare l _ r => expr_names l ++ expr_names r
  | ListE es => flat_map expr_names es
  | Tuple es => flat_map expr_names es
  | Dict kvs =>
      flat_map (fun kv => (expr_names (fst kv) ++ expr_names (snd kv))%list) kvs
  | Lambda params body =>
      List.filter (fun x => negb (mem x params)) (expr_names body)
  | ListComp elt target iter =>
      expr_names iter
        ++ List.filter (fun x => negb (String.eqb x target)) (expr_names elt)
  end.

(** Every call inside an expression: callee, positional and keyword
    arguments. *)
Fixpoint expr_calls (e : expr)
  : list (expr * list expr * list (string * expr)) :=
  match e with
  | Name _ | Constant _ => []
  | Attribute v _ => expr_calls v
  | Call f args kws =>
      (f, args, kws) :: expr_calls f ++ flat_map expr_calls args
        ++ flat_map (fun kw => expr_calls (snd kw)) kws
  | Subscript v s => expr_calls v ++ expr_calls s
  | Slice lo hi => opt_list expr_calls lo ++ opt_list expr_calls hi
  | BinOp l _ r => expr_calls l ++ expr_calls r
  | Compare l _ r => expr_calls l ++ expr_calls r
  | ListE es => flat_map expr_calls es
  | Tuple es => flat_map expr_calls es
  | Dict kvs =>
      flat_map (fun kv => (expr_calls (fst kv) ++ expr_calls (snd kv))%list) kvs
  | Lambda _ body => expr_calls body
  | ListComp elt _ iter => expr_calls iter ++ expr_calls elt
  end.

(** Every lambda inside an expression: parameters and body. *)
Fixpoint expr_lambdas (e : expr) : list (list string * expr) :=
  match e with
  | Name _ | Constant _ => []
  | Attribute v _ => expr_lambdas v
  | Call f args kws =>
      expr_lambdas f ++ flat_map expr_lambdas args
        ++ flat_map (fun kw => expr_lambdas (snd kw)) kws
  | Subscript v s => expr_lambdas v ++ expr_lambdas s
  | Slice lo hi => opt_list expr_lambdas lo ++ opt_list expr_lambdas hi
  | BinOp l _ r => expr_lambdas l ++ expr_lambdas r
  | Compare l _ r => expr_lambdas l ++ expr_lambdas r
  | ListE es => flat_map expr_lambdas es
  | Tuple es => flat_map expr_lambdas es
  | Dict kvs =>
      flat_map (fun kv => (expr_lambdas (fst kv) ++ expr_lambdas (snd kv))%list)
               kvs
  | Lambda params body => (params, body) :: expr_lambdas body
  | ListComp elt _ iter => expr_lambdas iter ++ expr_lambdas elt
  end.

(** The name at the root of [x.a[i].b ...]. *)
Fixpoint root_name (e : expr) : option string :=
  match e with
  | Name id => Some id
  | Attribute v _ => root_name v
  | Subscript v _ => root_name v
  | _ => None
  end.

(** Assignment targets: a name is bound; tuple targets bind their parts;
    [o[k] = v] and [o.a = v] change the object [o] in place. *)
Fixpoint target_binds (t : expr) : list string :=
  match t with
  | Name id => [id]
  | Tuple ts => flat_map target_binds ts
  | _ => []
  end.

Fixpoint target_mutates (t : expr) : list string :=
  match t with
  | Subscript v _ | Attribute v _ => opt_list (fun x => [x]) (root_name v)
  | Tuple ts => flat_map target_mutates ts
  | _ => []
  end.

Fixpoint target_reads (t : expr) : list string :=
  match t with
  | Subscript v s => expr_names v ++ expr_names s
  | Attribute v _ => expr_names v
  | Tuple ts => flat_map target_reads ts
  | _ => []
  end.

(** Names a statement binds in the notebook's namespace. *)
Fixpoint stmt_binds (s : stmt) : list string :=
  match s with
  | Import m None => [m]
  | Import _ (Some a) => [a]
  | Assign t _ => target_binds t
  | For t _ body => target_binds t ++ flat_map stmt_binds body
  | FunctionDef f _ _ => [f]
  | Try body handler => flat_map stmt_binds body ++ flat_map stmt_binds handler
  | Magic _ | Expr _ | Return _ => []
  end.

(** Names of the objects a statement changes in place. *)
Fixpoint stmt_mutates (s : stmt) : list string :=
  match s with
  | Assign t _ => target_mutates t
  | For t _ body => target_mutates t ++ flat_map stmt_mutates body
  | Try body handler =>
      flat_map stmt_mutates body ++ flat_map stmt_mutates handler
  | _ => []
  end.

(** Names a statement reads when it runs.  The body of a [def] runs only
    when the function is called, so a [def] reads its default values only;
    the names a loop binds are not read from outside. *)
Fixpoint stmt_reads (s : stmt) : list string :=
  match s with
  | Import _ _ | Magic _ => []
  | Assign t v => expr_names v ++ target_reads t
  | Expr v | Return v => expr_names v
  | For t iter body =>
      expr_names iter ++ target_reads t
        ++ List.filter (fun x => negb (mem x (target_binds t)))
                  (flat_map stmt_reads body)
  | FunctionDef _ params _ =>
      flat_map (fun p => opt_list expr_names (snd p)) params
  | Try body handler => flat_map stmt_reads body ++ flat_map stmt_reads handler
  end.

(** Every call a statement makes when it runs (not those inside the body
    of a [def]). *)
Fixpoint stmt_calls (s : stmt)
  : list (expr * list expr * list (string * expr)) :=
  match s with
  | Import _ _ | Magic _ => []
  | Assign t v => expr_calls v ++ expr_calls t
  | Expr v | Return v => expr_calls v
  | For t iter body => expr_calls iter ++ flat_map stmt_calls body
  | FunctionDef _ params _ =>
      flat_map (fun p => opt_list expr_calls (snd p)) params
  | Try body handler => flat_map stmt_calls body ++ flat_map stmt_calls handler
  end.

Fixpoint stmt_lambdas (s : stmt) : list (list string * expr) :=
  match s with
  | Import _ _ | Magic _ => []
  | Assign t v => expr_lambdas v ++ expr_lambdas t
  | Expr v | Return v => expr_lambdas v
  | For t iter body => expr_lambdas iter ++ flat_map stmt_lambdas body
  | FunctionDef _ params body =>
      flat_map (fun p => opt_list expr_lambdas (snd p)) params
        ++ flat_map stmt_lambdas body
  | Try body handler =>
      flat_map stmt_lambdas body ++ flat_map stmt_lambdas handler
  end.

(** Does a statement contain an exception handler? *)
Fixpoint has_handler (s : stmt) : bool :=
  match s with
  | Try _ _ => true
  | For _ _ body => existsb has_handler body
  | FunctionDef _ _ body => existsb has_handler body
  | _ => false
  end.

Definition handler_free (c : cell) : bool :=
  negb (existsb has_handler (cell_source c)).

(** The functions a notebook defines: name, parameters, body. *)
Definition stmt_defs (s : stmt)
  : list (string * list (string * option expr) * list stmt) :=
  match s with
  | FunctionDef f params body => [(f, params, body)]
  | _ => []
  end.

Definition function_defs (nb : notebook)
  : list (string * list (string * option expr) * list stmt) :=
  flat_map (fun c => flat_map stmt_defs (cell_source c)) (nb_cells nb).

Definition cell_binds (c : cell) : list string :=
  flat_map stmt_binds (cell_source c).
Definition cell_calls (c : cell) :=
  flat_map stmt_calls (cell_source c).
Definition cell_lambdas (c : cell) : list (list string * expr) :=
  flat_map stmt_lambdas (cell_source c).

(** What a cell takes from the cells before it: the names it reads, and
    the names of the objects it changes in place, before binding them
    itself. *)
Fixpoint exposed (use : stmt -> list string) (own : list string)
         (ss : list stmt) : list string :=
  match ss with
  | [] => []
  | s :: ss' =>
      List.filter (fun x => negb (mem x own)) (use s)
        ++ exposed use (stmt_binds s ++ own) ss'
  end.

Definition cell_inputs (c : cell) : list string :=
  exposed stmt_reads [] (cell_source c).
Definition cell_changes (c : cell) : list string :=
  exposed stmt_mutates [] (cell_source c).

End Static.

(** ** Running a cell

    A cell runs against a Python runtime: the interpreter's object model
    together with the imported libraries.  The runtime is a parameter.
    Every operation on an object (attribute access, call, indexing,
    arithmetic, iteration, import, display) is performed by the runtime and
    may raise; the notebook's own code only sequences these operations and
    binds names.  Each operation is recorded as an [event], with the
    namespace as it was when the operation was performed. *)

Module Exec.
Import Py.

Inductive op :=
| OpImport (module : string)
| OpMagic (line : string)
| OpGetAttr (attr : string)
| OpSetAttr (attr : string)
| OpGetItem
| OpSetItem
| OpCall (keywords : list string)
| OpBinOp (o : operator)
| OpCompare (o : cmpop)
| OpIter
| OpUnpack (n : nat)
| OpDisplay.

Class Runtime := {
  value : Type;
  (** what lives outside the namespace: the objects' contents, the random
      generator, the HTTP cache, the network, the figures *)
  world : Type;
  exn : Type;
  perform : op -> list value -> world -> world * (exn + value);
  (** the items of an iterated or unpacked object *)
  elements : value -> list value;
  const : constant -> value;
  build_list : list value -> value;
  build_tuple : list value -> value;
  build_dict : list (value * value) -> value;
  build_slice : option value -> option value -> value;
  (** a function object: name, parameters, default values, body *)
  build_function :
    string -> list string -> list (option value) -> list stmt -> value;
  builtin : string -> option value;
  NameError : string -> exn;
  SyntaxError : exn
}.

(** The notebook's namespace (the kernel's [globals()]). *)
Abbreviation namespace := (gmap string value).

Section Interpreter.
Context {R : Runtime}.

Record event := Event {
  ev_globals : namespace;
  ev_op : op;
  ev_args : list value;
  ev_raised : option exn
}.

(** Evaluation of an expression: threads the world, logs the events, and
    either raises or returns. *)
Definition M (A : Type) : Type := world -> world * list event * (exn + A).

Definition ret {A} (a : A) : M A := fun w => (w, [], inr a).

Definition raise {A} (x : exn) : M A := fun w => (w, [], inl x).

Definition bind {A B} (m : M A) (k : A -> M B) : M B :=
  fun w =>
    match m w with
    | (w1, t1, inl x) => (w1, t1, inl x)
    | (w1, t1, inr a) =>
        match k a w1 with
        | (w2, t2, r) => (w2, (t1 ++ t2)%list, r)
        end
    end.

Definition call (g : namespace) (o : op) (args : list value) : M value :=
  fun w =>
    match perform o args w with
    | (w1, inl x) => (w1, [Event g o args (Some x)], inl x)
    | (w1, inr v) => (w1, [Event g o args None], inr v)
    end.

Definition mapM {A B} (f : A -> M B) : list A -> M (list B) :=
  fix go (l : list A) : M (list B) :=
    match l with
    | [] => ret []
    | a :: l' => bind (f a) (fun b => bind (go l') (fun bs => ret (b :: bs)))
    end.

Definition optM {A B} (f : A -> M B) (o : option A) : M (option B) :=
  match o with
  | None => ret None
  | Some a => bind (f a) (fun b => ret (Some b))
  end.

Fixpoint assoc (x : string) (l : list (string * value)) : option value :=
  match l with
  | [] => None
  | (y, v) :: l' => if String.eqb x y then Some v else assoc x l'
  end.

(** Name lookup: local scope (lambda parameters, comprehension targets),
    then the namespace, then the builtins. *)
Definition load (loc : list (string * value)) (g : namespace) (x : string)
  : M value :=
  match assoc x loc with
  | Some v => ret v
  | None =>
      match g !! x with
      | Some v => ret v
      | None =>
          match builtin x with
          | Some v => ret v
          | None => raise (NameError x)
          end
      end
  end.

(** Expressions never bind a name in the namespace [g]. *)
Fixpoint eval (loc : list (string * value)) (g : namespace) (e : expr)
  {struct e} : M value :=
  match e with
  | Name id => load loc g id
  | Constant c => ret (const c)
  | Attribute v a =>
      bind (eval loc g v) (fun o => call g (OpGetAttr a) [o])
  | Call f args kws =>
      bind (eval loc g f) (fun vf =>
      bind (mapM (eval loc g) args) (fun vargs =>
      bind (mapM (fun kw => eval loc g (snd kw)) kws) (fun vkws =>
      call g (OpCall (map fst kws)) (vf :: vargs ++ vkws))))
  | Subscript v s =>
      bind (eval loc g v) (fun o =>
      bind (eval loc g s) (fun k => call g OpGetItem [o; k]))
  | Slice lo hi =>
      bind (optM (eval loc g) lo) (fun vlo =>
      bind (optM (eval loc g) hi) (fun vhi => ret (build_slice vlo vhi)))
  | BinOp l o r =>
      bind (eval loc g l) (fun vl =>
      bind (eval loc g r) (fun vr => call g (OpBinOp o) [vl; vr]))
  | Compare l o r =>
      bind (eval loc g l) (fun vl =>
      bind (eval loc g r) (fun vr => call g (OpCompare o) [vl; vr]))
  | ListE es => bind (mapM (eval loc g) es) (fun vs => ret (build_list vs))
  | Tuple es => bind (mapM (eval loc g) es) (fun vs => ret (build_tuple vs))
  | Dict kvs =>
      bind (mapM (fun kv =>
                    bind (eval loc g (fst kv)) (fun k =>
                    bind (eval loc g (snd kv)) (fun v => ret (k, v)))) kvs)
           (fun vs => ret (build_dict vs))
  | Lambda params body =>
      ret (build_function "<lambda>" params (map (fun _ => None) params)
             [Return body])
  | ListComp elt target iter =>
      bind (eval loc g iter) (fun vi =>
      bind (call g OpIter [vi]) (fun it =>
      bind (mapM (fun x => eval ((target, x) :: loc) g elt) (elements it))
           (fun vs => ret (build_list vs))))
  end.

(** Execution of statements: the result always carries the namespace, also
    when an exception was raised. *)
Record outcome := Outcome {
  out_world : world;
  out_trace : list event;
  out_globals : namespace;
  out_raised : option exn
}.

Definition action : Type := namespace -> world -> outcome.

Definition ok : action := fun g w => Outcome w [] g None.

Definition fail (x : exn) : action := fun g w => Outcome w [] g (Some x).

(** Evaluate, then continue; an exception leaves the namespace as it is. *)
Definition lift {A} (m : M A) (k : A -> action) : action :=
  fun g w =>
    match m w with
    | (w1, t1, inl x) => Outcome w1 t1 g (Some x)
    | (w1, t1, inr a) =>
        let o := k a g w1 in
        Outcome (out_world o) (t1 ++ out_trace o) (out_globals o)
                (out_raised o)
    end.

(** Run [s1]; unless it raised, run [s2] after it. *)
Definition seq (s1 s2 : action) : action :=
  fun g w =>
    let o1 := s1 g w in
    match out_raised o1 with
    | Some _ => o1
    | None =>
        let o2 := s2 (out_globals o1) (out_world o1) in
        Outcome (out_world o2) (out_trace o1 ++ out_trace o2)
                (out_globals o2) (out_raised o2)
    end.

(** Run [s1]; if it raised, the handler [s2] runs and the exception is
    gone. *)
Definition catch (s1 s2 : action) : action :=
  fun g w =>
    let o1 := s1 g w in
    match out_raised o1 with
    | None => o1
    | Some _ =>
        let o2 := s2 (out_globals o1) (out_world o1) in
        Outcome (out_world o2) (out_trace o1 ++ out_trace o2)
                (out_globals o2) (out_raised o2)
    end.

Definition bind_name (x : string) (v : value) : action :=
  fun g w => Outcome w [] (<[x := v]> g) None.

Fixpoint assign (t : expr) (v : value) {struct t} : action :=
  match t with
  | Name id => bind_name id v
  | Tuple ts =>
      fun g =>
        lift (call g (OpUnpack (length ts)) [v]) (fun u =>
          (fix go (ts : list expr) (vs : list value) : action :=
             match ts, vs with
             | t :: ts', x :: vs' => seq (assign t x) (go ts' vs')
             | _, _ => ok
             end) ts (elements u)) g
  | Subscript o k =>
      fun g =>
        lift (bind (eval [] g o) (fun vo =>
              bind (eval [] g k) (fun vk => call g OpSetItem [vo; vk; v])))
             (fun _ => ok) g
  | Attribute o a =>
      fun g =>
        lift (bind (eval [] g o) (fun vo => call g (OpSetAttr a) [vo; v]))
             (fun _ => ok) g
  | _ => fail SyntaxError
  end.

Definition block (exec : stmt -> action) : list stmt -> action :=
  fix go (ss : list stmt) : action :=
    match ss with
    | [] => ok
    | s :: ss' => seq (exec s) (go ss')
    end.

Definition loop (body : value -> action) : list value -> action :=
  fix go (vs : list value) : action :=
    match vs with
    | [] => ok
    | v :: vs' => seq (body v) (go vs')
    end.

Fixpoint exec (s : stmt) {struct s} : action :=
  match s with
  | Import m a =>
      fun g =>
        lift (call g (OpImport m) [])
             (bind_name (match a with Some x => x | None => m end)) g
  | Magic l => fun g => lift (call g (OpMagic l) []) (fun _ => ok) g
  | Assign t v => fun g => lift (eval [] g v) (assign t) g
  | Expr v => fun g => lift (eval [] g v) (fun _ => ok) g
  | For t iter body =>
      fun g =>
        lift (bind (eval [] g iter) (fun vi => call g OpIter [vi]))
             (fun it =>
                loop (fun v => seq (assign t v) (block exec body))
                     (elements it)) g
  | FunctionDef f params body =>
      fun g =>
        lift (mapM (fun p => optM (eval [] g) (snd p)) params)
             (fun ds => bind_name f (build_function f (map fst params) ds body))
             g
  | Return _ => fail SyntaxError
  | Try body handler => catch (block exec body) (block exec handler)
  end.

(** The notebook shows the value of a cell's last statement when that
    statement is an expression. *)
Fixpoint exec_cell (ss : list stmt) : action :=
  match ss with
  | [] => ok
  | [Expr v] =>
      fun g =>
        lift (bind (eval [] g v) (fun x => call g OpDisplay [x]))
             (fun _ => ok) g
  | s :: ss' => seq (exec s) (exec_cell ss')
  end.

Definition run_cell (c : cell) : action := exec_cell (cell_source c).

(** *** Traces that hide no exception

    A trace is faithful to what was raised when: nothing was raised and
    every event succeeded; or the interpreter itself raised (an unbound
    name, a misplaced statement) after events that all succeeded; or the
    last event raised exactly what is raised now, in the namespace that is
    left, after events that all succeeded. *)

Definition quiet (ev : event) : Prop := ev_raised ev = None.

(** Exceptions the interpreter itself raises. *)
Definition internal (x : exn) : Prop :=
  (exists n, x = NameError n) \/ x = SyntaxError.

(** The last event of the trace raised [x] in namespace [g]; every event
    before it succeeded. *)
Definition failed_last (g : namespace) (x : exn) (tr : list event) : Prop :=
  exists tr0 ev,
    tr = (tr0 ++ [ev])%list /\ Forall quiet tr0
    /\ ev_raised ev = Some x /\ ev_globals ev = g.

Definition faithful_trace (g : namespace) (raised : option exn)
           (tr : list event) : Prop :=
  match raised with
  | None => Forall quiet tr
  | Some x => (Forall quiet tr /\ internal x) \/ failed_last g x tr
  end.

Definition faithfulM {A} (g : namespace) (m : M A) : Prop :=
  forall w,
    match m w with
    | (_, tr, inl x) => faithful_trace g (Some x) tr
    | (_, tr, inr _) => faithful_trace g None tr
    end.

Definition faithful (o : outcome) : Prop :=
  faithful_trace (out_globals o) (out_raised o) (out_trace o).

Definition faithfulS (s : action) : Prop := forall g w, faithful (s g w).

(** [s] leaves the binding of [x] as it found it. *)
Definition keeps (x : string) (s : action) : Prop :=
  forall g w, out_globals (s g w) !! x = g !! x.

End Interpreter.

End Exec.

(** ** The library operations the notebooks' functions are made of

    pandas is not part of the repository.  This module is an executable
    model of the operations that [peak_to_peak], [top] and the [spy_m]
    pipelines call, written from their documented behaviour; the notebook
    itself documents the reductions (lines 508-515): [count] is the number
    of non-NA values, [mean], [min] and [max] are taken over the non-NA
    values, [std] is the unbiased (n - 1 denominator) standard deviation. *)

Module Pandas.

(** One entry of a column: a finite number, a string, or a missing value.
    Booleans, infinities and other objects are not entries of this
    model. *)
Inductive scalar := Num (q : Q) | Text (s : string) | NaN.

(** What arithmetic on entries gives: an entry, or an infinity (a float64
    operation that overflows). *)
Inductive value := Entry (v : scalar) | Infinity (negative : bool).

(** A row label: position, name, calendar day, or calendar month. *)
Inductive label :=
| LInt (i : Z)
| LStr (s : string)
| LDate (year month day : Z)
| LPeriod (year month : Z).

Inductive error :=
| KeyError (key : string)
| AttributeError (name : string)
| TypeError
| ValueError
| UndefinedVariableError (name : string).

Inductive result (A : Type) := Ok (a : A) | Raise (e : error).
Arguments Ok {A} a.
Arguments Raise {A} e.

#[export] Instance result_ret : MRet result := fun A a => Ok a.
#[export] Instance result_bind : MBind result := fun A B k m =>
  match m with Ok a => k a | Raise e => Raise e end.
#[export] Instance result_fmap : FMap result := fun A B f m =>
  match m with Ok a => Ok (f a) | Raise e => Raise e end.

Inductive dtype := float64 | object.

Record Series := { s_index : list label; s_values : list scalar }.

(** A frame is stored row by row; [dtypes] names and types its columns. *)
Record DataFrame := {
  dtypes : list (string * dtype);
  rows : list (label * list scalar)
}.

Definition columns (x : DataFrame) : list string := map fst (dtypes x).

Definition has_dtype (d : dtype) (v : scalar) : bool :=
  match d, v with
  | _, NaN => true
  | float64, Num _ => true
  | object, Text _ => true
  | _, _ => false
  end.

Fixpoint row_typed (ds : list dtype) (vs : list scalar) : bool :=
  match ds, vs with
  | [], [] => true
  | d :: ds', v :: vs' => has_dtype d v && row_typed ds' vs'
  | _, _ => false
  end.

(** Every row has one entry per column, of the column's type. *)
Definition well_formed (x : DataFrame) : bool :=
  forallb (fun r => row_typed (map snd (dtypes x)) (snd r)) (rows x).

Fixpoint position (c : string) (cs : list string) : option nat :=
  match cs with
  | [] => None
  | c' :: cs' =>
      if String.eqb c c' then Some 0%nat
      else match position c cs' with Some i => Some (S i) | None => None end
  end.

Definition entry (i : nat) (r : label * list scalar) : scalar :=
  nth i (snd r) NaN.

(** The non-missing numbers of a column. *)
Definition numbers (vs : list scalar) : list Q :=
  flat_map (fun v => match v with Num q => [q] | _ => [] end) vs.

Definition is_text (v : scalar) : bool :=
  match v with Text _ => true | _ => false end.

Definition is_missing (v : scalar) : bool :=
  match v with NaN => true | _ => false end.

(** *** Reductions of a Series *)

Definition greater (u v : scalar) : result scalar :=
  match u, v with
  | Num a, Num b => Ok (Num (Qmax a b))
  | Text a, Text b => Ok (Text (if String.leb a b then b else a))
  | _, _ => Raise TypeError
  end.

Definition smaller (u v : scalar) : result scalar :=
  match u, v with
  | Num a, Num b => Ok (Num (Qmin a b))
  | Text a, Text b => Ok (Text (if String.leb a b then a else b))
  | _, _ => Raise TypeError
  end.

(** Fold [pick] over the non-missing entries; NaN when there is none. *)
Fixpoint reduce (pick : scalar -> scalar -> result scalar)
         (vs : list scalar) : result scalar :=
  match vs with
  | [] => Ok NaN
  | NaN :: vs' => reduce pick vs'
  | v :: vs' =>
      r ← reduce pick vs';
      match r with
      | NaN => Ok v
      | _ => pick v r
      end
  end.

(** [Series.max()] and [Series.min()], with the default [skipna=True]. *)
Definition max (arr : Series) : result scalar := reduce greater (s_values arr).
Definition min (arr : Series) : result scalar := reduce smaller (s_values arr).

(** The arithmetic of a numeric dtype: what [a - b] gives for two numbers
    of an array.  It depends on the dtype: int64 wraps around, float64
    rounds and may overflow (see [NumPy]). *)
Class Arithmetic := { minus : Q -> Q -> value }.

(** [u - v]: strings cannot be subtracted; NaN propagates; an infinity
    absorbs a number, and two infinities of one sign give NaN. *)
Definition sub `{Arithmetic} (u v : value) : result value :=
  match u, v with
  | Entry (Text _), _ | _, Entry (Text _) => Raise TypeError
  | Entry NaN, _ | _, Entry NaN => Ok (Entry NaN)
  | Entry (Num a), Entry (Num b) => Ok (minus a b)
  | Infinity s, Entry (Num _) => Ok (Infinity s)
  | Entry (Num _), Infinity s => Ok (Infinity (negb s))
  | Infinity s, Infinity t =>
      Ok (if Bool.eqb s t then Entry NaN else Infinity s)
  end.

(** *** Sorting and truncating a frame *)

(** Ascending order with missing values last ([na_position='last']).
    [sort_values] never compares a number with a string; the order between
    them is fixed only to keep the function total. *)
Definition key_leb (u v : scalar) : bool :=
  match u, v with
  | _, NaN => true
  | NaN, _ => false
  | Num a, Num b => Qle_bool a b
  | Text a, Text b => String.leb a b
  | Num _, Text _ => true
  | Text _, Num _ => false
  end.

Section Sort.
Context {A : Type} (leb : A -> A -> bool).

Fixpoint insert (a : A) (l : list A) : list A :=
  match l with
  | [] => [a]
  | b :: l' => if leb a b then a :: l else b :: insert a l'
  end.

Fixpoint sort (l : list A) : list A :=
  match l with
  | [] => []
  | a :: l' => insert a (sort l')
  end.

End Sort.

Definition is_num (v : scalar) : bool :=
  match v with Num _ => true | _ => false end.

(** Numbers and strings in one column: Python cannot compare them. *)
Definition mixed (vs : list scalar) : bool :=
  existsb is_num vs && existsb is_text vs.

(** How [sort_values] orders the rows.  Its default sort (numpy's
    quicksort) is not stable: the order it leaves between rows with equal
    keys is not fixed here.  A sorter rearranges the rows, and what it
    returns is in order. *)
Class Sorter := {
  sort_rows : (label * list scalar -> label * list scalar -> bool) ->
              list (label * list scalar) -> list (label * list scalar);
  sort_rows_perm : forall leb l, Permutation (sort_rows leb l) l;
  sort_rows_sorted :
    forall leb l,
      (forall a b, leb a b = true \/ leb b a = true) ->
      (forall a b c, leb a b = true -> leb b c = true -> leb a c = true) ->
      StronglySorted (fun a b => leb a b = true) (sort_rows leb l)
}.

(** How many columns are labelled [c]. *)
Definition occurrences (c : string) (cs : list string) : nat :=
  length (List.filter (String.eqb c) cs).

(** [x.sort_values(col)]: [KeyError] without a column [col], [ValueError]
    when the label is not unique, [TypeError] when the column holds
    numbers and strings.  The index is taken to have no name. *)
Definition sort_values `{Sorter} (col : string) (x : DataFrame)
  : result DataFrame :=
  match position col (columns x) with
  | None => Raise (KeyError col)
  | Some i =>
      if (1 <? occurrences col (columns x))%nat then Raise ValueError
      else if mixed (map (entry i) (rows x)) then Raise TypeError
      else Ok {| dtypes := dtypes x;
                 rows := sort_rows (fun a b => key_leb (entry i a) (entry i b))
                                   (rows x) |}
  end.

(** [x.head(n)]: the first [n] rows; for negative [n], all but the last
    [-n] rows. *)
Definition head (n : Z) (x : DataFrame) : DataFrame :=
  {| dtypes := dtypes x;
     rows := if (n <? 0)%Z
             then firstn (length (rows x) - Z.to_nat (- n)) (rows x)
             else firstn (Z.to_nat n) (rows x) |}.

(** *** Building frames *)

Definition infer_dtype (vs : list scalar) : dtype :=
  if existsb is_text vs then object else float64.

(** [pd.DataFrame({name: values, ...})]: the columns must have one length;
    the index is 0, 1, 2, ... *)
Definition from_dict (cols : list (string * list scalar)) : result DataFrame :=
  let n := match cols with [] => 0%nat | c :: _ => length (snd c) end in
  if forallb (fun c => Nat.eqb (length (snd c)) n) cols
  then Ok {| dtypes := map (fun c => (fst c, infer_dtype (snd c))) cols;
             rows := map (fun i => (LInt (Z.of_nat i),
                                    map (fun c => nth i (snd c) NaN) cols))
                         (seq 0 n) |}
  else Raise ValueError.

(** [pd.DataFrame(data=matrix, columns=names, index=labels)]: the shape of
    the matrix must match the two lists. *)
Definition from_matrix (data : list (list scalar)) (names : list string)
           (index : list label) : result DataFrame :=
  if Nat.eqb (length data) (length index)
     && forallb (fun r => Nat.eqb (length r) (length names)) data
  then Ok {| dtypes :=
               map (fun j => (nth j names "",
                              infer_dtype (map (fun r => nth j r NaN) data)))
                   (seq 0 (length names));
             rows := combine index data |}
  else Raise ValueError.

(** *** Monthly resampling and aggregation *)

(** Months are counted from year 0: month [m] of year [y] is number
    [12 y + (m - 1)]. *)
Definition month_ordinal (l : label) : option Z :=
  match l with
  | LDate y m _ => Some (12 * y + (m - 1))%Z
  | _ => None
  end.

Definition period (o : Z) : label := LPeriod (o / 12) (o mod 12 + 1).

Definition in_month (o : Z) (r : label * list scalar) : bool :=
  match month_ordinal (fst r) with
  | Some o' => Z.eqb o o'
  | None => false
  end.

(** Every month from the first to the last one present, also the months
    without any row. *)
Definition month_range (os : list Z) : list Z :=
  match os with
  | [] => []
  | o :: os' =>
      let lo := fold_right Z.min o os' in
      let hi := fold_right Z.max o os' in
      map (fun k => lo + Z.of_nat k)%Z (seq 0 (Z.to_nat (hi - lo + 1)))
  end.

(** The months a frame spans, and whether its index is made of dates. *)
Definition months (x : DataFrame) : list Z :=
  month_range (flat_map (fun r => match month_ordinal (fst r) with
                                  | Some o => [o]
                                  | None => []
                                  end) (rows x)).

Definition datetime_index (x : DataFrame) : bool :=
  forallb (fun r => match month_ordinal (fst r) with
                    | Some _ => true
                    | None => false
                    end) (rows x).

(** The entries of column [i] in the rows of month [o]. *)
Definition month_entries (i : nat) (x : DataFrame) (o : Z) : list scalar :=
  map (entry i) (List.filter (in_month o) (rows x)).

Record Resampler := { rs_frame : DataFrame; rs_bins : list Z }.

(** An integer or a string: a label that is neither a date nor a
    period. *)
Definition plain_label (l : label) : bool :=
  match l with
  | LInt _ | LStr _ => true
  | _ => false
  end.

(** [x.resample(rule='M', kind='period')] on an index of dates; on an
    index with an integer or a string label it raises [TypeError].  An
    index of periods, which [resample] handles in a way of its own, and
    an index without labels, whose type the rows do not show, are not
    covered: the statements about [resample_M] keep to frames with a date
    index or with a plain label. *)
Definition resample_M (x : DataFrame) : result Resampler :=
  os ← mapM (fun r => match month_ordinal (fst r) with
                      | Some o => Ok o
                      | None => Raise TypeError
                      end) (rows x);
  mret {| rs_frame := x; rs_bins := month_range os |}.

(** [resampler[col]]: the entries of one column, month by month, for a
    label that names one column; without such a column it raises
    [KeyError('Column not found: ' + col)]. *)
Definition resampler_getitem (col : string) (rs : Resampler)
  : result (list (Z * list scalar)) :=
  match position col (columns (rs_frame rs)) with
  | None => Raise (KeyError ("Column not found: " ++ col))
  | Some i =>
      Ok (map (fun o => (o, map (entry i)
                              (List.filter (in_month o) (rows (rs_frame rs)))))
              (rs_bins rs))
  end.

(** The square root is taken as given. *)
Class RealOps := { sqrt : Q -> Q }.

Definition Qsum (qs : list Q) : Q := fold_right Qplus 0%Q qs.

Definition Qmean (qs : list Q) : Q :=
  Qsum qs / inject_Z (Z.of_nat (length qs)).

(** Mean of the non-missing numbers; NaN when there is none. *)
Definition mean_value (vs : list scalar) : scalar :=
  match numbers vs with
  | [] => NaN
  | qs => Num (Qmean qs)
  end.

(** Unbiased standard deviation of the non-missing numbers; NaN when
    there are fewer than two. *)
Definition std_value `{RealOps} (vs : list scalar) : scalar :=
  match numbers vs with
  | [] | [_] => NaN
  | qs =>
      Num (sqrt (Qsum (map (fun q => (q - Qmean qs) * (q - Qmean qs))%Q qs)
                 / inject_Z (Z.of_nat (length qs) - 1))%Q)
  end.

Definition mean (vs : list scalar) : result scalar :=
  if existsb is_text vs then Raise TypeError else Ok (mean_value vs).

Definition std `{RealOps} (vs : list scalar) : result scalar :=
  if existsb is_text vs then Raise TypeError else Ok (std_value vs).

Definition count (vs : list scalar) : result scalar :=
  Ok (Num (inject_Z (Z.of_nat
             (length (List.filter (fun v => negb (is_missing v)) vs))))).

Definition reduction `{RealOps} (name : string)
  : result (list scalar -> result scalar) :=
  if String.eqb name "mean" then Ok mean
  else if String.eqb name "std" then Ok std
  else if String.eqb name "count" then Ok count
  else Raise (AttributeError name).

(** [groups.agg([name, ...])]: one row per month, one column per name. *)
Definition agg `{RealOps} (funcs : list string)
           (groups : list (Z * list scalar)) : result DataFrame :=
  fs ← mapM reduction funcs;
  rs ← mapM (fun g => vs ← mapM (fun f => f (snd g)) fs;
                      mret (period (fst g), vs)) groups;
  mret {| dtypes := map (fun n => (n, float64)) funcs; rows := rs |}.

(** [x.query('col >= k')], for a condition of this one shape; a name that
    is no column is an undefined variable. *)
Definition query_ge (col : string) (k : Q) (x : DataFrame) : result DataFrame :=
  match position col (columns x) with
  | None => Raise (UndefinedVariableError col)
  | Some i =>
      if existsb (fun r => is_text (entry i r)) (rows x) then Raise TypeError
      else Ok {| dtypes := dtypes x;
                 rows := List.filter (fun r => match entry i r with
                                          | Num q => Qle_bool k q
                                          | _ => false
                                          end) (rows x) |}
  end.

Fixpoint select {A} (mask : list bool) (l : list A) : list A :=
  match mask, l with
  | b :: mask', a :: l' => if b then a :: select mask' l' else select mask' l'
  | _, _ => []
  end.

(** [x.drop(columns=cols)]: the [KeyError] lists the labels that are no
    columns. *)
Definition drop (cols : list string) (x : DataFrame) : result DataFrame :=
  match List.filter (fun c => negb (Static.mem c (columns x))) cols with
  | _ :: _ as missing =>
      Raise (KeyError ("[" ++ String.concat ", "
                                (map (fun c => "'" ++ c ++ "'") missing)
                           ++ "] not found in axis"))
  | [] =>
      let mask := map (fun c => negb (Static.mem c cols)) (columns x) in
      Ok {| dtypes := select mask (dtypes x);
            rows := map (fun r => (fst r, select mask (snd r))) (rows x) |}
  end.

Fixpoint repeat_string (n : nat) (s : string) : string :=
  match n with
  | O => ""
  | S n' => String.append s (repeat_string n' s)
  end.

(** [v * k] with an integer [k]; Python repeats a string [k] times. *)
Definition mul_scalar (k : Z) (v : scalar) : scalar :=
  match v with
  | Num q => Num (q * inject_Z k)
  | Text s => Text (repeat_string (Z.to_nat k) s)
  | NaN => NaN
  end.

(** [x.mul(k)] *)
Definition mul (k : Z) (x : DataFrame) : DataFrame :=
  {| dtypes := dtypes x;
     rows := map (fun r => (fst r, map (mul_scalar k) (snd r))) (rows x) |}.

(** [x[col]] *)
Definition getitem (col : string) (x : DataFrame) : result Series :=
  match position col (columns x) with
  | None => Raise (KeyError col)
  | Some i => Ok {| s_index := map fst (rows x);
                    s_values := map (entry i) (rows x) |}
  end.

(** [s.shift(n)]: values move down by [n] rows (up for negative [n]); the
    index stays; vacated entries are missing. *)
Definition shift (n : Z) (s : Series) : Series :=
  let vs := s_values s in
  {| s_index := s_index s;
     s_values := if (n <? 0)%Z
                 then (skipn (Z.to_nat (- n)) vs
                       ++ repeat NaN (Nat.min (Z.to_nat (- n)) (length vs)))%list
                 else firstn (length vs) (repeat NaN (Z.to_nat n) ++ vs)%list |}.

Fixpoint replace_nth {A} (i : nat) (a : A) (l : list A) : list A :=
  match l, i with
  | [], _ => []
  | _ :: l', O => a :: l'
  | b :: l', S i' => b :: replace_nth i' a l'
  end.

(** [x.assign(name=f)]: [f] is applied to [x]; its result becomes column
    [name], replacing a column of that name or becoming the last column.
    Only a result carrying the index of [x] is modelled. *)
Definition assign (name : string) (f : DataFrame -> result Series)
           (x : DataFrame) : result DataFrame :=
  s ← f x;
  if negb (Nat.eqb (length (s_values s)) (length (rows x)))
  then Raise ValueError
  else
    let d := infer_dtype (s_values s) in
    match position name (columns x) with
    | Some i =>
        Ok {| dtypes := replace_nth i (name, d) (dtypes x);
              rows := map (fun rv => (fst (fst rv),
                                      replace_nth i (snd rv) (snd (fst rv))))
                          (combine (rows x) (s_values s)) |}
    | None =>
        Ok {| dtypes := (dtypes x ++ [(name, d)])%list;
              rows := map (fun rv => (fst (fst rv),
                                      (snd (fst rv) ++ [snd rv])%list))
                          (combine (rows x) (s_values s)) |}
    end.

End Pandas.

(** ** The random generator

    numpy's generator is not part of the repository either: it is a state
    machine, given by how a seed initialises the state and how one
    standard-normal draw advances it. *)

Module NumPy.
Import Pandas.

(** *** Subtraction in the two numeric dtypes *)

(** [N / D] rounded to the nearest integer, a tie to the even one
    ([0 <= N], [0 < D]). *)
Definition round_half_even (N D : Z) : Z :=
  let f := (N / D)%Z in
  match (2 * (N mod D) ?= D)%Z with
  | Lt => f
  | Gt => (f + 1)%Z
  | Eq => if Z.even f then f else (f + 1)%Z
  end.

(** [2 ^ e <= n / d], for positive [n] and [d]. *)
Definition reaches (n d e : Z) : bool :=
  (d * 2 ^ Z.max 0 e <=? n * 2 ^ Z.max 0 (- e))%Z.

(** The [e] with [2 ^ e <= n / d < 2 ^ (e + 1)]. *)
Definition exponent (n d : Z) : Z :=
  let e := (Z.log2 n - Z.log2 d)%Z in
  if reaches n d e then e else (e - 1)%Z.

(** The float64 nearest to [n / d > 0]: 53 significant bits, exponents
    down to -1074 (subnormal numbers), ties to even, infinity from
    [2 ^ 1024] on. *)
Definition round64_pos (n d : Z) : value :=
  let e := Z.max (exponent n d - 52) (-1074) in
  let m := round_half_even (n * 2 ^ Z.max 0 (- e)) (d * 2 ^ Z.max 0 e) in
  if (2 ^ 1024 <=? m * 2 ^ Z.max 0 e)%Z && (0 <=? e)%Z then Infinity false
  else Entry (Num (inject_Z m * 2 ^ e)).

Definition negate (v : value) : value :=
  match v with
  | Entry (Num q) => Entry (Num (- q))
  | Infinity s => Infinity (negb s)
  | _ => v
  end.

(** IEEE 754 binary64 rounding to nearest of a rational. *)
Definition round64 (q : Q) : value :=
  match Qnum q with
  | Z0 => Entry (Num 0)
  | Zpos n => round64_pos (Zpos n) (Zpos (Qden q))
  | Zneg n => negate (round64_pos (Zpos n) (Zpos (Qden q)))
  end.

(** The finite float64 numbers: those rounding leaves as they are. *)
Definition is_float64 (q : Q) : bool :=
  match round64 q with
  | Entry (Num r) => Qeq_bool r q
  | _ => false
  end.

(** The multiples of the smallest positive float64, [2 ^ -1074]. *)
Definition on_grid (q : Q) : Prop :=
  exists k : Z, (q == inject_Z k * 2 ^ (-1074))%Q.

(** float64: the exact difference, rounded. *)
Definition float64_arithmetic : Arithmetic :=
  {| minus := fun a b => round64 (a - b) |}.

(** An integer brought into [-2^63, 2^63) modulo [2^64]. *)
Definition wrap64 (z : Z) : Z := ((z + 2 ^ 63) mod 2 ^ 64 - 2 ^ 63)%Z.

(** The int64 numbers. *)
Definition is_int64 (q : Q) : bool :=
  Qeq_bool q (inject_Z (Qfloor q))
  && (- 2 ^ 63 <=? Qfloor q)%Z && (Qfloor q <? 2 ^ 63)%Z.

(** int64: the difference wraps around, without exception. *)
Definition int64_arithmetic : Arithmetic :=
  {| minus := fun a b => Entry (Num (inject_Z (wrap64 (Qfloor a - Qfloor b)))) |}.

(** *** The random generator *)

Class BitGenerator := {
  state : Type;
  init : Z -> state;
  standard_normal : state -> Q * state
}.

Section Random.
Context {G : BitGenerator}.

(** [np.random.seed(n)] *)
Definition seed (n : Z) (st : state) : state := init n.

(** [np.random.randn(n)] *)
Fixpoint randn (n : nat) (st : state) : list Q * state :=
  match n with
  | O => ([], st)
  | S n' =>
      let (x, st1) := standard_normal st in
      let (xs, st2) := randn n' st1 in
      (x :: xs, st2)
  end.

(** [np.random.randn(r, c)]: filled row by row. *)
Fixpoint randn2 (r c : nat) (st : state) : list (list Q) * state :=
  match r with
  | O => ([], st)
  | S r' =>
      let (xs, st1) := randn c st in
      let (xss, st2) := randn2 r' c st1 in
      (xs :: xss, st2)
  end.

End Random.

End NumPy.

(** ** The notebooks' own functions and pipelines *)

Module User.
Import Pandas.

(** Lines 547-548:
<<
def peak_to_peak(arr):
    return arr.max() - arr.min()
>> *)
Definition peak_to_peak `{Arithmetic} (arr : Series) : result value :=
  hi ← max arr;
  lo ← min arr;
  sub (Entry hi) (Entry lo).

(** Lines 613-614:
<<
def top(x, col, n=1):
    return x.sort_values(col).head(n)
>> *)
Definition top `{Sorter} (x : DataFrame) (col : string) (n : Z)
  : result DataFrame :=
  sorted ← sort_values col x;
  mret (head n sorted).

(** The default of [top]'s parameter [n]. *)
Definition top_n_default : Z := 1.

(** Lines 1118-1126:
<<
spy_m = (
    spy
    .resample(rule='M', kind='period')
    ['Return']
    .agg(['mean', 'std', 'count'])
    .query('count >= 15')
    .drop(columns=['count'])
    .mul(100)
)
>> *)
Definition spy_m `{RealOps} (spy : DataFrame) : result DataFrame :=
  r ← resample_M spy;
  g ← resampler_getitem "Return" r;
  a ← agg ["mean"; "std"; "count"] g;
  q ← query_ge "count" 15 a;
  d ← drop ["count"] q;
  mret (mul 100 d).

(** Lines 1241-1250: the same pipeline, followed by
<<
    .assign(mean_lag1 = lambda x: x['mean'].shift(1))
>> *)
Definition spy_m_lagged `{RealOps} (spy : DataFrame) : result DataFrame :=
  m ← spy_m spy;
  assign "mean_lag1" (fun x => s ← getitem "mean" x; mret (shift 1 s)) m.

(** The part of the kernel the table-building cells touch: the state of
    the random generator and the tables bound to names. *)
Record kernel {G : NumPy.BitGenerator} := Kernel {
  rng : NumPy.state;
  names : gmap string DataFrame
}.

(** Lines 101-105 (and 723-727):
<<
np.random.seed(42)
df = pd.DataFrame({'key1' : ['a', 'a', 'b', 'b', 'a'],
                   'key2' : ['one', 'two', 'one', 'two', 'one'],
                   'data1' : np.random.randn(5),
                   'data2' : np.random.randn(5)})
>> *)
Definition cell_df {G : NumPy.BitGenerator} (k : kernel) : result kernel :=
  let st0 := NumPy.seed 42 (rng k) in
  let (data1, st1) := NumPy.randn 5 st0 in
  let (data2, st2) := NumPy.randn 5 st1 in
  df ← from_dict [("key1", map Text ["a"; "a"; "b"; "b"; "a"]);
                  ("key2", map Text ["one"; "two"; "one"; "two"; "one"]);
                  ("data1", map Num data1);
                  ("data2", map Num data2)];
  mret (Kernel _ st2 (<["df" := df]> (names k))).

(** Lines 391-396 (and 753-758):
<<
np.random.seed(42)
people = pd.DataFrame(
    data=np.random.randn(5, 5),
    columns=['a', 'b', 'c', 'd', 'e'],
    index=['Joe', 'Steve', 'Wes', 'Jim', 'Travis']
)
>> *)
Definition cell_people {G : NumPy.BitGenerator} (k : kernel) : result kernel :=
  let st0 := NumPy.seed 42 (rng k) in
  let (data, st1) := NumPy.randn2 5 5 st0 in
  people ← from_matrix (map (map Num) data)
                       ["a"; "b"; "c"; "d"; "e"]
                       (map LStr ["Joe"; "Steve"; "Wes"; "Jim"; "Travis"]);
  mret (Kernel _ st1 (<["people" := people]> (names k))).

(** Lines 460-463, second statement: [hier_df] draws without seeding. *)
Definition draw_unseeded {G : NumPy.BitGenerator} (k : kernel)
  : list (list Q) * NumPy.state :=
  NumPy.randn2 4 5 (rng k).

End User.

(** ** Code read as a composition of library calls

    The second reading of [peak_to_peak], [top] and the [spy_m] pipelines:
    the expression, as it stands in the cell, is evaluated by looking up
    each method it calls in the library and feeding it the results of the
    inner calls.  Nothing but names, constants, lists of strings, method
    calls, indexing, operators and one-parameter lambdas is given a
    meaning. *)

Module Compose.
Import Py Pandas.

Inductive obj :=
| OSeries (s : Series)
| OFrame (x : DataFrame)
| OResampler (r : Resampler)
| OGroups (g : list (Z * list scalar))
| OScalar (v : value)
| OStr (s : string)
| OStrs (l : list string)
| OInt (n : Z)
| OFun (f : DataFrame -> result Series).

(** The library's methods, by receiver, name and arguments. *)
Definition library_method `{RealOps} `{Sorter} (o : obj) (m : string)
           (args : list obj) (kws : list (string * obj)) : result obj :=
  match o, args, kws with
  | OSeries s, [], [] =>
      if String.eqb m "max" then (fun v => OScalar (Entry v)) <$> max s
      else if String.eqb m "min" then (fun v => OScalar (Entry v)) <$> min s
      else Raise (AttributeError m)
  | OSeries s, [OInt n], [] =>
      if String.eqb m "shift" then Ok (OSeries (shift n s))
      else Raise (AttributeError m)
  | OFrame x, [OStr c], [] =>
      if String.eqb m "sort_values" then OFrame <$> sort_values c x
      else if String.eqb m "query" then
        if String.eqb c "count >= 15" then OFrame <$> query_ge "count" 15 x
        else Raise ValueError
      else Raise (AttributeError m)
  | OFrame x, [OInt n], [] =>
      if String.eqb m "head" then Ok (OFrame (head n x))
      else if String.eqb m "mul" then Ok (OFrame (mul n x))
      else Raise (AttributeError m)
  | OFrame x, [], [(k1, OStr v1); (k2, OStr v2)] =>
      if String.eqb m "resample" && String.eqb k1 "rule" && String.eqb v1 "M"
         && String.eqb k2 "kind" && String.eqb v2 "period"
      then OResampler <$> resample_M x
      else Raise (AttributeError m)
  | OFrame x, [], [(k, OStrs cols)] =>
      if String.eqb m "drop" && String.eqb k "columns"
      then OFrame <$> drop cols x
      else Raise (AttributeError m)
  | OFrame x, [], [(name, OFun f)] =>
      if String.eqb m "assign" then OFrame <$> assign name f x
      else Raise (AttributeError m)
  | OGroups g, [OStrs funcs], [] =>
      if String.eqb m "agg" then OFrame <$> agg funcs g
      else Raise (AttributeError m)
  | _, _, _ => Raise (AttributeError m)
  end.

(** [o[k]] *)
Definition library_getitem (o k : obj) : result obj :=
  match o, k with
  | OFrame x, OStr c => OSeries <$> getitem c x
  | OResampler r, OStr c => OGroups <$> resampler_getitem c r
  | _, _ => Raise TypeError
  end.

Definition library_operator `{Arithmetic} (o : operator) (l r : obj)
  : result obj :=
  match o, l, r with
  | Sub, OScalar u, OScalar v => OScalar <$> sub u v
  | _, _, _ => Raise TypeError
  end.

Definition of_constant (c : constant) : result obj :=
  match c with
  | CStr s => Ok (OStr s)
  | CInt n => Ok (OInt n)
  | _ => Raise TypeError
  end.

Definition string_of (e : expr) : result string :=
  match e with
  | Constant (CStr s) => Ok s
  | _ => Raise TypeError
  end.

Definition series_of (o : obj) : result Series :=
  match o with
  | OSeries s => Ok s
  | _ => Raise TypeError
  end.

Fixpoint lookup (x : string) (env : list (string * obj)) : result obj :=
  match env with
  | [] => Raise (KeyError x)
  | (y, o) :: env' => if String.eqb x y then Ok o else lookup x env'
  end.

Fixpoint denote `{RealOps} `{Arithmetic} `{Sorter}
         (env : list (string * obj)) (e : expr) : result obj :=
  match e with
  | Name id => lookup id env
  | Constant c => of_constant c
  | ListE es => OStrs <$> mapM string_of es
  | Call (Attribute o m) args kws =>
      r ← denote env o;
      rs ← (fix go (l : list expr) : result (list obj) :=
              match l with
              | [] => Ok []
              | a :: l' => v ← denote env a; vs ← go l'; mret (v :: vs)
              end) args;
      ks ← (fix go (l : list (string * expr)) : result (list (string * obj)) :=
              match l with
              | [] => Ok []
              | kw :: l' =>
                  v ← denote env (snd kw); vs ← go l'; mret ((fst kw, v) :: vs)
              end) kws;
      library_method r m rs ks
  | Subscript v k =>
      o ← denote env v;
      i ← denote env k;
      library_getitem o i
  | BinOp l o r =>
      u ← denote env l;
      v ← denote env r;
      library_operator o u v
  | Lambda [p] body =>
      Ok (OFun (fun x => r ← denote ((p, OFrame x) :: env) body; series_of r))
  | _ => Raise TypeError
  end.

(** The syntactic side: an expression made only of parameter names,
    constants, method calls, indexing and operators. *)
Fixpoint is_composition (params : list string) (e : expr) : bool :=
  match e with
  | Name id => Static.mem id params
  | Constant _ => true
  | Call (Attribute o _) args kws =>
      is_composition params o
      && forallb (is_composition params) args
      && forallb (fun kw => is_composition params (snd kw)) kws
  | Subscript v s => is_composition params v && is_composition params s
  | BinOp l _ r => is_composition params l && is_composition params r
  | _ => false
  end.

(** Parameters are bound to the arguments in order; a parameter without
    argument takes its default. *)
Fixpoint bind_params `{RealOps} `{Arithmetic} `{Sorter}
         (params : list (string * option expr)) (args : list obj)
  : result (list (string * obj)) :=
  match params, args with
  | [], [] => Ok []
  | [], _ :: _ => Raise TypeError
  | (p, _) :: params', a :: args' =>
      env ← bind_params params' args'; mret ((p, a) :: env)
  | (p, Some d) :: params', [] =>
      v ← denote [] d; env ← bind_params params' []; mret ((p, v) :: env)
  | (_, None) :: _, [] => Raise TypeError
  end.

Fixpoint find_def (f : string)
         (defs : list (string * list (string * option expr) * list stmt))
  : option (list (string * option expr) * list stmt) :=
  match defs with
  | [] => None
  | (g, params, body) :: defs' =>
      if String.eqb f g then Some (params, body) else find_def f defs'
  end.

(** Calling the function [f] that notebook [nb] defines. *)
Definition call_def `{RealOps} `{Arithmetic} `{Sorter} (nb : notebook)
           (f : string) (args : list obj) : result obj :=
  match find_def f (Static.function_defs nb) with
  | Some (params, [Return e]) =>
      env ← bind_params params args; denote env e
  | _ => Raise (KeyError f)
  end.

(** The value a notebook assigns to the name [x] at line [line]. *)
Definition assigned (nb : notebook) (line : nat) (x : string) : option expr :=
  match List.find (fun c => Nat.eqb (cell_line c) line) (nb_cells nb) with
  | Some c =>
      match List.find (fun s => match s with
                                | Assign (Name y) _ => String.eqb x y
                                | _ => false
                                end) (cell_source c) with
      | Some (Assign _ v) => Some v
      | _ => None
      end
  | None => None
  end.

End Compose.

(** ** The order of the steps of a notebook *)

Module Flow.
Import Py Static.

(** One statement of a notebook, with the line of its cell.  [shown] marks
    the last statement of a cell when it is an expression: the notebook
    displays its value. *)
Record step := Step { at_line : nat; shown : bool; code : stmt }.

Fixpoint cell_steps (line : nat) (ss : list stmt) : list step :=
  match ss with
  | [] => []
  | [Expr v] => [Step line true (Expr v)]
  | s :: ss' => Step line false s :: cell_steps line ss'
  end.

Definition steps (nb : notebook) : list step :=
  flat_map (fun c => cell_steps (cell_line c) (cell_source c)) (nb_cells nb).

(** The names the notebooks bind to a DataFrame or a Series. *)
Definition tables : list string :=
  ["df"; "means"; "people"; "hier_df"; "ind"; "faang";
   "spy"; "spy_m"; "spy_lags"; "corrs"; "serrs"].

(** The library's aggregation and statistics methods the notebooks call. *)
Definition aggregations : list string :=
  ["mean"; "sum"; "min"; "max"; "count"; "std"; "quantile"; "describe";
   "agg"; "apply"; "pivot_table"; "skew"; "kurt"; "corr"].

(** The plotting methods the notebooks call. *)
Definition plots : list string :=
  ["plot"; "bar"; "title"; "xlabel"; "ylabel"; "suptitle"; "set_ylabel";
   "legend"; "show"].

(** Methods and functions that write a table to storage. *)
Definition writers : list string :=
  ["to_csv"; "to_pickle"; "to_parquet"; "to_feather"; "to_hdf"; "to_excel";
   "to_json"; "to_sql"; "to_stata"; "to_clipboard"; "save"; "savez";
   "savetxt"; "savefig"; "dump"; "write"; "open"].

Definition builtins : list string := ["print"; "len"; "range"].

Definition callee_is (names : list string)
           (c : expr * list expr * list (string * expr)) : bool :=
  match fst (fst c) with
  | Attribute _ m => mem m names
  | Name f => mem f names
  | _ => false
  end.

Definition aggregates (s : stmt) : bool :=
  existsb (callee_is aggregations) (stmt_calls s).

(** A step displays when its value is shown, or when it prints or plots. *)
Definition displays (st : step) : bool :=
  shown st || existsb (callee_is ("print" :: plots)) (stmt_calls (code st)).

Definition persists (c : cell) : bool :=
  existsb (callee_is writers) (cell_calls c).

(** A call goes to the library or to a builtin when its callee is an
    attribute of some object or a builtin name. *)
Definition library_call (c : expr * list expr * list (string * expr)) : bool :=
  match fst (fst c) with
  | Attribute _ _ => true
  | Name f => mem f builtins
  | _ => false
  end.

Definition bound (l : list step) : list string :=
  flat_map (fun st => stmt_binds (code st)) l.

(** Names bound by a step that aggregates. *)
Definition aggregated (l : list step) : list string :=
  flat_map (fun st => if aggregates (code st) then stmt_binds (code st)
                      else []) l.

(** The three-step order at one step [s] of [pre ++ s :: post]:
    - an aggregation reads only tables constructed before it;
    - a display of a name that holds an aggregate comes after the
      aggregation that bound it;
    - the result of an aggregation is displayed: by the step itself, or by
      a later step that reads the name it was bound to. *)
Definition in_order (pre : list step) (s : step) (post : list step) : Prop :=
  (aggregates (code s) = true ->
   forall t, In t (stmt_reads (code s)) -> In t tables -> In t (bound pre))
  /\ (displays s = true ->
      forall y, In y (stmt_reads (code s)) ->
                In y (aggregated (pre ++ s :: post)) ->
                In y (aggregated pre))
  /\ (aggregates (code s) = true ->
      displays s = true
      \/ exists d y, In d post /\ displays d = true
                     /\ In y (stmt_binds (code s))
                     /\ In y (stmt_reads (code d))).

Definition in_orderb (pre : list step) (s : step) (post : list step) : bool :=
  implb (aggregates (code s))
        (forallb (fun t => implb (mem t tables) (mem t (bound pre)))
                 (stmt_reads (code s)))
  && implb (displays s)
           (forallb (fun y => implb (mem y (aggregated (pre ++ s :: post)))
                                    (mem y (aggregated pre)))
                    (stmt_reads (code s)))
  && implb (aggregates (code s))
           (displays s
            || existsb (fun d => displays d
                                 && existsb (fun y => mem y (stmt_reads (code d)))
                                            (stmt_binds (code s)))
                       post).

Fixpoint forall_split {A} (P : list A -> A -> list A -> bool)
         (pre rest : list A) : bool :=
  match rest with
  | [] => true
  | s :: post => P pre s post && forall_split P (pre ++ [s]) post
  end.

(** The reading of "no lifecycle beyond a single cell": a table bound in
    one cell is neither read nor changed by a later cell. *)
Definition ephemeral (nb : notebook) : Prop :=
  forall i j ci cj t,
    nth_error (nb_cells nb) i = Some ci ->
    nth_error (nb_cells nb) j = Some cj ->
    (i < j)%nat ->
    In t tables -> In t (cell_binds ci) ->
    ~ In t (cell_inputs cj) /\ ~ In t (cell_changes cj).

(** Is [t] bound in some cell and used, in the sense of [use], by a cell
    after it? *)
Fixpoint used_later (use : cell -> list string) (t : string)
         (cs : list cell) : bool :=
  match cs with
  | [] => false
  | c :: cs' =>
      (mem t (cell_binds c) && existsb (fun c' => mem t (use c')) cs')
      || used_later use t cs'
  end.

(** The tables a later cell reads, and those a later cell changes. *)
Definition read_later (nb : notebook) : list string :=
  List.filter (fun t => used_later cell_inputs t (nb_cells nb)) tables.
Definition changed_later (nb : notebook) : list string :=
  List.filter (fun t => used_later cell_changes t (nb_cells nb)) tables.

(** The tables a cell takes from the cells before it were bound there. *)
Definition bound_before_use (pre : list cell) (c : cell) : bool :=
  forallb (fun t => implb (mem t tables)
                          (mem t (flat_map cell_binds pre)))
          (cell_inputs c ++ cell_changes c).

(** How a name occurs in the code: bound to a value, passed as a keyword
    argument of a call, or anything else (read, indexed, changed in place,
    rebound by an import, a loop or a [def]). *)
Inductive role :=
| Bound (value : expr)
| Keyword (func : expr) (kw : string)
| Other.

Definition is_name (x : string) (e : expr) : bool :=
  match e with
  | Name id => String.eqb id x
  | _ => false
  end.

Fixpoint expr_roles (x : string) (e : expr) : list role :=
  match e with
  | Name id => if String.eqb id x then [Other] else []
  | Constant _ => []
  | Attribute v _ => expr_roles x v
  | Call f args kws =>
      expr_roles x f ++ flat_map (expr_roles x) args
        ++ flat_map (fun kw =>
                       if is_name x (snd kw) then [Keyword f (fst kw)]
                       else expr_roles x (snd kw)) kws
  | Subscript v s => expr_roles x v ++ expr_roles x s
  | Slice lo hi => opt_list (expr_roles x) lo ++ opt_list (expr_roles x) hi
  | BinOp l _ r => expr_roles x l ++ expr_roles x r
  | Compare l _ r => expr_roles x l ++ expr_roles x r
  | ListE es => flat_map (expr_roles x) es
  | Tuple es => flat_map (expr_roles x) es
  | Dict kvs =>
      flat_map (fun kv => (expr_roles x (fst kv) ++ expr_roles x (snd kv))%list)
               kvs
  | Lambda params body => if mem x params then [] else expr_roles x body
  | ListComp elt target iter =>
      expr_roles x iter
        ++ (if String.eqb x target then [] else expr_roles x elt)
  end.

Fixpoint stmt_roles (x : string) (s : stmt) : list role :=
  match s with
  | Import m a =>
      if String.eqb x (match a with Some y => y | None => m end)
      then [Other] else []
  | Magic _ => []
  | Assign (Name id) v =>
      (if String.eqb id x then [Bound v] else []) ++ expr_roles x v
  | Assign t v => expr_roles x v ++ expr_roles x t
  | Expr v | Return v => expr_roles x v
  | For t iter body =>
      expr_roles x iter ++ expr_roles x t ++ flat_map (stmt_roles x) body
  | FunctionDef f params body =>
      (if String.eqb f x then [Other] else [])
        ++ flat_map (fun p => opt_list (expr_roles x) (snd p)) params
        ++ (if mem x (map fst params) then []
            else flat_map (stmt_roles x) body)
  | Try body handler =>
      flat_map (stmt_roles x) body ++ flat_map (stmt_roles x) handler
  end.

Definition roles (x : string) (nb : notebook) : list role :=
  flat_map (fun c => flat_map (stmt_roles x) (cell_source c)) (nb_cells nb).

End Flow.

(** ** A symbolic runtime

    A small runtime to run cells on: an object is the text of the
    expression that produced it, and the world is one bit, whether the
    network is up.  [yf.download] raises when it is down. *)

Module Symbolic.
Import Py Exec.

Definition text_of_constant (c : constant) : string :=
  match c with
  | CStr s => "'" ++ s ++ "'"
  | CInt _ => "<int>"
  | CFloat t => t
  | CBool true => "True"
  | CBool false => "False"
  end.

Definition symbolic_perform (o : op) (args : list string) (up : bool)
  : bool * (string + string) :=
  let self := hd "" args in
  match o with
  | OpImport m => (up, inr m)
  | OpGetAttr a => (up, inr (self ++ "." ++ a))
  | OpGetItem => (up, inr (self ++ "[" ++ nth 1 args "" ++ "]"))
  | OpCall _ =>
      if String.eqb self "yf.download" && negb up
      then (up, inl "ConnectionError")
      else (up, inr (self ++ "(...)"))
  | OpBinOp _ | OpCompare _ => (up, inr ("(" ++ self ++ " op " ++ nth 1 args "" ++ ")"))
  | OpIter | OpUnpack _ => (up, inr self)
  | OpMagic _ | OpSetAttr _ | OpSetItem | OpDisplay => (up, inr "None")
  end.

#[export] Instance symbolic : Runtime := {|
  value := string;
  world := bool;
  exn := string;
  perform := symbolic_perform;
  elements := fun _ => [];
  const := text_of_constant;
  build_list := fun _ => "[...]";
  build_tuple := fun _ => "(...)";
  build_dict := fun _ => "{...}";
  build_slice := fun _ _ => "slice";
  build_function := fun f _ _ _ => "<function " ++ f ++ ">";
  builtin := fun x => if Static.mem x ["print"; "len"; "range"] then Some x
                      else None;
  NameError := fun x => "NameError: " ++ x;
  SyntaxError := "SyntaxError"
|}.

(** The namespace once the imports and the session cell have run. *)
Definition after_imports : gmap string string :=
  <["yf" := "yf"]> (<["session" := "session"]> ∅).

(** Line 982: [spy = yf.download(tickers='SPY', session=session)]. *)
Definition cell_982 : cell := Cell 982 [ Assign (Name "spy") (Src.download "SPY") ].

(** The same statement inside a handler: not in the notebooks. *)
Definition guarded_982 : cell :=
  Cell 982 [ Try [ Assign (Name "spy") (Src.download "SPY") ]
                 [ Assign (Name "spy") (Constant (CStr "no data")) ] ].

End Symbolic.

(** ** Sample data and the claims that fail as stated *)

Module Sample.
Import Pandas.

(** Six Newton steps from 1: a square root good enough to compute with. *)
Fixpoint newton (n : nat) (a x : Q) : Q :=
  match n with
  | O => x
  | S n' => newton n' a (Qred ((x + a / x) / 2))
  end.

#[export] Instance newton_sqrt : RealOps :=
  {| sqrt := fun a => if Qeq_bool a 0 then 0%Q else newton 6 a 1 |}.

(** A sorter to compute with: insertion sort, which happens to be
    stable. *)
#[export] Instance insertion : Sorter.
Proof.
  refine {| sort_rows := @sort (label * list scalar) |}.
  - intros leb.
    assert (Hins : forall a l, Permutation (insert leb a l) (a :: l)).
    { intros a l. induction l as [|b l IH]; simpl; [reflexivity|].
      destruct (leb a b); [reflexivity|].
      eapply perm_trans; [apply perm_skip, IH|apply perm_swap]. }
    intros l. induction l as [|a l IH]; simpl; [constructor|].
    eapply perm_trans; [apply Hins|now apply perm_skip].
  - intros leb l Htotal Htrans.
    assert (Hperm : forall a l, Permutation (insert leb a l) (a :: l)).
    { intros a m. induction m as [|b m IH]; simpl; [reflexivity|].
      destruct (leb a b); [reflexivity|].
      eapply perm_trans; [apply perm_skip, IH|apply perm_swap]. }
    assert (Hins : forall a m,
               StronglySorted (fun a b => leb a b = true) m ->
               StronglySorted (fun a b => leb a b = true) (insert leb a m)).
    { intros a m Hm. induction Hm as [|b m Hm IH Hb]; simpl.
      - repeat constructor.
      - destruct (leb a b) eqn:E.
        + constructor; [now constructor|]. constructor; [exact E|].
          eapply List.Forall_impl; [|exact Hb]. intros c Hc.
          now apply (Htrans a b c).
        + constructor; [exact IH|]. apply List.Forall_forall. intros c Hc.
          apply (Permutation_in _ (Hperm a m)) in Hc.
          destruct Hc as [<-|Hc].
          * destruct (Htotal a b); congruence.
          * rewrite List.Forall_forall in Hb. now apply Hb. }
    induction l as [|a l IH]; simpl; [constructor|now apply Hins].
Defined.

(** Twenty trading days of January 2022 with returns d/1000 (the first
    one missing, as [pct_change] leaves it), then three days of
    February. *)
Definition spy : DataFrame :=
  {| dtypes := [("Adj Close", float64); ("Return", float64)];
     rows :=
       (LDate 2022 1 1, [Num 100; NaN])
         :: map (fun d => (LDate 2022 1 (Z.of_nat d),
                           [Num 100; Num (Z.of_nat d # 1000)]))
                (seq 2 19)
         ++ map (fun d => (LDate 2022 2 (Z.of_nat d),
                           [Num 100; Num (Z.of_nat d # 1000)]))
                (seq 1 3) |}.

(** A generator to compute with: the state is a counter, and a draw
    returns it. *)
#[export] Instance counter : NumPy.BitGenerator :=
  {| NumPy.state := Z;
     NumPy.init := fun n => n;
     NumPy.standard_normal := fun st => (inject_Z st, (st + 1)%Z) |}.

(** A numeric array with a missing value. *)
Definition one_and_missing : Series :=
  {| s_index := [LInt 0; LInt 1]; s_values := [Num 1; NaN] |}.

Definition no_text (vs : list scalar) : Prop :=
  Forall (fun v => is_text v = false) vs.

(** Equality of entries; a missing value equals nothing. *)
Definition same (u v : scalar) : Prop :=
  match u, v with
  | Num a, Num b => (a == b)%Q
  | Text a, Text b => a = b
  | _, _ => False
  end.

(** A frame whose column [v] holds a number and a string. *)
Definition mixed_frame : DataFrame :=
  {| dtypes := [("k", object); ("v", object)];
     rows := [(LInt 0, [Text "x"; Num 1]); (LInt 1, [Text "y"; Text "a"])] |}.

(** A frame with two columns labelled [v]. *)
Definition repeated_label : DataFrame :=
  {| dtypes := [("v", float64); ("v", float64)];
     rows := [(LInt 0, [Num 2; Num 1]); (LInt 1, [Num 1; Num 2])] |}.

(** C9 as stated, for one frame, column and [n]. *)
Definition top_stated `{Sorter} (x : DataFrame) (col : string) (n : Z)
  : Prop :=
  In col (columns x) -> (0 <= n)%Z ->
  exists r,
    User.top x col n = Ok r
    /\ (length (rows r) <= Z.to_nat n)%nat
    /\ forall a, In a (rows r) -> In a (rows x).

(** Two keys with two rows each, every group in ascending order of
    [data1]. *)
Definition paired : DataFrame :=
  {| dtypes := [("key1", object); ("data1", float64)];
     rows := [(LInt 0, [Text "a"; Num 1]); (LInt 1, [Text "b"; Num 2]);
              (LInt 2, [Text "a"; Num 3]); (LInt 3, [Text "b"; Num 4])] |}.

(** The two largest-apart int64 numbers. *)
Definition extremes : Series :=
  {| s_index := [LInt 0; LInt 1];
     s_values := [Num (inject_Z (2 ^ 63 - 1)); Num (inject_Z (- 2 ^ 63))] |}.

(** Not negative: a number that is not negative, or plus infinity. *)
Definition nonneg (v : value) : Prop :=
  match v with
  | Entry (Num d) => (0 <= d)%Q
  | Infinity false => True
  | _ => False
  end.

Definition is_zero (v : value) : Prop :=
  match v with
  | Entry (Num d) => (d == 0)%Q
  | _ => False
  end.

Definition is_positive (v : value) : Prop :=
  match v with
  | Entry (Num d) => (0 < d)%Q
  | Infinity false => True
  | _ => False
  end.

(** C8 as stated, for one array and the arithmetic of its dtype. *)
Definition peak_to_peak_stated `{Arithmetic} (arr : Series) : Prop :=
  no_text (s_values arr) -> s_values arr <> [] ->
  exists hi lo d,
    max arr = Ok (Num hi) /\ min arr = Ok (Num lo)
    /\ User.peak_to_peak arr = Ok d /\ d = minus hi lo
    /\ nonneg d
    /\ (is_zero d <->
        forall u v, In u (s_values arr) -> In v (s_values arr) -> same u v).

(** The rows of [t] with one more entry each: the first entry of the row
    before, missing for the first row. *)
Definition with_lag (t : DataFrame) : list (label * list scalar) :=
  map (fun rv => (fst (fst rv), snd (fst rv) ++ [snd rv])%list)
      (combine (rows t)
               (firstn (length (rows t)) (NaN :: map (entry 0) (rows t)))).

(** C10 as stated, for one result: only the two columns are kept. *)
Definition keeps_only_mean_and_std (t : result DataFrame) : Prop :=
  exists x, t = Ok x /\ columns x = ["mean"; "std"].

End Sample.

(** ** Running a notebook from top to bottom *)

Module Run.
Import Py Static Exec.

(** "Run All": the cells in order, stopping at the first exception. *)
Fixpoint run_all {R : Runtime} (cs : list cell) : action :=
  match cs with
  | [] => ok
  | c :: cs' => seq (run_cell c) (run_all cs')
  end.

(** Names that are bound once a statement has run without exception.  A
    loop may run zero times, so its targets are not among them. *)
Definition surely_binds (s : stmt) : list string :=
  match s with
  | Import m None => [m]
  | Import _ (Some a) => [a]
  | Assign t _ => target_binds t
  | FunctionDef f _ _ => [f]
  | _ => []
  end.

(** Every name of [l] is bound or a builtin. *)
Definition names_bound (bound l : list string) : bool :=
  forallb (fun x => mem x bound || mem x Flow.builtins) l.

(** A target Python can assign to, whose object and key read bound names. *)
Fixpoint target_ok (bound : list string) (t : expr) : bool :=
  match t with
  | Name _ => true
  | Tuple ts => forallb (target_ok bound) ts
  | Subscript o k =>
      names_bound bound (expr_names o) && names_bound bound (expr_names k)
  | Attribute o _ => names_bound bound (expr_names o)
  | _ => false
  end.

Definition scoped_block (scoped : list string -> stmt -> bool)
  : list string -> list stmt -> bool :=
  fix go (bound : list string) (ss : list stmt) : bool :=
    match ss with
    | [] => true
    | s :: ss' => scoped bound s && go (surely_binds s ++ bound)%list ss'
    end.

(** A statement that reads only names bound before it, given the names
    [bound] so far.  No [return] outside a function, no handler. *)
Fixpoint scoped (bound : list string) (s : stmt) : bool :=
  match s with
  | Import _ _ | Magic _ => true
  | Assign t v => names_bound bound (expr_names v) && target_ok bound t
  | Expr v => names_bound bound (expr_names v)
  | For t iter body =>
      names_bound bound (expr_names iter) && target_ok bound t
      && scoped_block scoped (target_binds t ++ bound)%list body
  | FunctionDef _ params _ =>
      forallb (fun p => names_bound bound (opt_list expr_names (snd p))) params
  | Return _ | Try _ _ => false
  end.

Fixpoint scoped_cells (bound : list string) (cs : list cell) : bool :=
  match cs with
  | [] => true
  | c :: cs' =>
      scoped_block scoped bound (cell_source c)
      && scoped_cells (flat_map surely_binds (cell_source c) ++ bound)%list cs'
  end.

(** What the run relies on from the runtime: the builtins exist, and an
    unpacking into [n] targets that does not raise yields [n] items. *)
Definition well_behaved (R : Runtime) : Prop :=
  (forall x, In x Flow.builtins -> builtin x <> None)
  /\ (forall n args w w' u,
        perform (OpUnpack n) args w = (w', inr u) ->
        length (elements u) = n).

(** The names a notebook binds by [import] or [def]. *)
Definition fixed_names (nb : notebook) : list string :=
  flat_map (fun c =>
              flat_map (fun s => match s with
                                 | Import _ _ | FunctionDef _ _ _ => stmt_binds s
                                 | _ => []
                                 end) (cell_source c))
           (nb_cells nb).

(** In how many cells is [x] bound? *)
Definition binding_cells (x : string) (nb : notebook) : list cell :=
  List.filter (fun c => mem x (cell_binds c)) (nb_cells nb).

End Run.

(** ** Judgements about a run

    What it means for an evaluation or a statement to raise only what a
    runtime operation raised, and for a namespace to hold given names. *)

Module Scoping.
Import Py Static Exec.

Section Judgements.
Context {R : Runtime}.

(** Every name of [bound] is bound in [g]. *)
Definition covers (bound : list string) (g : namespace) : Prop :=
  forall x, In x bound -> g !! x <> None.

(** [load loc g x] finds [x]. *)
Definition known (loc : list (string * value)) (g : namespace) (x : string)
  : Prop :=
  assoc x loc <> None \/ g !! x <> None \/ builtin x <> None.

(** An evaluation that raises only what its last operation raised, and
    whose value satisfies [post]. *)
Definition loudM {A} (g : namespace) (post : A -> Prop) (m : M A) : Prop :=
  forall w,
    match m w with
    | (_, tr, inl x) => failed_last g x tr
    | (_, tr, inr a) => Forall quiet tr /\ post a
    end.

(** An outcome whose exception, if any, is the one its last operation
    raised. *)
Definition loud (o : outcome) : Prop :=
  match out_raised o with
  | Some x => failed_last (out_globals o) x (out_trace o)
  | None => Forall quiet (out_trace o)
  end.

Definition sound (post : namespace -> Prop) (o : outcome) : Prop :=
  loud o /\ (out_raised o = None -> post (out_globals o)).

Definition safe (pre post : namespace -> Prop) (s : action) : Prop :=
  forall g w, pre g -> sound post (s g w).

End Judgements.

End Scoping.

(** ** A runtime with structure

    Objects are trees: a leaf is the text of what produced it, a node holds
    the items of an iterable.  Iterating anything yields one item shaped
    like [((k1, k2), group)]; unpacking checks the number of items.  The
    world is the number of operations that still succeed: once it is
    used up the connection is lost and every operation raises. *)

Module Trees.
Import Py Exec.

Inductive tree := Leaf (s : string) | Node (items : list tree).

Definition items_of (t : tree) : list tree :=
  match t with Leaf _ => [] | Node l => l end.

Definition one_group : tree :=
  Node [Node [Node [Leaf "k1"; Leaf "k2"]; Leaf "group"]].

Definition tree_perform (o : op) (args : list tree) (w : nat)
  : nat * (string + tree) :=
  match w with
  | O => (O, inl "ConnectionError")
  | S w' =>
      match o with
      | OpIter => (w', inr one_group)
      | OpUnpack n =>
          match args with
          | [v] => if Nat.eqb (length (items_of v)) n then (w', inr v)
                   else (w', inl "ValueError")
          | _ => (w', inl "ValueError")
          end
      | OpImport m => (w', inr (Leaf m))
      | OpGetAttr a => (w', inr (Leaf a))
      | _ => (w', inr (Leaf "object"))
      end
  end.

#[export] Instance trees : Runtime := {|
  value := tree;
  world := nat;
  exn := string;
  perform := tree_perform;
  elements := items_of;
  const := fun _ => Leaf "constant";
  build_list := Node;
  build_tuple := Node;
  build_dict := fun kvs => Node (map snd kvs);
  build_slice := fun _ _ => Leaf "slice";
  build_function := fun f _ _ _ => Leaf f;
  builtin := fun x =>
    if Static.mem x Flow.builtins then Some (Leaf x) else None;
  NameError := fun x => "NameError: " ++ x;
  SyntaxError := "SyntaxError"
|}.

End Trees.

(** ** The seeded tables under the counting generator *)

Module Drawn.
Import Pandas.

(** A kernel that has run nothing. *)
Definition fresh (st : Z) : User.kernel := User.Kernel Sample.counter st ∅.

(** What the two seeded cells bind when a draw returns the generator's
    counter: the draws are 42, 43, 44, ... *)
Definition df : DataFrame :=
  {| dtypes := [("key1", object); ("key2", object);
                ("data1", float64); ("data2", float64)];
     rows := [(LInt 0, [Text "a"; Text "one"; Num 42; Num 47]);
              (LInt 1, [Text "a"; Text "two"; Num 43; Num 48]);
              (LInt 2, [Text "b"; Text "one"; Num 44; Num 49]);
              (LInt 3, [Text "b"; Text "two"; Num 45; Num 50]);
              (LInt 4, [Text "a"; Text "one"; Num 46; Num 51])] |}.

Definition people : DataFrame :=
  {| dtypes := [("a", float64); ("b", float64); ("c", float64);
                ("d", float64); ("e", float64)];
     rows := [(LStr "Joe", map Num [42; 43; 44; 45; 46]%Q);
              (LStr "Steve", map Num [47; 48; 49; 50; 51]%Q);
              (LStr "Wes", map Num [52; 53; 54; 55; 56]%Q);
              (LStr "Jim", map Num [57; 58; 59; 60; 61]%Q);
              (LStr "Travis", map Num [62; 63; 64; 65; 66]%Q)] |}.

Definition after_df : User.kernel :=
  User.Kernel Sample.counter 52%Z (<["df" := df]> ∅).

Definition after_people : User.kernel :=
  User.Kernel Sample.counter 67%Z (<["people" := people]> ∅).

End Drawn.

(** ** The lagged returns *)

Module Lagged.
Import Pandas.

(** Python's [range(n)]: empty when [n] is not positive. *)
Definition range (n : Z) : list Z := map Z.of_nat (seq 0 (Z.to_nat n)).

(** Lines 1174 and 1211, the list handed to [pd.concat]:
<<
[spy['Return'].shift(t) for t in range(N + 1)]
>>
    [spy['Return']] is evaluated once per item. *)
Definition lags (N : Z) (spy : DataFrame) : result (list Series) :=
  mapM (fun t => s ← getitem "Return" spy; mret (shift t s)) (range (N + 1)).

(** How many entries are not missing ([Series.count()]). *)
Definition present (vs : list scalar) : nat :=
  length (List.filter (fun v => negb (is_missing v)) vs).

End Lagged.

(** ** Grouping, and the cells that hand the notebook's functions to it

    [groupby] with its defaults: the groups are the distinct values of the
    key column in ascending order ([sort=True]); rows whose key is missing
    are in no group ([dropna=True]); a group keeps its rows in the order
    of the frame, the key column included. *)

Module GroupBy.
Import Pandas.

(** Equality of keys; a missing key equals nothing. *)
Definition key_eqb (u v : scalar) : bool :=
  match u, v with
  | Num a, Num b => Qeq_bool a b
  | Text a, Text b => String.eqb a b
  | _, _ => false
  end.

(** Strictly before, in the order of the groups. *)
Definition key_lt (u v : scalar) : Prop :=
  key_leb u v = true /\ key_eqb u v = false.

(** The distinct keys, each at its first occurrence. *)
Fixpoint distinct (keys : list scalar) : list scalar :=
  match keys with
  | [] => []
  | k :: ks => k :: List.filter (fun k' => negb (key_eqb k k')) (distinct ks)
  end.

Record DataFrameGroupBy := {
  obj : DataFrame;
  key_column : nat;
  keys : list scalar
}.

(** [x.groupby(col)]: the label must name one column. *)
Definition groupby (col : string) (x : DataFrame) : result DataFrameGroupBy :=
  match position col (columns x) with
  | None => Raise (KeyError col)
  | Some i =>
      if (1 <? occurrences col (columns x))%nat then Raise ValueError
      else
        Ok {| obj := x;
              key_column := i;
              keys := sort key_leb
                        (distinct
                           (List.filter (fun v => negb (is_missing v))
                                        (map (entry i) (rows x)))) |}
  end.

(** The frame of one group. *)
Definition get_group (g : DataFrameGroupBy) (k : scalar) : DataFrame :=
  {| dtypes := dtypes (obj g);
     rows := List.filter (fun r => key_eqb (entry (key_column g) r) k)
                         (rows (obj g)) |}.

(** Column [j] of a frame, as a series. *)
Definition column (j : nat) (x : DataFrame) : Series :=
  {| s_index := map fst (rows x); s_values := map (entry j) (rows x) |}.

(** [g[col]]: one series per group, for a label that names one column
    (with a repeated label the selection has two columns, which this
    type does not hold). *)
Definition groupby_getitem (col : string) (g : DataFrameGroupBy)
  : result (list (scalar * Series)) :=
  match position col (columns (obj g)) with
  | None => Raise (KeyError ("Column not found: " ++ col))
  | Some j => Ok (map (fun k => (k, column j (get_group g k))) (keys g))
  end.

(** [groups.agg(f)] for a function [f] of the notebook: [f] is called on
    the series of each group, in the order of the keys; the result is
    indexed by the keys.  What [f] raises is raised. *)
Definition agg_with (f : Series -> result value)
           (groups : list (scalar * Series)) : result (list (scalar * value)) :=
  mapM (fun g => v ← f (snd g); mret (fst g, v)) groups.

Definition label_eqb (a b : label) : bool :=
  match a, b with
  | LInt i, LInt j => Z.eqb i j
  | LStr s, LStr t => String.eqb s t
  | LDate y m d, LDate y' m' d' => Z.eqb y y' && Z.eqb m m' && Z.eqb d d'
  | LPeriod y m, LPeriod y' m' => Z.eqb y y' && Z.eqb m m'
  | _, _ => false
  end.

(** [Index.equals]: the same labels in the same order. *)
Fixpoint same_labels (l1 l2 : list label) : bool :=
  match l1, l2 with
  | [], [] => true
  | a :: l1', b :: l2' => label_eqb a b && same_labels l1' l2'
  | _, _ => false
  end.

(** What [apply] returns (pandas 1.x, with the default [group_keys]): the
    frames stacked under their keys, the key being the outer level of the
    index; or one frame with the index of the grouped frame, without the
    keys. *)
Inductive applied :=
| Stacked (pieces : list (scalar * DataFrame))
| Restored (frame : DataFrame).

(** Whether the frame returned for a group has the index of the group. *)
Definition like_indexed (g : DataFrameGroupBy) (p : scalar * DataFrame)
  : bool :=
  same_labels (map fst (rows (snd p))) (map fst (rows (get_group g (fst p)))).

(** Rows with their positions. *)
Definition numbered {A} (l : list A) : list (nat * A) :=
  combine (seq 0 (length l)) l.

(** The first occurrence of each position. *)
Fixpoint unique {A} (l : list (nat * A)) : list (nat * A) :=
  match l with
  | [] => []
  | a :: l' =>
      a :: List.filter (fun b => negb (Nat.eqb (fst a) (fst b))) (unique l')
  end.

(** The frames of the groups put back on the index of the grouped frame:
    they are concatenated in the order of the keys; if the labels are then
    not those of the rows that have a key, in the order of the grouped
    frame, the rows are taken label by label in that order, each row
    once. *)
Definition restore (g : DataFrameGroupBy) (pieces : list (scalar * DataFrame))
  : DataFrame :=
  let stacked := flat_map (fun p => rows (snd p)) pieces in
  let ax := map fst (List.filter
                       (fun r => negb (is_missing (entry (key_column g) r)))
                       (rows (obj g))) in
  {| dtypes := dtypes (obj g);
     rows :=
       if same_labels (map fst stacked) ax then stacked
       else map snd
              (unique
                 (flat_map
                    (fun l => List.filter
                                (fun nr => label_eqb l (fst (snd nr)))
                                (numbered stacked))
                    ax)) |}.

(** [g.apply(f)]: [f] is called on the frame of each group, in the order
    of the keys; when there is no group it is called once on the frame
    without its rows, for the exception it may raise.  When every frame
    [f] returns has the index of its group, the frames are put back on the
    index of the grouped frame; otherwise they are stacked, each under its
    key.  [f] is taken to return frames with the columns of its argument,
    as [top] does. *)
Definition apply_with (f : DataFrame -> result DataFrame)
           (g : DataFrameGroupBy) : result applied :=
  pieces ← mapM (fun k => r ← f (get_group g k); mret (k, r)) (keys g);
  _ ← match keys g with
      | [] => f {| dtypes := dtypes (obj g); rows := [] |}
      | _ :: _ => mret (obj g)
      end;
  mret (if forallb (like_indexed g) pieces then Restored (restore g pieces)
        else Stacked pieces).

(** Line 557:
<<
df.groupby('key1')['data1'].agg(peak_to_peak)
>> *)
Definition ranges_by_key `{Arithmetic} (df : DataFrame)
  : result (list (scalar * value)) :=
  g ← groupby "key1" df;
  groups ← groupby_getitem "data1" g;
  agg_with User.peak_to_peak groups.

(** Lines 623 and 632:
<<
df.groupby('key1').apply(top, col='data1', n=2)
df.groupby('key1').apply(top, col='data2', n=2)
>> *)
Definition top_by_key `{Sorter} (col : string) (df : DataFrame)
  : result applied :=
  g ← groupby "key1" df;
  apply_with (fun x => User.top x col 2) g.

End GroupBy.

(* ===================================================================== *)
(** * Part II: lemmas and theorems                                        *)
(* ===================================================================== *)

(** ** Lists *)

Module ListFacts.

Lemma filter_map_swap {A B} (f : A -> B) (p : B -> bool) (l : list A) :
  List.filter p (map f l) = map f (List.filter (fun a => p (f a)) l).
Proof.
  induction l as [|a l IH]; [reflexivity|].
  simpl. destruct (p (f a)); simpl; now rewrite IH.
Qed.

Lemma existsb_map_false {A B} (f : A -> B) (p : B -> bool) (l : list A) :
  (forall a, In a l -> p (f a) = false) -> existsb p (map f l) = false.
Proof.
  induction l as [|a l IH]; intros H; [reflexivity|].
  simpl. rewrite (H a) by now left. apply IH. intros. apply H. now right.
Qed.

Lemma existsb_false_In {A} (p : A -> bool) (l : list A) (a : A) :
  existsb p l = false -> In a l -> p a = false.
Proof.
  intros H Ha. destruct (p a) eqn:E; [|reflexivity].
  assert (existsb p l = true) by (apply existsb_exists; eauto). congruence.
Qed.

Lemma existsb_firstn_false {A} (p : A -> bool) n (l : list A) :
  existsb p l = false -> existsb p (firstn n l) = false.
Proof.
  revert n. induction l as [|a l IH]; intros [|n] H; try reflexivity.
  simpl in *. apply orb_false_iff in H. destruct H as [-> H]. now apply IH.
Qed.

End ListFacts.

(** ** Exceptions in handler-free code *)

Module ExecFacts.
Import Py Static Exec.

Section Faithful.
Context {R : Runtime}.

Lemma failed_last_app g x t1 t2 :
  Forall quiet t1 -> failed_last g x t2 -> failed_last g x (t1 ++ t2).
Proof.
  intros H1 (tr0 & ev & -> & H0 & Hx & Hg).
  exists (t1 ++ tr0)%list, ev. rewrite app_assoc.
  repeat split; auto. apply Forall_app; auto.
Qed.

Lemma faithful_trace_app g r t1 t2 :
  Forall quiet t1 -> faithful_trace g r t2 -> faithful_trace g r (t1 ++ t2).
Proof.
  intros H1 H2. destruct r as [x|]; simpl in *.
  - destruct H2 as [[H2 Hi]|H2].
    + left. split; [apply Forall_app|]; auto.
    + right. now apply failed_last_app.
  - apply Forall_app; auto.
Qed.

Lemma faithfulM_ret {A} g (a : A) : faithfulM g (ret a).
Proof. intros w. simpl. constructor. Qed.

Lemma faithfulM_raise {A} g x : internal x -> faithfulM g (@raise _ A x).
Proof. intros Hx w. simpl. left. split; [constructor|assumption]. Qed.

Lemma faithfulM_call g o args : faithfulM g (call g o args).
Proof.
  intros w. unfold call. destruct (perform o args w) as [w1 [x|v]]; simpl.
  - right. exists [], (Event g o args (Some x)). repeat split; auto.
  - repeat constructor.
Qed.

Lemma faithfulM_bind {A B} g (m : M A) (k : A -> M B) :
  faithfulM g m -> (forall a, faithfulM g (k a)) -> faithfulM g (bind m k).
Proof.
  intros Hm Hk w. unfold bind. specialize (Hm w).
  destruct (m w) as [[w1 t1] [x|a]]; [exact Hm|].
  specialize (Hk a w1). destruct (k a w1) as [[w2 t2] [x|b]];
    now apply faithful_trace_app.
Qed.

Lemma faithfulM_mapM {A B} g (f : A -> M B) (l : list A) :
  Forall (fun a => faithfulM g (f a)) l -> faithfulM g (mapM f l).
Proof.
  induction 1 as [|a l Ha _ IH]; simpl.
  - apply faithfulM_ret.
  - apply faithfulM_bind; [exact Ha|]. intros b.
    apply faithfulM_bind; [exact IH|]. intros bs. apply faithfulM_ret.
Qed.

Lemma faithfulM_optM {A B} g (f : A -> M B) (o : option A) :
  (forall a, o = Some a -> faithfulM g (f a)) -> faithfulM g (optM f o).
Proof.
  intros H. destruct o as [a|]; simpl.
  - apply faithfulM_bind; [now apply H|]. intros b. apply faithfulM_ret.
  - apply faithfulM_ret.
Qed.

Lemma faithfulM_load loc g x : faithfulM g (load loc g x).
Proof.
  unfold load. destruct (assoc x loc); [apply faithfulM_ret|].
  destruct (g !! x); [apply faithfulM_ret|].
  destruct (builtin x); [apply faithfulM_ret|].
  apply faithfulM_raise. left. now exists x.
Qed.

Lemma list_all_Forall {A} (P : A -> Prop) (l : list A) :
  list_all A P l -> Forall P l.
Proof. induction 1; constructor; auto. Qed.

Lemma list_all_ForallT {A} (P : A -> Type) (Q : A -> Prop) (l : list A) :
  (forall a, P a -> Q a) -> list_all A P l -> Forall Q l.
Proof. intros H. induction 1; constructor; auto. Qed.

Lemma eval_faithful e : forall loc g, faithfulM g (eval loc g e).
Proof.
  induction e as
    [ id | c | v IHv a | f IHf args IHargs kws IHkws | v IHv s IHs
    | lo IHlo hi IHhi | l IHl o r IHr | l IHl o r IHr | es IHes | es IHes
    | kvs IHkvs | params body IHbody | elt IHelt target iter IHiter ];
    intros loc g; simpl.
  - apply faithfulM_load.
  - apply faithfulM_ret.
  - apply faithfulM_bind; [apply IHv|]. intros. apply faithfulM_call.
  - apply faithfulM_bind; [apply IHf|]. intros vf.
    apply faithfulM_bind.
    { apply faithfulM_mapM. apply list_all_Forall in IHargs.
      eapply List.Forall_impl; [|exact IHargs]. simpl. auto. }
    intros vargs. apply faithfulM_bind.
    { apply faithfulM_mapM.
      eapply list_all_ForallT; [|exact IHkws]. intros [k e] H. simpl.
      inversion H; subst. auto. }
    intros. apply faithfulM_call.
  - apply faithfulM_bind; [apply IHv|]. intros.
    apply faithfulM_bind; [apply IHs|]. intros. apply faithfulM_call.
  - apply faithfulM_bind.
    { apply faithfulM_optM. intros e ->. inversion IHlo; subst. auto. }
    intros. apply faithfulM_bind.
    { apply faithfulM_optM. intros e ->. inversion IHhi; subst. auto. }
    intros. apply faithfulM_ret.
  - apply faithfulM_bind; [apply IHl|]. intros.
    apply faithfulM_bind; [apply IHr|]. intros. apply faithfulM_call.
  - apply faithfulM_bind; [apply IHl|]. intros.
    apply faithfulM_bind; [apply IHr|]. intros. apply faithfulM_call.
  - apply faithfulM_bind; [|intros; apply faithfulM_ret].
    apply faithfulM_mapM. apply list_all_Forall in IHes.
    eapply List.Forall_impl; [|exact IHes]. simpl. auto.
  - apply faithfulM_bind; [|intros; apply faithfulM_ret].
    apply faithfulM_mapM. apply list_all_Forall in IHes.
    eapply List.Forall_impl; [|exact IHes]. simpl. auto.
  - apply faithfulM_bind; [|intros; apply faithfulM_ret].
    apply faithfulM_mapM.
    eapply list_all_ForallT; [|exact IHkvs]. intros [k v] H. simpl.
    inversion H; subst.
    apply faithfulM_bind; [auto|]. intros.
    apply faithfulM_bind; [auto|]. intros. apply faithfulM_ret.
  - apply faithfulM_ret.
  - apply faithfulM_bind; [apply IHiter|]. intros vi.
    apply faithfulM_bind; [apply faithfulM_call|]. intros it.
    apply faithfulM_bind; [|intros; apply faithfulM_ret].
    apply faithfulM_mapM. apply List.Forall_forall. intros. apply IHelt.
Qed.

Lemma faithful_ok : faithfulS ok.
Proof. intros g w. constructor. Qed.

Lemma faithful_fail x : internal x -> faithfulS (fail x).
Proof. intros Hx g w. left. split; [constructor|assumption]. Qed.

Lemma faithful_bind_name x v : faithfulS (bind_name x v).
Proof. intros g w. constructor. Qed.

Lemma faithful_lift {A} (m : M A) (k : A -> action) g w :
  faithfulM g m -> (forall a, faithfulS (k a)) -> faithful (lift m k g w).
Proof.
  intros Hm Hk. unfold lift. specialize (Hm w).
  destruct (m w) as [[w1 t1] [x|a]]; [exact Hm|].
  unfold faithful. simpl. apply faithful_trace_app; [exact Hm|apply Hk].
Qed.

Lemma faithful_seq s1 s2 : faithfulS s1 -> faithfulS s2 -> faithfulS (seq s1 s2).
Proof.
  intros H1 H2 g w. unfold seq. specialize (H1 g w). unfold faithful in H1.
  destruct (out_raised (s1 g w)) as [x|] eqn:E.
  - unfold faithful. now rewrite E.
  - unfold faithful. simpl. apply faithful_trace_app; [exact H1|apply H2].
Qed.

Lemma assign_faithful t : forall v, faithfulS (assign t v).
Proof.
  induction t as
    [ id | c | o IHo a | f IHf args IHargs kws IHkws | o IHo k IHk
    | lo IHlo hi IHhi | l IHl op r IHr | l IHl op r IHr | es IHes | ts IHts
    | kvs IHkvs | params body IHbody | elt IHelt target iter IHiter ];
    intros v; simpl;
    try (apply faithful_fail; now right).
  - apply faithful_bind_name.
  - intros g w. apply faithful_lift; [|intros; apply faithful_ok].
    apply faithfulM_bind; [apply eval_faithful|]. intros.
    apply faithfulM_call.
  - intros g w. apply faithful_lift; [|intros; apply faithful_ok].
    apply faithfulM_bind; [apply eval_faithful|]. intros.
    apply faithfulM_bind; [apply eval_faithful|]. intros.
    apply faithfulM_call.
  - intros g w. apply faithful_lift; [apply faithfulM_call|].
    intros u. generalize (elements u). apply list_all_Forall in IHts.
    induction IHts as [|t ts Ht _ IH]; intros vs.
    + destruct vs; apply faithful_ok.
    + destruct vs as [|x vs]; [apply faithful_ok|].
      apply faithful_seq; [apply Ht|apply IH].
Qed.

Lemma block_faithful (ex : stmt -> action) ss :
  Forall (fun s => faithfulS (ex s)) ss -> faithfulS (block ex ss).
Proof.
  induction 1 as [|s ss Hs _ IH]; simpl.
  - apply faithful_ok.
  - now apply faithful_seq.
Qed.

Lemma loop_faithful (body : value -> action) vs :
  (forall v, faithfulS (body v)) -> faithfulS (loop body vs).
Proof.
  intros H. induction vs as [|v vs IH]; simpl.
  - apply faithful_ok.
  - now apply faithful_seq.
Qed.

Lemma handler_free_body (P : stmt -> Prop) body :
  list_all stmt (fun s => has_handler s = false -> P s) body ->
  existsb has_handler body = false -> Forall P body.
Proof.
  induction 1 as [|s Hs body _ IH]; simpl; intros H; constructor;
    apply orb_false_iff in H; destruct H; auto.
Qed.

(** A statement without handler raises only what a runtime operation (or
    the interpreter) raised, right after that operation, and binds nothing
    afterwards. *)
Lemma exec_faithful s : has_handler s = false -> faithfulS (exec s).
Proof.
  induction s as
    [ m a | l | t v | v | t iter body IHbody | f params body IHbody | v
    | body IHbody handler IHhandler ]; simpl; intros Hh.
  - intros g w. apply faithful_lift; [apply faithfulM_call|].
    intros. apply faithful_bind_name.
  - intros g w. apply faithful_lift; [apply faithfulM_call|].
    intros. apply faithful_ok.
  - intros g w. apply faithful_lift; [apply eval_faithful|].
    apply assign_faithful.
  - intros g w. apply faithful_lift; [apply eval_faithful|].
    intros. apply faithful_ok.
  - intros g w. apply faithful_lift.
    + apply faithfulM_bind; [apply eval_faithful|]. intros.
      apply faithfulM_call.
    + intros it. apply loop_faithful. intros x.
      apply faithful_seq; [apply assign_faithful|].
      apply block_faithful. now apply handler_free_body.
  - intros g w. apply faithful_lift; [|intros; apply faithful_bind_name].
    apply faithfulM_mapM. apply List.Forall_forall. intros p _.
    apply faithfulM_optM. intros. apply eval_faithful.
  - apply faithful_fail. now right.
  - discriminate.
Qed.

Lemma exec_cell_faithful ss :
  existsb has_handler ss = false -> faithfulS (exec_cell ss).
Proof.
  induction ss as [|s ss IH]; intros Hh.
  - apply faithful_ok.
  - simpl in Hh. apply orb_false_iff in Hh. destruct Hh as [Hs Hss].
    assert (Hseq : faithfulS (seq (exec s) (exec_cell ss)))
      by (apply faithful_seq; [now apply exec_faithful|now apply IH]).
    destruct s; try exact Hseq.
    destruct ss; [|exact Hseq].
    intros g w. simpl. apply faithful_lift; [|intros; apply faithful_ok].
    apply faithfulM_bind; [apply eval_faithful|]. intros.
    apply faithfulM_call.
Qed.

(** What faithfulness gives for one failing event. *)
Lemma faithful_propagates o ev x :
  faithful o -> In ev (out_trace o) -> ev_raised ev = Some x ->
  out_raised o = Some x /\ out_globals o = ev_globals ev
  /\ exists tr0, out_trace o = (tr0 ++ [ev])%list /\ Forall quiet tr0.
Proof.
  unfold faithful, faithful_trace. intros Hf Hin Hx.
  assert (Hq : forall tr, Forall quiet tr -> In ev tr -> False).
  { intros tr Htr Hev. rewrite List.Forall_forall in Htr.
    specialize (Htr _ Hev). unfold quiet in Htr. congruence. }
  destruct (out_raised o) as [y|].
  - destruct Hf as [[Hf _]|(tr0 & ev' & Htr & H0 & Hy & Hg)].
    + destruct (Hq _ Hf Hin).
    + rewrite Htr in Hin. apply in_app_or in Hin.
      destruct Hin as [Hin|[->|[]]].
      * destruct (Hq _ H0 Hin).
      * split; [congruence|]. split; [auto|]. now exists tr0.
  - destruct (Hq _ Hf Hin).
Qed.

(** *** Names a statement does not bind keep their value *)

Lemma keeps_ok x : keeps x ok.
Proof. intros g w. reflexivity. Qed.

Lemma keeps_fail x e : keeps x (fail e).
Proof. intros g w. reflexivity. Qed.

Lemma keeps_bind_name x y v : x <> y -> keeps x (bind_name y v).
Proof. intros Hne g w. simpl. now apply lookup_insert_ne. Qed.

Lemma keeps_lift {A} x (m : M A) (k : A -> action) g w :
  (forall a, keeps x (k a)) -> out_globals (lift m k g w) !! x = g !! x.
Proof.
  intros Hk. unfold lift. destruct (m w) as [[w1 t1] [e|a]]; [reflexivity|].
  simpl. apply Hk.
Qed.

Lemma keeps_seq x s1 s2 : keeps x s1 -> keeps x s2 -> keeps x (seq s1 s2).
Proof.
  intros H1 H2 g w. unfold seq.
  destruct (out_raised (s1 g w)); [apply H1|].
  simpl. rewrite H2. apply H1.
Qed.

Lemma keeps_catch x s1 s2 : keeps x s1 -> keeps x s2 -> keeps x (catch s1 s2).
Proof.
  intros H1 H2 g w. unfold catch.
  destruct (out_raised (s1 g w)); [|apply H1].
  simpl. rewrite H2. apply H1.
Qed.

Lemma keeps_block x (ex : stmt -> action) ss :
  Forall (fun s => keeps x (ex s)) ss -> keeps x (block ex ss).
Proof.
  induction 1 as [|s ss Hs _ IH]; simpl; [apply keeps_ok|].
  now apply keeps_seq.
Qed.

Lemma keeps_loop x (body : value -> action) vs :
  (forall v, keeps x (body v)) -> keeps x (loop body vs).
Proof.
  intros H. induction vs as [|v vs IH]; simpl; [apply keeps_ok|].
  now apply keeps_seq.
Qed.

Lemma assign_keeps x t :
  forall v, ~ In x (target_binds t) -> keeps x (assign t v).
Proof.
  induction t as
    [ id | c | o IHo a | f IHf args IHargs kws IHkws | o IHo k IHk
    | lo IHlo hi IHhi | l IHl op r IHr | l IHl op r IHr | es IHes | ts IHts
    | kvs IHkvs | params body IHbody | elt IHelt target iter IHiter ];
    intros v Hx; simpl; try apply keeps_fail.
  - apply keeps_bind_name. simpl in Hx. intros ->. apply Hx. now left.
  - intros g w. apply keeps_lift. intros. apply keeps_ok.
  - intros g w. apply keeps_lift. intros. apply keeps_ok.
  - intros g w. apply keeps_lift. intros u. generalize (elements u).
    simpl in Hx. apply list_all_Forall in IHts.
    induction IHts as [|t ts Ht _ IH]; intros vs.
    + destruct vs; apply keeps_ok.
    + destruct vs as [|y vs]; [apply keeps_ok|].
      simpl in Hx. rewrite in_app_iff in Hx.
      apply keeps_seq; [apply Ht|apply IH]; tauto.
Qed.

Lemma unbound_body (P : stmt -> Prop) x body :
  list_all stmt (fun s => ~ In x (stmt_binds s) -> P s) body ->
  ~ In x (flat_map stmt_binds body) -> Forall P body.
Proof.
  induction 1 as [|s Hs body _ IH]; simpl; intros H; constructor;
    rewrite in_app_iff in H; tauto.
Qed.

(** The binding analysis is sound for the interpreter: a statement leaves
    every name outside [stmt_binds] bound as it was. *)
Lemma exec_keeps x s : ~ In x (stmt_binds s) -> keeps x (exec s).
Proof.
  induction s as
    [ m a | l | t v | v | t iter body IHbody | f params body IHbody | v
    | body IHbody handler IHhandler ]; simpl; intros Hx.
  - intros g w. apply keeps_lift. intros. apply keeps_bind_name.
    destruct a; simpl in Hx; intros ->; apply Hx; now left.
  - intros g w. apply keeps_lift. intros. apply keeps_ok.
  - intros g w. apply keeps_lift. intros. now apply assign_keeps.
  - intros g w. apply keeps_lift. intros. apply keeps_ok.
  - rewrite in_app_iff in Hx. intros g w. apply keeps_lift. intros it.
    apply keeps_loop. intros y.
    apply keeps_seq; [apply assign_keeps; tauto|].
    apply keeps_block. eapply unbound_body; [exact IHbody|tauto].
  - intros g w. apply keeps_lift. intros. apply keeps_bind_name.
    intros ->. apply Hx. now left.
  - apply keeps_fail.
  - rewrite in_app_iff in Hx.
    apply keeps_catch; apply keeps_block; eapply unbound_body; eauto; tauto.
Qed.

Lemma exec_cell_keeps x ss :
  ~ In x (flat_map stmt_binds ss) -> keeps x (exec_cell ss).
Proof.
  induction ss as [|s ss IH]; intros Hx; [apply keeps_ok|].
  simpl in Hx. rewrite in_app_iff in Hx.
  assert (Hseq : keeps x (seq (exec s) (exec_cell ss)))
    by (apply keeps_seq; [apply exec_keeps|apply IH]; tauto).
  destruct s; try exact Hseq.
  destruct ss; [|exact Hseq].
  intros g w. simpl. apply keeps_lift. intros. apply keeps_ok.
Qed.

End Faithful.

(** No cell of either notebook contains a handler. *)
Lemma notebooks_handler_free nb c :
  In nb Src.notebooks -> In c (nb_cells nb) -> handler_free c = true.
Proof.
  intros Hnb Hc.
  assert (H : forallb (fun nb => forallb handler_free (nb_cells nb))
                      Src.notebooks = true) by (vm_compute; reflexivity).
  rewrite forallb_forall in H. specialize (H _ Hnb).
  rewrite forallb_forall in H. now apply H.
Qed.

(** C2.  In every code cell of the two notebooks, over any runtime, any
    namespace and any world: when an operation performed for the cell
    raises [x], the cell ends with [x] raised, that operation is the last
    one performed (nothing is retried, nothing runs after it), every
    operation before it succeeded, and the namespace the cell leaves is
    the namespace in which the operation was performed.  The cell contains
    no handler. *)
Theorem library_failure_propagates {R : Runtime}
        (nb : notebook) (c : cell) (g : namespace) (w : world)
        (ev : event) (x : exn) :
  In nb Src.notebooks -> In c (nb_cells nb) ->
  In ev (out_trace (run_cell c g w)) -> ev_raised ev = Some x ->
  handler_free c = true
  /\ out_raised (run_cell c g w) = Some x
  /\ out_globals (run_cell c g w) = ev_globals ev
  /\ exists before, out_trace (run_cell c g w) = (before ++ [ev])%list
                    /\ Forall quiet before.
Proof.
  intros Hnb Hc Hev Hx.
  pose proof (notebooks_handler_free nb c Hnb Hc) as Hfree.
  split; [exact Hfree|].
  apply faithful_propagates; auto.
  apply exec_cell_faithful.
  unfold handler_free in Hfree. now apply negb_true_iff in Hfree.
Qed.

Import Symbolic.

(** The network is down when line 982 runs: the [ConnectionError] of
    [yf.download] is what the cell raises, and [spy] stays unbound. *)
Lemma library_failure_propagates_witness :
  let o := run_cell (R := symbolic) cell_982 after_imports false in
  out_raised o = Some "ConnectionError"
  /\ out_globals o = after_imports.
Proof.
  destruct (library_failure_propagates (R := symbolic)
              Src.lewinson_01 cell_982 after_imports false
              (Event (R := symbolic) after_imports (OpCall ["tickers"; "session"])
                     ["yf.download"; "'SPY'"; "session"]
                     (Some "ConnectionError"))
              "ConnectionError")
    as (_ & Hraised & Hglobals & _).
  - right. left. reflexivity.
  - do 4 right. left. reflexivity.
  - vm_compute. right. left. reflexivity.
  - reflexivity.
  - split; [exact Hraised|exact Hglobals].
Defined.

(** With a handler around the same statement the exception is gone and
    [spy] is bound by the handler: the property above is one of code
    without handlers. *)
Example handler_swallows :
  let o := run_cell (R := symbolic) guarded_982 after_imports false in
  out_raised o = None
  /\ out_globals o !! "spy" = Some "'no data'"
  /\ Exists (fun ev => ev_raised ev = Some "ConnectionError") (out_trace o).
Proof.
  vm_compute. split; [reflexivity|]. split; [reflexivity|].
  right. left. reflexivity.
Qed.

End ExecFacts.

(** ** The order of the steps, the life of the tables, the session *)

Module FlowFacts.
Import Py Static Flow.

Lemma mem_In x l : mem x l = true <-> In x l.
Proof.
  unfold mem. rewrite existsb_exists. split.
  - intros (y & Hy & Heq). apply String.eqb_eq in Heq. now subst.
  - intros H. exists x. split; [assumption|apply String.eqb_refl].
Qed.

Lemma implb_mem_In x l1 l2 :
  implb (mem x l1) (mem x l2) = true -> In x l1 -> In x l2.
Proof.
  intros H H1. apply mem_In in H1. rewrite H1 in H. now apply mem_In.
Qed.

Lemma forall_split_sound {A} (P : list A -> A -> list A -> bool) l :
  forall pre0, forall_split P pre0 l = true ->
  forall pre s post, l = (pre ++ s :: post)%list ->
                     P (pre0 ++ pre)%list s post = true.
Proof.
  induction l as [|a l IH]; intros pre0 H pre s post E.
  - now destruct pre.
  - simpl in H. apply andb_true_iff in H. destruct H as [Ha Hl].
    destruct pre as [|b pre]; simpl in E; injection E as -> ->.
    + now rewrite app_nil_r.
    + specialize (IH _ Hl pre s post eq_refl).
      now rewrite <- app_assoc in IH.
Qed.

Lemma in_orderb_sound pre s post :
  in_orderb pre s post = true -> in_order pre s post.
Proof.
  unfold in_orderb, in_order. intros H.
  apply andb_true_iff in H. destruct H as [H H3].
  apply andb_true_iff in H. destruct H as [H1 H2].
  split; [|split].
  - intros Ha t Ht. rewrite Ha in H1. simpl in H1.
    rewrite forallb_forall in H1. apply implb_mem_In. now apply H1.
  - intros Hd y Hy. rewrite Hd in H2. simpl in H2.
    rewrite forallb_forall in H2. apply implb_mem_In. now apply H2.
  - intros Ha. rewrite Ha in H3. simpl in H3.
    apply orb_true_iff in H3. destruct H3 as [H3|H3]; [now left|right].
    apply existsb_exists in H3. destruct H3 as (d & Hd & H3).
    apply andb_true_iff in H3. destruct H3 as [Hdd H3].
    apply existsb_exists in H3. destruct H3 as (y & Hy & H3).
    exists d, y. repeat split; auto. now apply mem_In.
Qed.

(** C6.  In both notebooks every step keeps the three-step order: an
    aggregation reads only tables bound by an earlier step; a display of a
    name that holds an aggregate comes after the aggregation that bound
    it; and every aggregation is displayed, by its own step or by a later
    step reading the name it was bound to. *)
Theorem three_step_order (nb : notebook) (pre : list step) (s : step)
        (post : list step) :
  In nb Src.notebooks ->
  steps nb = (pre ++ s :: post)%list ->
  in_order pre s post.
Proof.
  intros Hnb E.
  assert (H : forallb (fun nb => forall_split in_orderb [] (steps nb))
                      Src.notebooks = true) by (vm_compute; reflexivity).
  rewrite forallb_forall in H. specialize (H _ Hnb).
  apply in_orderb_sound.
  exact (forall_split_sound in_orderb _ [] H pre s post E).
Qed.

(** Line 1118: [spy_m] is aggregated after [spy] was fetched (line 982),
    and plotted after (line 1143). *)
Lemma three_step_order_witness :
  in_order (firstn 25 (steps Src.lewinson_01))
           (Step 1118 false (Assign (Name "spy_m") Src.spy_m_pipeline))
           (skipn 26 (steps Src.lewinson_01)).
Proof.
  apply (three_step_order Src.lewinson_01).
  - right. left. reflexivity.
  - reflexivity.
Defined.

(** The claim C3 as stated fails: in the first notebook [df], bound by
    the cell at line 101, is read by the cell at line 121; in the second,
    [spy], bound at line 982, gets a new column at line 991. *)
Lemma tables_outlive_their_cell :
  ~ ephemeral Src.mckinney_10 /\ ~ ephemeral Src.lewinson_01.
Proof.
  split; intros H.
  - destruct (H 3%nat 4%nat _ _ "df" eq_refl eq_refl) as [Hread _].
    + lia.
    + simpl. tauto.
    + simpl. tauto.
    + apply Hread. simpl. tauto.
  - destruct (H 4%nat 5%nat _ _ "spy" eq_refl eq_refl) as [_ Hchange].
    + lia.
    + simpl. tauto.
    + simpl. tauto.
    + apply Hchange. simpl. tauto.
Qed.

(** C3, amended.  The tables live in the kernel's memory and nowhere
    else: no cell writes one to storage, and a table a cell takes over was
    bound by an earlier cell of the same notebook.  They outlive their
    cell: [df], [means], [people], [hier_df] and [ind] (first notebook),
    [spy] and [spy_m] (second) are read by later cells, and [spy] is
    changed in place by later cells. *)
Theorem tables_live_in_the_session :
  (forall nb c, In nb Src.notebooks -> In c (nb_cells nb) ->
                persists c = false)
  /\ (forall nb pre c post t,
        In nb Src.notebooks -> nb_cells nb = (pre ++ c :: post)%list ->
        In t tables -> In t (cell_inputs c ++ cell_changes c) ->
        In t (flat_map cell_binds pre))
  /\ map read_later Src.notebooks
     = [["df"; "means"; "people"; "hier_df"; "ind"]; ["spy"; "spy_m"]]
  /\ map changed_later Src.notebooks = [[]; ["spy"]].
Proof.
  split; [|split; [|split; vm_compute; reflexivity]].
  - intros nb c Hnb Hc.
    assert (H : forallb (fun nb => forallb (fun c => negb (persists c))
                                           (nb_cells nb))
                        Src.notebooks = true) by (vm_compute; reflexivity).
    rewrite forallb_forall in H. specialize (H _ Hnb).
    rewrite forallb_forall in H. specialize (H _ Hc).
    now apply negb_true_iff in H.
  - intros nb pre c post t Hnb E Ht Hin.
    assert (H : forallb (fun nb => forall_split
                                     (fun pre c _ => bound_before_use pre c)
                                     [] (nb_cells nb))
                        Src.notebooks = true) by (vm_compute; reflexivity).
    rewrite forallb_forall in H. specialize (H _ Hnb).
    pose proof (forall_split_sound _ _ [] H pre c post E) as Hc.
    simpl in Hc. unfold bound_before_use in Hc.
    rewrite forallb_forall in Hc. specialize (Hc _ Hin).
    now apply (implb_mem_In _ _ _ Hc).
Qed.

(** The cell at line 991 takes [spy] over from the cell at line 982. *)
Lemma tables_live_in_the_session_witness :
  persists (Cell 991 [ Assign (item (Name "spy") "Return")
                         (method (item (Name "spy") "Adj Close")
                                 "pct_change" [] []) ]) = false
  /\ In "spy" (flat_map cell_binds (firstn 5 (nb_cells Src.lewinson_01))).
Proof.
  destruct tables_live_in_the_session as (Hp & Hb & _ & _). split.
  - apply (Hp Src.lewinson_01).
    + right. left. reflexivity.
    + do 5 right. left. reflexivity.
  - apply (Hb Src.lewinson_01 _
              (Cell 991 [ Assign (item (Name "spy") "Return")
                            (method (item (Name "spy") "Adj Close")
                                    "pct_change" [] []) ])
              (skipn 6 (nb_cells Src.lewinson_01))).
    + right. left. reflexivity.
    + reflexivity.
    + simpl. tauto.
    + simpl. tauto.
Defined.

(** C4.  In each notebook the name [session] occurs as follows, in this
    order: it is bound once, to
    [requests_cache.CachedSession(expire_after='1D')]; after that it is
    only passed as the keyword argument [session] of [yf.download].  It
    is never rebound, indexed, read for an attribute or changed in place.
    And when the cells run, over any runtime: one cell holds the binding
    statement, and every other cell leaves [session] bound to what it was
    bound to. *)
Theorem session_expiration_fixed {R : Exec.Runtime} (nb : notebook) :
  In nb Src.notebooks ->
  (exists n,
     roles "session" nb
     = Bound (Call (Attribute (Name "requests_cache") "CachedSession") []
                   [("expire_after", Constant (CStr "1D"))])
         :: repeat (Keyword (Attribute (Name "yf") "download") "session") n)
  /\ (exists before c after,
        nb_cells nb = (before ++ c :: after)%list
        /\ In (Assign (Name "session") Src.new_session) (cell_source c)
        /\ forall c' g w,
             In c' (before ++ after) ->
             Exec.out_globals (Exec.run_cell c' g w) !! "session"
             = g !! "session").
Proof.
  assert (Hkeep : forall cs,
            forallb (fun c => negb (mem "session" (cell_binds c))) cs = true ->
            forall c' g w,
              In c' cs ->
              Exec.out_globals (Exec.run_cell c' g w) !! "session"
              = g !! "session").
  { intros cs H c' g w Hc'. rewrite forallb_forall in H.
    specialize (H _ Hc'). apply negb_true_iff in H.
    apply ExecFacts.exec_cell_keeps. intros Hin.
    apply mem_In in Hin. unfold cell_binds in H. congruence. }
  intros [<-|[<-|[]]]; split.
  - exists 2%nat. reflexivity.
  - exists (firstn 2 (nb_cells Src.mckinney_10)),
           (nth 2 (nb_cells Src.mckinney_10) (Cell 0 [])),
           (skipn 3 (nb_cells Src.mckinney_10)).
    split; [reflexivity|]. split; [simpl; tauto|].
    intros c' g w. apply Hkeep. vm_compute. reflexivity.
  - exists 1%nat. reflexivity.
  - exists (firstn 2 (nb_cells Src.lewinson_01)),
           (nth 2 (nb_cells Src.lewinson_01) (Cell 0 [])),
           (skipn 3 (nb_cells Src.lewinson_01)).
    split; [reflexivity|]. split; [simpl; tauto|].
    intros c' g w. apply Hkeep. vm_compute. reflexivity.
Qed.

Lemma session_expiration_fixed_witness :
  exists n,
    roles "session" Src.lewinson_01
    = Bound Src.new_session
        :: repeat (Keyword (Attribute (Name "yf") "download") "session") n.
Proof.
  destruct (session_expiration_fixed (R := Symbolic.symbolic) Src.lewinson_01)
    as [Hroles _].
  - right. left. reflexivity.
  - exact Hroles.
Defined.

End FlowFacts.

(** ** Subtraction in float64 and in int64 *)

Module ArithmeticFacts.
Import Pandas NumPy Sample.

#[local] Open Scope Q_scope.

Lemma two_power_pos e : 0 < 2 ^ e.
Proof. apply Qpower_0_lt. reflexivity. Qed.

Lemma rhe_nonneg N D : (0 <= N)%Z -> (0 < D)%Z -> (0 <= round_half_even N D)%Z.
Proof.
  intros HN HD. unfold round_half_even.
  assert (0 <= N / D)%Z by (apply Z.div_pos; lia).
  destruct (2 * (N mod D) ?= D)%Z; [destruct (Z.even (N / D))|..]; lia.
Qed.

Lemma rhe_pos N D : (0 < D)%Z -> (D <= N)%Z -> (1 <= round_half_even N D)%Z.
Proof.
  intros HD HN. unfold round_half_even.
  assert (1 <= N / D)%Z.
  { apply Z.div_le_lower_bound; lia. }
  destruct (2 * (N mod D) ?= D)%Z; [destruct (Z.even (N / D))|..]; lia.
Qed.

Lemma reaches_iff n d e K :
  (0 < n)%Z -> (0 < d)%Z -> (0 <= K)%Z -> (0 <= K + e)%Z ->
  reaches n d e = true <-> (d * 2 ^ (K + e) <= n * 2 ^ K)%Z.
Proof.
  intros Hn Hd HK HKe. unfold reaches. rewrite Z.leb_le.
  destruct (Z.le_gt_cases 0 e) as [He|He].
  - rewrite (Z.max_r 0 e), (Z.max_l 0 (- e)) by lia.
    rewrite Z.pow_0_r, Z.pow_add_r by lia.
    assert (0 < 2 ^ K)%Z by (apply Z.pow_pos_nonneg; lia).
    assert (0 < 2 ^ e)%Z by (apply Z.pow_pos_nonneg; lia).
    nia.
  - rewrite (Z.max_l 0 e), (Z.max_r 0 (- e)) by lia.
    rewrite Z.pow_0_r.
    replace K with ((K + e) + - e)%Z at 2 by lia.
    rewrite (Z.pow_add_r 2 (K + e) (- e)) by lia.
    assert (0 < 2 ^ (K + e))%Z by (apply Z.pow_pos_nonneg; lia).
    assert (0 < 2 ^ (- e))%Z by (apply Z.pow_pos_nonneg; lia).
    nia.
Qed.

Lemma reaches_mono n d e e' :
  (0 < n)%Z -> (0 < d)%Z -> (e' <= e)%Z ->
  reaches n d e = true -> reaches n d e' = true.
Proof.
  intros Hn Hd He H.
  set (K := (Z.abs e + Z.abs e')%Z).
  apply (reaches_iff n d e K) in H; try lia.
  apply (reaches_iff n d e' K); try lia.
  etransitivity; [|exact H].
  apply Z.mul_le_mono_nonneg_l; [lia|].
  apply Z.pow_le_mono_r; lia.
Qed.

Lemma exponent_reaches n d :
  (0 < n)%Z -> (0 < d)%Z -> reaches n d (exponent n d) = true.
Proof.
  intros Hn Hd. unfold exponent.
  destruct (reaches n d (Z.log2 n - Z.log2 d)) eqn:E; [exact E|].
  pose proof (Z.log2_nonneg n). pose proof (Z.log2_nonneg d).
  apply (reaches_iff n d _ (Z.log2 d + 1)); try lia.
  replace (Z.log2 d + 1 + (Z.log2 n - Z.log2 d - 1))%Z with (Z.log2 n) by lia.
  destruct (Z.log2_spec n Hn) as [Hn1 _].
  destruct (Z.log2_spec d Hd) as [_ Hd2].
  replace (Z.succ (Z.log2 d)) with (Z.log2 d + 1)%Z in Hd2 by lia.
  nia.
Qed.

Lemma reaches_Q (n d : positive) e :
  reaches (Zpos n) (Zpos d) e = true <-> 2 ^ e <= Zpos n # d.
Proof.
  unfold reaches. rewrite Z.leb_le.
  destruct (Z.le_gt_cases 0 e) as [He|He].
  - rewrite (Z.max_r 0 e), (Z.max_l 0 (- e)) by lia. rewrite Z.pow_0_r.
    change 2 with (inject_Z 2). rewrite <- Zpower_Qpower by assumption.
    unfold Qle, inject_Z. simpl Qnum. simpl Qden. lia.
  - rewrite (Z.max_l 0 e), (Z.max_r 0 (- e)) by lia. rewrite Z.pow_0_r.
    replace e with (- - e)%Z at 2 by lia. rewrite Qpower_opp.
    change 2 with (inject_Z 2). rewrite <- Zpower_Qpower by lia.
    assert (Hp : (0 < 2 ^ (- e))%Z) by (apply Z.pow_pos_nonneg; lia).
    destruct (2 ^ (- e))%Z as [|p|p] eqn:Ep; try lia.
    unfold Qle, Qinv, inject_Z. simpl Qnum. simpl Qden. lia.
Qed.

Lemma round64_pos_cases n d :
  (0 < n)%Z -> (0 < d)%Z ->
  let e := Z.max (exponent n d - 52) (-1074) in
  round64_pos n d = Infinity false
  \/ exists m, (0 <= m)%Z
               /\ round64_pos n d = Entry (Num (inject_Z m * 2 ^ e))
               /\ (reaches n d e = true -> (1 <= m)%Z).
Proof.
  intros Hn Hd e. unfold round64_pos. fold e.
  set (N := (n * 2 ^ Z.max 0 (- e))%Z). set (D := (d * 2 ^ Z.max 0 e)%Z).
  assert (HD : (0 < D)%Z).
  { unfold D. apply Z.mul_pos_pos; [lia|]. apply Z.pow_pos_nonneg; lia. }
  assert (HN : (0 <= N)%Z).
  { unfold N. apply Z.mul_nonneg_nonneg; [lia|]. apply Z.pow_nonneg; lia. }
  destruct (_ && _); [now left|right].
  exists (round_half_even N D). repeat split.
  - now apply rhe_nonneg.
  - intros H. apply rhe_pos; [assumption|].
    unfold reaches in H. apply Z.leb_le in H. exact H.
Qed.

Lemma round64_nonneg q : 0 <= q -> nonneg (round64 q).
Proof.
  intros Hq. unfold round64. destruct q as [n d]. simpl Qnum. simpl Qden.
  destruct n as [|n|n].
  - simpl. lra.
  - destruct (round64_pos_cases (Zpos n) (Zpos d)) as [->|(m & Hm & -> & _)];
      try lia; simpl; [exact I|].
    apply Qmult_le_0_compat; [|apply Qlt_le_weak, two_power_pos].
    change 0 with (inject_Z 0). now rewrite <- Zle_Qle.
  - exfalso. unfold Qle in Hq. simpl in Hq. lia.
Qed.

Lemma scaled_on_grid m e : (-1074 <= e)%Z -> on_grid (inject_Z m * 2 ^ e).
Proof.
  intros He. exists (m * 2 ^ (e + 1074))%Z.
  rewrite inject_Z_mult, Zpower_Qpower by lia.
  change (inject_Z 2) with 2. rewrite <- Qmult_assoc.
  rewrite <- Qpower_plus by discriminate.
  replace (e + 1074 + -1074)%Z with e by lia. reflexivity.
Qed.

Lemma round64_grid q r : round64 q = Entry (Num r) -> on_grid r.
Proof.
  unfold round64. destruct q as [n d]. simpl Qnum. simpl Qden.
  destruct n as [|n|n].
  - intros [= <-]. exists 0%Z. simpl. reflexivity.
  - destruct (round64_pos_cases (Zpos n) (Zpos d))
      as [->|(m & _ & -> & _)]; try lia; [discriminate|].
    intros [= <-]. apply scaled_on_grid. lia.
  - destruct (round64_pos_cases (Zpos n) (Zpos d))
      as [->|(m & _ & -> & _)]; try lia; [discriminate|].
    simpl. intros [= <-].
    destruct (scaled_on_grid m (Z.max (exponent (Zpos n) (Zpos d) - 52) (-1074)))
      as (k & Hk); [lia|].
    exists (- k)%Z. rewrite Hk, inject_Z_opp. ring.
Qed.

Lemma float64_on_grid q : is_float64 q = true -> on_grid q.
Proof.
  unfold is_float64. destruct (round64 q) as [[r| |]|] eqn:E; try discriminate.
  intros H. apply Qeq_bool_iff in H. destruct (round64_grid _ _ E) as (k & Hk).
  exists k. now rewrite <- H.
Qed.

Lemma on_grid_minus a b : on_grid a -> on_grid b -> on_grid (a - b).
Proof.
  intros (ka & Ha) (kb & Hb). exists (ka - kb)%Z.
  unfold Z.sub. rewrite inject_Z_plus, inject_Z_opp, Ha, Hb. ring.
Qed.

(** A positive number of the grid does not round to zero. *)
Lemma round64_positive q : 0 < q -> on_grid q -> is_positive (round64 q).
Proof.
  intros Hq (k & Hk). unfold round64. destruct q as [n d].
  simpl Qnum. simpl Qden. destruct n as [|n|n].
  - exfalso. unfold Qlt in Hq. simpl in Hq. lia.
  - pose proof (two_power_pos (-1074)) as Hp.
    assert (Hg : reaches (Zpos n) (Zpos d) (-1074) = true).
    { apply reaches_Q. rewrite Hk.
      assert (Hk1 : (1 <= k)%Z).
      { destruct (Z.le_gt_cases 1 k) as [|Hk0]; [assumption|exfalso].
        rewrite Hk in Hq.
        assert (inject_Z k <= 0)
          by (change 0 with (inject_Z 0); rewrite <- Zle_Qle; lia).
        nra. }
      assert (1 <= inject_Z k)
        by (change 1 with (inject_Z 1); rewrite <- Zle_Qle; lia).
      nra. }
    destruct (round64_pos_cases (Zpos n) (Zpos d))
      as [->|(m & Hm & -> & Hone)]; try lia; [exact I|].
    simpl. apply Qmult_lt_0_compat; [|apply two_power_pos].
    change 0 with (inject_Z 0). rewrite <- Zlt_Qlt.
    assert (1 <= m)%Z; [|lia]. apply Hone.
    destruct (Z.max_spec (exponent (Zpos n) (Zpos d) - 52) (-1074))
      as [[_ ->]|[_ ->]]; [exact Hg|].
    eapply reaches_mono; [lia|lia| |apply exponent_reaches; lia]. lia.
  - exfalso. unfold Qlt in Hq. simpl in Hq. lia.
Qed.

Lemma round64_zero q : q == 0 -> round64 q = Entry (Num 0).
Proof.
  intros H. unfold round64. destruct q as [n d]. unfold Qeq in H.
  simpl in *. now replace n with 0%Z by lia.
Qed.

(** The float64 difference of two floats [b <= a]: not negative, and zero
    exactly when they are equal. *)
Lemma float64_difference a b :
  is_float64 a = true -> is_float64 b = true -> b <= a ->
  nonneg (round64 (a - b)) /\ (is_zero (round64 (a - b)) <-> a == b).
Proof.
  intros Ha Hb Hle. split; [apply round64_nonneg; lra|]. split.
  - intros Hz. destruct (Qeq_dec a b) as [|Hne]; [assumption|exfalso].
    assert (Hpos : 0 < a - b).
    { destruct (Qlt_le_dec b a) as [|Hge]; [lra|]. exfalso. apply Hne. lra. }
    pose proof (round64_positive _ Hpos
                  (on_grid_minus _ _ (float64_on_grid _ Ha)
                                 (float64_on_grid _ Hb))) as Hp.
    destruct (round64 (a - b)) as [[r| |]|[|]]; simpl in *; try tauto. lra.
  - intros Heq. rewrite round64_zero by lra. simpl. reflexivity.
Qed.

Lemma wrap64_small d : (0 <= d < 2 ^ 63)%Z -> wrap64 d = d.
Proof.
  unfold wrap64. change (2 ^ 63)%Z with 9223372036854775808%Z.
  change (2 ^ 64)%Z with 18446744073709551616%Z. intros H.
  rewrite Z.mod_small; lia.
Qed.

Lemma wrap64_large d :
  (2 ^ 63 <= d < 2 ^ 64)%Z -> wrap64 d = (d - 2 ^ 64)%Z.
Proof.
  unfold wrap64. change (2 ^ 63)%Z with 9223372036854775808%Z.
  change (2 ^ 64)%Z with 18446744073709551616%Z. intros H.
  replace (d + 9223372036854775808)%Z
    with (d - 9223372036854775808 + 1 * 18446744073709551616)%Z by lia.
  rewrite Z.mod_add by lia. rewrite Z.mod_small; lia.
Qed.

Lemma int64_integer q :
  is_int64 q = true ->
  q == inject_Z (Qfloor q) /\ (- 2 ^ 63 <= Qfloor q < 2 ^ 63)%Z.
Proof.
  unfold is_int64. intros H.
  apply andb_true_iff in H. destruct H as [H H3].
  apply andb_true_iff in H. destruct H as [H1 H2].
  apply Qeq_bool_iff in H1. apply Z.leb_le in H2. apply Z.ltb_lt in H3.
  now repeat split.
Qed.

End ArithmeticFacts.

(** ** [peak_to_peak]: the range of the non-missing numbers *)

Module RangeFacts.
Import Pandas Sample.

Lemma Qmax_cases (a b : Q) : Qmax a b = a \/ Qmax a b = b.
Proof.
  unfold Qmax, GenericMinMax.gmax. destruct (a ?= b)%Q; auto.
Qed.

Lemma Qmin_cases (a b : Q) : Qmin a b = a \/ Qmin a b = b.
Proof.
  unfold Qmin, GenericMinMax.gmin. destruct (a ?= b)%Q; auto.
Qed.

Lemma no_text_inv v vs :
  no_text (v :: vs) -> is_text v = false /\ no_text vs.
Proof. intros H. inversion H; subst. now split. Qed.

(** [max] returns the greatest non-missing number, NaN when all entries
    are missing. *)
Lemma max_greatest vs :
  no_text vs ->
  match numbers vs with
  | [] => reduce greater vs = Ok NaN
  | _ :: _ =>
      exists hi, reduce greater vs = Ok (Num hi) /\ In hi (numbers vs)
                 /\ forall q, In q (numbers vs) -> (q <= hi)%Q
  end.
Proof.
  induction vs as [|v vs IH]; intros Hnt; [reflexivity|].
  apply no_text_inv in Hnt. destruct Hnt as [Hv Hnt].
  specialize (IH Hnt). destruct v as [q| |]; [|discriminate|exact IH].
  change (numbers (Num q :: vs)) with (q :: numbers vs).
  cbn -[numbers]. destruct (numbers vs) as [|q0 qs].
  - rewrite IH. cbn. exists q. repeat split; [now left|].
    intros ? [<-|[]]. apply Qle_refl.
  - destruct IH as (hi & -> & Hin & Hub). cbn.
    exists (Qmax q hi). repeat split.
    + destruct (Qmax_cases q hi) as [->| ->]; [now left|now right].
    + intros p [<-|Hp]; [apply Q.le_max_l|].
      eapply Qle_trans; [now apply Hub|apply Q.le_max_r].
Qed.

Lemma min_least vs :
  no_text vs ->
  match numbers vs with
  | [] => reduce smaller vs = Ok NaN
  | _ :: _ =>
      exists lo, reduce smaller vs = Ok (Num lo) /\ In lo (numbers vs)
                 /\ forall q, In q (numbers vs) -> (lo <= q)%Q
  end.
Proof.
  induction vs as [|v vs IH]; intros Hnt; [reflexivity|].
  apply no_text_inv in Hnt. destruct Hnt as [Hv Hnt].
  specialize (IH Hnt). destruct v as [q| |]; [|discriminate|exact IH].
  change (numbers (Num q :: vs)) with (q :: numbers vs).
  cbn -[numbers]. destruct (numbers vs) as [|q0 qs].
  - rewrite IH. cbn. exists q. repeat split; [now left|].
    intros ? [<-|[]]. apply Qle_refl.
  - destruct IH as (lo & -> & Hin & Hlb). cbn.
    exists (Qmin q lo). repeat split.
    + destruct (Qmin_cases q lo) as [->| ->]; [now left|now right].
    + intros p [<-|Hp]; [apply Q.le_min_l|].
      eapply Qle_trans; [apply Q.le_min_r|now apply Hlb].
Qed.

(** Without missing values the numbers are all the entries. *)
Lemma numbers_all vs :
  Forall (fun v => exists q, v = Num q) vs -> map Num (numbers vs) = vs.
Proof.
  induction 1 as [|v vs [q ->] _ IH]; [reflexivity|].
  change (numbers (Num q :: vs)) with (q :: numbers vs).
  simpl map. now rewrite IH.
Qed.

Lemma all_numbers_no_text vs :
  Forall (fun v => exists q, v = Num q) vs -> no_text vs.
Proof.
  intros H. eapply List.Forall_impl; [|exact H]. now intros v [q ->].
Qed.

(** C8, amended.  On an array of numbers and missing values, [max] and
    [min] skip the missing values; when every entry is missing
    [peak_to_peak] returns NaN; otherwise it returns the greatest number
    minus the least in the arithmetic of the array's dtype.  On a float64
    array that is the exact difference rounded to the nearest float64
    (plus infinity when it overflows): it is not negative, and it is zero
    exactly when all the numbers are equal.  On an int64 array the
    difference wraps around modulo [2 ^ 64]: it is the exact difference,
    hence not negative, when that is below [2 ^ 63], it is negative
    otherwise, and it is zero exactly when all the numbers are equal.  On
    a non-empty float64 array without missing values this is C8 as
    stated. *)
Theorem peak_to_peak_range (arr : Series) :
  no_text (s_values arr) ->
  (forall A : Arithmetic,
     match numbers (s_values arr) with
     | [] => User.peak_to_peak arr = Ok (Entry NaN)
     | _ :: _ =>
         exists hi lo,
           max arr = Ok (Num hi) /\ min arr = Ok (Num lo)
           /\ In hi (numbers (s_values arr))
           /\ In lo (numbers (s_values arr))
           /\ (forall q, In q (numbers (s_values arr)) -> (lo <= q <= hi)%Q)
           /\ User.peak_to_peak arr = Ok (minus hi lo)
           /\ ((hi == lo)%Q <->
               forall a b, In a (numbers (s_values arr)) ->
                           In b (numbers (s_values arr)) -> (a == b)%Q)
     end)
  /\ (forallb NumPy.is_float64 (numbers (s_values arr)) = true ->
      numbers (s_values arr) <> [] ->
      exists hi lo d,
        max arr = Ok (Num hi) /\ min arr = Ok (Num lo)
        /\ User.peak_to_peak (H := NumPy.float64_arithmetic) arr = Ok d
        /\ d = NumPy.round64 (hi - lo)
        /\ nonneg d
        /\ (is_zero d <->
            forall a b, In a (numbers (s_values arr)) ->
                        In b (numbers (s_values arr)) -> (a == b)%Q))
  /\ (forallb NumPy.is_int64 (numbers (s_values arr)) = true ->
      numbers (s_values arr) <> [] ->
      exists hi lo range d,
        max arr = Ok (Num hi) /\ min arr = Ok (Num lo)
        /\ (inject_Z range == hi - lo)%Q
        /\ User.peak_to_peak (H := NumPy.int64_arithmetic) arr
           = Ok (Entry (Num (inject_Z d)))
        /\ d = NumPy.wrap64 range
        /\ ((range < 2 ^ 63)%Z -> d = range /\ (0 <= d)%Z)
        /\ ((2 ^ 63 <= range)%Z -> d = (range - 2 ^ 64)%Z /\ (d < 0)%Z)
        /\ (d = 0%Z <->
            forall a b, In a (numbers (s_values arr)) ->
                        In b (numbers (s_values arr)) -> (a == b)%Q))
  /\ (Forall (fun v => exists q, v = Num q /\ NumPy.is_float64 q = true)
             (s_values arr) ->
      s_values arr <> [] ->
      peak_to_peak_stated (H := NumPy.float64_arithmetic) arr).
Proof.
  intros Hnt.
  assert (Hmain : forall A : Arithmetic,
    match numbers (s_values arr) with
    | [] => User.peak_to_peak arr = Ok (Entry NaN)
    | _ :: _ =>
        exists hi lo,
          max arr = Ok (Num hi) /\ min arr = Ok (Num lo)
          /\ In hi (numbers (s_values arr)) /\ In lo (numbers (s_values arr))
          /\ (forall q, In q (numbers (s_values arr)) -> (lo <= q <= hi)%Q)
          /\ User.peak_to_peak arr = Ok (minus hi lo)
          /\ ((hi == lo)%Q <->
              forall a b, In a (numbers (s_values arr)) ->
                          In b (numbers (s_values arr)) -> (a == b)%Q)
    end).
  { intros A. pose proof (max_greatest _ Hnt) as Hmax.
    pose proof (min_least _ Hnt) as Hmin.
    unfold User.peak_to_peak, max, min.
    destruct (numbers (s_values arr)) as [|q0 qs].
    - rewrite Hmax, Hmin. reflexivity.
    - destruct Hmax as (hi & -> & Hhi & Hub).
      destruct Hmin as (lo & -> & Hlo & Hlb).
      exists hi, lo. repeat split; auto.
      intros Hz a b Ha Hb.
      pose proof (Hub _ Ha). pose proof (Hlb _ Ha).
      pose proof (Hub _ Hb). pose proof (Hlb _ Hb). lra. }
  split; [exact Hmain|].
  assert (Hfloat :
    forallb NumPy.is_float64 (numbers (s_values arr)) = true ->
    numbers (s_values arr) <> [] ->
    exists hi lo d,
      max arr = Ok (Num hi) /\ min arr = Ok (Num lo)
      /\ User.peak_to_peak (H := NumPy.float64_arithmetic) arr = Ok d
      /\ d = NumPy.round64 (hi - lo)
      /\ nonneg d
      /\ (is_zero d <->
          forall a b, In a (numbers (s_values arr)) ->
                      In b (numbers (s_values arr)) -> (a == b)%Q)).
  { intros Hf Hne. specialize (Hmain NumPy.float64_arithmetic).
    rewrite forallb_forall in Hf.
    destruct (numbers (s_values arr)) as [|q0 qs]; [congruence|].
    destruct Hmain as (hi & lo & Hmax & Hmin & Hhi & Hlo & Hb & Hp & Hz).
    destruct (ArithmeticFacts.float64_difference hi lo (Hf _ Hhi) (Hf _ Hlo))
      as [Hn Hzero]; [apply (Hb hi Hhi)|].
    exists hi, lo, (NumPy.round64 (hi - lo)). repeat split; auto.
    - intros H. apply Hz. now apply Hzero.
    - intros H. apply Hzero. now apply Hz. }
  split; [exact Hfloat|]. split.
  - intros Hi Hne. specialize (Hmain NumPy.int64_arithmetic).
    rewrite forallb_forall in Hi.
    destruct (numbers (s_values arr)) as [|q0 qs]; [congruence|].
    destruct Hmain as (hi & lo & Hmax & Hmin & Hhi & Hlo & Hb & Hp & Hz).
    destruct (ArithmeticFacts.int64_integer hi (Hi _ Hhi)) as [Ehi Rhi].
    destruct (ArithmeticFacts.int64_integer lo (Hi _ Hlo)) as [Elo Rlo].
    assert (Hle : (Qfloor lo <= Qfloor hi)%Z).
    { apply Qfloor_resp_le. apply (Hb hi Hhi). }
    assert (E64 : (2 ^ 64 = 2 ^ 63 + 2 ^ 63)%Z) by reflexivity.
    set (range := (Qfloor hi - Qfloor lo)%Z) in *.
    assert (Hrange : (0 <= range < 2 ^ 64)%Z) by (unfold range; lia).
    exists hi, lo, range, (NumPy.wrap64 range).
    split; [exact Hmax|]. split; [exact Hmin|]. split.
    { unfold range, Z.sub. rewrite inject_Z_plus, inject_Z_opp.
      rewrite <- Ehi, <- Elo. ring. }
    split; [exact Hp|]. split; [reflexivity|]. split; [|split].
    + intros Hs. rewrite ArithmeticFacts.wrap64_small by lia. lia.
    + intros Hl. rewrite ArithmeticFacts.wrap64_large by lia. lia.
    + assert (Hd : NumPy.wrap64 range = 0%Z <-> range = 0%Z).
      { destruct (Z.lt_ge_cases range (2 ^ 63)).
        - rewrite ArithmeticFacts.wrap64_small by lia. tauto.
        - rewrite ArithmeticFacts.wrap64_large by lia. lia. }
      rewrite Hd, <- Hz. unfold range. split.
      * intros H0. rewrite Ehi, Elo. apply inject_Z_injective. lia.
      * intros Heq. rewrite Ehi, Elo in Heq.
        rewrite inject_Z_injective in Heq. lia.
  - intros Hall Hne Hnt' _.
    assert (Hnum : map Num (numbers (s_values arr)) = s_values arr).
    { apply numbers_all. eapply List.Forall_impl; [|exact Hall].
      intros v (q & -> & _). now exists q. }
    destruct Hfloat as (hi & lo & d & Hmax & Hmin & Hp & Hd & Hn & Hz).
    + apply forallb_forall. intros q Hq.
      rewrite List.Forall_forall in Hall.
      destruct (Hall (Num q)) as (q' & [= <-] & Hf); [|exact Hf].
      rewrite <- Hnum. now apply in_map.
    + intros E. rewrite E in Hnum. simpl in Hnum. congruence.
    + exists hi, lo, d. repeat split; auto.
      * intros H0 u v Hu Hv. rewrite <- Hnum in Hu, Hv.
        apply in_map_iff in Hu. destruct Hu as (a & <- & Ha).
        apply in_map_iff in Hv. destruct Hv as (b & <- & Hb').
        simpl. apply Hz; auto.
      * intros Hsame. apply Hz. intros a b Ha Hb'.
        apply (Hsame (Num a) (Num b)); rewrite <- Hnum; now apply in_map.
Qed.

Lemma peak_to_peak_range_witness :
  exists d,
    User.peak_to_peak (H := NumPy.float64_arithmetic) one_and_missing = Ok d
    /\ nonneg d.
Proof.
  destruct (peak_to_peak_range one_and_missing) as (_ & H & _).
  - repeat constructor.
  - destruct H as (hi & lo & d & _ & _ & Hp & _ & Hn & _).
    + reflexivity.
    + discriminate.
    + exists d. split; [exact Hp|exact Hn].
Defined.

(** C8 as stated fails on the float64 array [[1, NaN]]: the result is 0
    although the two entries differ. *)
Lemma peak_to_peak_skips_missing :
  ~ peak_to_peak_stated (H := NumPy.float64_arithmetic) one_and_missing.
Proof.
  intros H. destruct H as (hi & lo & d & Hmax & Hmin & Hp & Hd & _ & Hz).
  - repeat constructor.
  - discriminate.
  - injection Hmax as <-. injection Hmin as <-.
    destruct Hz as [Hz _]. subst d.
    apply (Hz ltac:(reflexivity) (Num 1) NaN); simpl; auto.
Qed.

(** C8 as stated fails on the int64 array [[2^63 - 1, -2^63]]: the
    difference wraps around to -1, a negative result. *)
Example peak_to_peak_wraps :
  User.peak_to_peak (H := NumPy.int64_arithmetic) extremes
  = Ok (Entry (Num (inject_Z (-1))))
  /\ ~ peak_to_peak_stated (H := NumPy.int64_arithmetic) extremes.
Proof.
  split; [reflexivity|].
  intros H. destruct H as (hi & lo & d & Hmax & Hmin & Hp & Hd & Hn & _).
  - repeat constructor.
  - discriminate.
  - injection Hmax as <-. injection Hmin as <-. subst d.
    vm_compute in Hn. now apply Hn.
Qed.

End RangeFacts.

(** ** [top]: the rows with the smallest keys *)

Module SortFacts.
Import Pandas Sample.

Section Insertion.
Context {A : Type} (leb : A -> A -> bool).
Hypothesis leb_total : forall a b, leb a b = true \/ leb b a = true.
Hypothesis leb_trans :
  forall a b c, leb a b = true -> leb b c = true -> leb a c = true.

#[local] Abbreviation le := (fun a b => leb a b = true).

Lemma insert_perm a l : Permutation (insert leb a l) (a :: l).
Proof.
  induction l as [|b l IH]; simpl; [reflexivity|].
  destruct (leb a b); [reflexivity|].
  rewrite IH. apply perm_swap.
Qed.

Lemma sort_perm l : Permutation (sort leb l) l.
Proof.
  induction l as [|a l IH]; simpl; [reflexivity|].
  rewrite insert_perm. now constructor.
Qed.

Lemma insert_sorted a l :
  StronglySorted le l -> StronglySorted le (insert leb a l).
Proof using leb_total leb_trans.
  induction 1 as [|b l Hl IH Hb]; simpl.
  - repeat constructor.
  - destruct (leb a b) eqn:E.
    + constructor; [now constructor|].
      constructor; [exact E|].
      eapply List.Forall_impl; [|exact Hb]. intros c Hc.
      exact (leb_trans _ _ _ E Hc).
    + constructor; [exact IH|].
      assert (Hba : le b a) by (destruct (leb_total a b); congruence).
      eapply Permutation_Forall.
      * symmetry. apply insert_perm.
      * now constructor.
Qed.

Lemma sort_sorted l : StronglySorted le (sort leb l).
Proof using leb_total leb_trans.
  induction l as [|a l IH]; simpl; [constructor|].
  now apply insert_sorted.
Qed.

Lemma sorted_app l1 l2 :
  StronglySorted le (l1 ++ l2) ->
  StronglySorted le l1
  /\ forall a b, In a l1 -> In b l2 -> le a b.
Proof.
  induction l1 as [|c l1 IH]; simpl; intros H.
  - split; [constructor|]. intros a b [].
  - inversion H as [|? ? Hs Hc]; subst. destruct (IH Hs) as [IH1 IH2].
    rewrite Forall_app in Hc. destruct Hc as [Hc1 Hc2]. split.
    + now constructor.
    + intros a b [<-|Ha] Hb; [|now apply IH2].
      rewrite List.Forall_forall in Hc2. now apply Hc2.
Qed.

End Insertion.

Lemma ascii_compare_refl c : Ascii.compare c c = Eq.
Proof. unfold Ascii.compare. apply N.compare_refl. Qed.

Lemma string_compare_trans s1 :
  forall s2 s3,
    String.compare s1 s2 <> Gt -> String.compare s2 s3 <> Gt ->
    String.compare s1 s3 <> Gt.
Proof.
  induction s1 as [|c1 s1 IH]; intros [|c2 s2] [|c3 s3]; simpl;
    try congruence.
  destruct (Ascii.compare c1 c2) eqn:E12; try congruence;
    destruct (Ascii.compare c2 c3) eqn:E23; try congruence.
  - apply Ascii.compare_eq_iff in E12, E23. subst.
    rewrite ascii_compare_refl. apply IH.
  - apply Ascii.compare_eq_iff in E12. subst. rewrite E23. congruence.
  - apply Ascii.compare_eq_iff in E23. subst. rewrite E12. congruence.
  - unfold Ascii.compare in *. intros _ _.
    rewrite N.compare_lt_iff in E12, E23.
    assert (H : (N_of_ascii c1 < N_of_ascii c3)%N) by lia.
    apply N.compare_lt_iff in H. rewrite H. congruence.
Qed.

Lemma string_leb_trans s1 s2 s3 :
  String.leb s1 s2 = true -> String.leb s2 s3 = true ->
  String.leb s1 s3 = true.
Proof.
  unfold String.leb. intros H12 H23.
  pose proof (string_compare_trans s1 s2 s3) as H.
  destruct (String.compare s1 s2); try discriminate;
    destruct (String.compare s2 s3); try discriminate;
    destruct (String.compare s1 s3); try reflexivity;
    exfalso; apply H; congruence.
Qed.

Lemma key_leb_total u v : key_leb u v = true \/ key_leb v u = true.
Proof.
  destruct u as [a|a|], v as [b|b|]; simpl; auto.
  - destruct (Qlt_le_dec b a) as [H|H].
    + right. apply Qle_bool_iff. now apply Qlt_le_weak.
    + left. now apply Qle_bool_iff.
  - apply String.leb_total.
Qed.

Lemma key_leb_trans u v t :
  key_leb u v = true -> key_leb v t = true -> key_leb u t = true.
Proof.
  destruct u as [a|a|], v as [b|b|], t as [c|c|]; simpl;
    try congruence; try reflexivity.
  - rewrite !Qle_bool_iff. apply Qle_trans.
  - apply string_leb_trans.
Qed.

Lemma row_typed_entry ds vs i d :
  row_typed ds vs = true -> nth_error ds i = Some d ->
  has_dtype d (nth i vs NaN) = true.
Proof.
  revert vs i. induction ds as [|d' ds IH]; intros [|v vs] [|i] H Hd;
    try discriminate.
  - simpl in *. injection Hd as <-. now apply andb_true_iff in H.
  - simpl in *. apply andb_true_iff in H. destruct H as [_ H]. now apply IH.
Qed.

(** A column of a well-formed frame holds numbers or strings, not both. *)
Lemma well_formed_not_mixed x col i :
  well_formed x = true -> position col (columns x) = Some i ->
  nth_error (columns x) i = Some col ->
  mixed (map (entry i) (rows x)) = false.
Proof.
  intros Hwf _ Hnth. unfold columns in Hnth.
  rewrite nth_error_map in Hnth.
  destruct (nth_error (dtypes x) i) as [[c d]|] eqn:E; [|discriminate].
  assert (Hd : nth_error (map snd (dtypes x)) i = Some d)
    by (rewrite nth_error_map, E; reflexivity).
  assert (Hall : forall r, In r (rows x) -> has_dtype d (entry i r) = true).
  { intros r Hr. unfold well_formed in Hwf. rewrite forallb_forall in Hwf.
    exact (row_typed_entry _ _ _ _ (Hwf r Hr) Hd). }
  unfold mixed. destruct d.
  - replace (existsb is_text (map (entry i) (rows x))) with false;
      [apply andb_false_r|].
    symmetry. apply ListFacts.existsb_map_false. intros r Hr.
    specialize (Hall r Hr). now destruct (entry i r).
  - replace (existsb is_num (map (entry i) (rows x))) with false;
      [reflexivity|].
    symmetry. apply ListFacts.existsb_map_false. intros r Hr.
    specialize (Hall r Hr). now destruct (entry i r).
Qed.

Lemma occurrences_position c cs :
  (0 < occurrences c cs)%nat -> exists i, position c cs = Some i.
Proof.
  unfold occurrences. induction cs as [|c' cs IH]; simpl; [lia|].
  destruct (String.eqb c c'); [now exists 0%nat|].
  intros H. destruct (IH H) as (i & ->). now exists (S i).
Qed.

Lemma position_nth_error c cs i :
  position c cs = Some i -> nth_error cs i = Some c.
Proof.
  revert i. induction cs as [|c' cs IH]; intros i; simpl; [discriminate|].
  destruct (String.eqb c c') eqn:E.
  - apply String.eqb_eq in E. subst. now intros [= <-].
  - destruct (position c cs) as [j|]; [|discriminate].
    intros [= <-]. simpl. now apply IH.
Qed.



(** On a frame whose column [v] holds the number 1 and the string ['a'],
    [top] raises [TypeError], whatever the sort; on a frame with two
    columns labelled [v] it raises [ValueError]. *)
Example top_raises :
  forall S : Sorter,
    User.top mixed_frame "v" 1 = Raise TypeError
    /\ User.top repeated_label "v" 1 = Raise ValueError.
Proof. intros S. split; reflexivity. Qed.


(** Nor does it hold on the frame with two columns labelled [v]:
    [sort_values] cannot tell which one is meant. *)
Example top_rejects_a_repeated_label : ~ top_stated repeated_label "v" 1.
Proof.
  intros Hs. destruct Hs as (r & Hr & _).
  - simpl. tauto.
  - lia.
  - discriminate Hr.
Qed.

End SortFacts.

(** ** [spy_m]: monthly mean and volatility *)

Module MonthlyFacts.
Import Pandas Sample ListFacts.

#[local] Arguments Compose.assigned : simpl never.

#[local] Arguments mean_value : simpl never.
#[local] Arguments std_value : simpl never.
#[local] Arguments numbers : simpl never.
#[local] Arguments period : simpl never.
#[local] Arguments month_entries : simpl never.
#[local] Arguments mul_scalar : simpl never.
#[local] Arguments inject_Z : simpl never.
#[local] Arguments Z.of_nat : simpl never.
#[local] Arguments Qle_bool : simpl never.
#[local] Arguments Nat.leb : simpl never.
#[local] Arguments agg : simpl never.
#[local] Arguments query_ge : simpl never.
#[local] Arguments drop : simpl never.
#[local] Arguments mul : simpl never.
#[local] Arguments assign : simpl never.

Lemma mapM_Ok {A B} (f : A -> result B) (g : A -> B) (l : list A) :
  (forall a, In a l -> f a = Ok (g a)) -> mapM f l = Ok (map g l).
Proof.
  induction l as [|a l IH]; intros H; [reflexivity|].
  cbn. rewrite (H a) by now left. cbn.
  rewrite IH by (intros; apply H; now right). reflexivity.
Qed.

Lemma resample_ok (x : DataFrame) :
  datetime_index x = true ->
  resample_M x = Ok {| rs_frame := x; rs_bins := months x |}.
Proof.
  intros H. unfold resample_M, months.
  assert (E : mapM (fun r => match month_ordinal (fst r) with
                             | Some o => Ok o
                             | None => Raise TypeError
                             end) (rows x)
              = Ok (flat_map (fun r => match month_ordinal (fst r) with
                                       | Some o => [o]
                                       | None => []
                                       end) (rows x))).
  { unfold datetime_index in H. induction (rows x) as [|r l IH];
      [reflexivity|].
    simpl in H. apply andb_true_iff in H. destruct H as [Hr Hl].
    cbn. destruct (month_ordinal (fst r)); [|discriminate].
    cbn. now rewrite (IH Hl). }
  rewrite E. reflexivity.
Qed.

(** In a column without strings, counting the entries that are not
    missing counts the numbers. *)
Lemma count_numbers vs :
  existsb is_text vs = false ->
  length (List.filter (fun v => negb (is_missing v)) vs) = length (numbers vs).
Proof.
  unfold numbers. induction vs as [|v vs IH]; intros H; [reflexivity|].
  simpl in H. apply orb_false_iff in H. destruct H as [Hv Hvs].
  destruct v; try discriminate; simpl; now rewrite IH.
Qed.

Lemma month_entries_no_text i x o :
  existsb is_text (map (entry i) (rows x)) = false ->
  existsb is_text (month_entries i x o) = false.
Proof.
  intros H. unfold month_entries. apply existsb_map_false.
  intros r Hr. apply filter_In in Hr. destruct Hr as [Hr _].
  apply (existsb_false_In _ _ _ H). now apply in_map.
Qed.

Lemma agg_ok `{RealOps} (groups : list (Z * list scalar)) :
  (forall g, In g groups -> existsb is_text (snd g) = false) ->
  agg ["mean"; "std"; "count"] groups
  = Ok {| dtypes := [("mean", float64); ("std", float64); ("count", float64)];
          rows := map (fun g =>
                         (period (fst g),
                          [mean_value (snd g); std_value (snd g);
                           Num (inject_Z (Z.of_nat (length (numbers (snd g)))))]))
                      groups |}.
Proof.
  intros Hg. unfold agg. cbn.
  rewrite (mapM_Ok _ (fun g =>
             (period (fst g),
              [mean_value (snd g); std_value (snd g);
               Num (inject_Z (Z.of_nat (length (numbers (snd g)))))]))).
  - reflexivity.
  - intros g Hin. cbn. unfold mean, std, count.
    rewrite (Hg g Hin). cbn. rewrite count_numbers by now apply Hg.
    reflexivity.
Qed.

Lemma enough_observations (n : nat) :
  Qle_bool 15 (inject_Z (Z.of_nat n)) = (15 <=? n)%nat.
Proof.
  destruct (15 <=? n)%nat eqn:E.
  - apply Qle_bool_iff. apply Nat.leb_le in E.
    change 15%Q with (inject_Z 15). rewrite <- Zle_Qle. lia.
  - apply not_true_is_false. intros Hq. apply Qle_bool_iff in Hq.
    change 15%Q with (inject_Z 15) in Hq. rewrite <- Zle_Qle in Hq.
    apply Nat.leb_gt in E. lia.
Qed.

Lemma spy_m_closed_form `{RealOps} (spy : DataFrame) (i : nat) :
  datetime_index spy = true ->
  position "Return" (columns spy) = Some i ->
  existsb is_text (map (entry i) (rows spy)) = false ->
  User.spy_m spy
  = Ok {| dtypes := [("mean", float64); ("std", float64)];
          rows :=
            map (fun o =>
                   (period o,
                    [mul_scalar 100 (mean_value (month_entries i spy o));
                     mul_scalar 100 (std_value (month_entries i spy o))]))
                (List.filter
                   (fun o => (15 <=? length (numbers (month_entries i spy o)))%nat)
                   (months spy)) |}.
Proof.
  intros Hidx Hpos Htext. unfold User.spy_m.
  rewrite (resample_ok _ Hidx). cbn.
  unfold resampler_getitem. cbn. rewrite Hpos. cbn.
  fold (month_entries i spy).
  rewrite agg_ok.
  2:{ intros g Hg. apply in_map_iff in Hg. destruct Hg as (o & <- & _).
      now apply month_entries_no_text. }
  cbn. rewrite map_map. cbn.
  unfold query_ge. cbn.
  rewrite existsb_map_false by reflexivity.
  rewrite filter_map_swap. cbn.
  erewrite filter_ext by (intros o; cbn; apply enough_observations).
  unfold drop. cbn. rewrite map_map. cbn.
  unfold mul. cbn. rewrite map_map. cbn.
  reflexivity.
Qed.

Lemma mean_value_not_text k vs : is_text (mul_scalar k (mean_value vs)) = false.
Proof. unfold mean_value. now destruct (numbers vs). Qed.

(** The last step of the second pipeline, on a frame with the columns
    [mean] and [std]. *)
Lemma assign_lag_ok (t : DataFrame) :
  columns t = ["mean"; "std"] ->
  existsb is_text (map (entry 0) (rows t)) = false ->
  assign "mean_lag1" (fun x => s ← getitem "mean" x; mret (shift 1 s)) t
  = Ok {| dtypes := (dtypes t ++ [("mean_lag1", float64)])%list;
          rows := with_lag t |}.
Proof.
  intros Hcols Htext. unfold assign, getitem. rewrite Hcols. cbn.
  change (Z.to_nat 1) with 1%nat. cbn [repeat app].
  rewrite length_firstn, length_map. cbn [length]. rewrite length_map.
  replace (Nat.min (length (rows t)) (S (length (rows t))))
    with (length (rows t)) by lia.
  rewrite Nat.eqb_refl. cbn. unfold infer_dtype.
  rewrite existsb_firstn_false by (simpl; exact Htext).
  reflexivity.
Qed.

Lemma spy_m_lagged_closed_form `{RealOps} (spy : DataFrame) (i : nat) :
  datetime_index spy = true ->
  position "Return" (columns spy) = Some i ->
  existsb is_text (map (entry i) (rows spy)) = false ->
  exists t,
    User.spy_m spy = Ok t
    /\ User.spy_m_lagged spy
       = Ok {| dtypes := [("mean", float64); ("std", float64);
                          ("mean_lag1", float64)];
               rows := with_lag t |}.
Proof.
  intros Hidx Hpos Htext.
  pose proof (spy_m_closed_form spy i Hidx Hpos Htext) as Hm.
  eexists. split; [exact Hm|].
  unfold User.spy_m_lagged. rewrite Hm. cbn [mbind result_bind].
  apply assign_lag_ok; [reflexivity|].
  cbn [rows]. rewrite map_map. apply existsb_map_false.
  intros o _. apply mean_value_not_text.
Qed.

Lemma assign_ext name (f g : DataFrame -> result Series) x :
  f x = g x -> assign name f x = assign name g x.
Proof. intros E. unfold assign. now rewrite E. Qed.

(** The two pipelines, read off the cells and evaluated call by call,
    are [spy_m] and [spy_m_lagged]. *)
Lemma spy_m_denotes `{RealOps} `{Arithmetic} `{Sorter} (spy : DataFrame) :
  Compose.assigned Src.lewinson_01 1118 "spy_m" = Some Src.spy_m_pipeline
  /\ Compose.denote [("spy", Compose.OFrame spy)] Src.spy_m_pipeline
     = Compose.OFrame <$> User.spy_m spy.
Proof.
  split; [reflexivity|].
  unfold User.spy_m, Src.spy_m_pipeline. cbn.
  destruct (resample_M spy) as [r|]; [cbn|reflexivity].
  destruct (resampler_getitem "Return" r) as [g|]; [cbn|reflexivity].
  destruct (agg ["mean"; "std"; "count"] g) as [a|]; [cbn|reflexivity].
  destruct (query_ge "count" 15 a) as [q|]; [cbn|reflexivity].
  destruct (drop ["count"] q) as [d|]; reflexivity.
Qed.

Lemma spy_m_lagged_denotes `{RealOps} `{Arithmetic} `{Sorter}
      (spy : DataFrame) :
  exists e,
    Compose.assigned Src.lewinson_01 1241 "spy_m" = Some e
    /\ Compose.denote [("spy", Compose.OFrame spy)] e
       = Compose.OFrame <$> User.spy_m_lagged spy.
Proof.
  eexists. split; [reflexivity|].
  unfold User.spy_m_lagged, User.spy_m, Src.spy_m_pipeline. cbn.
  destruct (resample_M spy) as [r|]; [cbn|reflexivity].
  destruct (resampler_getitem "Return" r) as [g|]; [cbn|reflexivity].
  destruct (agg ["mean"; "std"; "count"] g) as [a|]; [cbn|reflexivity].
  destruct (query_ge "count" 15 a) as [q|]; [cbn|reflexivity].
  destruct (drop ["count"] q) as [d|]; [cbn|reflexivity].
  f_equal. apply assign_ext.
  destruct (getitem "mean" (mul 100 d)); reflexivity.
Qed.

(** C10, amended.  For a frame [spy] with a date index and a numeric
    column [Return]: both pipelines succeed, as translated ([spy_m],
    [spy_m_lagged]) and as they stand in the cells at lines 1118 and 1241.
    The first [spy_m] has exactly the columns [mean] and [std], the helper
    column [count] being dropped; it has one row for each calendar month,
    from the first to the last date, with at least 15 non-missing returns,
    and no other row; the row holds the mean and the standard deviation of
    the non-missing returns of that month, each multiplied by 100.  The
    second [spy_m] has these rows and columns and a third column,
    [mean_lag1]: the [mean] of the row before, missing in the first
    row. *)
Theorem spy_m_monthly `{RealOps} {dtype : Arithmetic} `{Sorter}
        (spy : DataFrame) (i : nat) :
  datetime_index spy = true ->
  position "Return" (columns spy) = Some i ->
  existsb is_text (map (entry i) (rows spy)) = false ->
  exists t t' e e',
    User.spy_m spy = Ok t /\ User.spy_m_lagged spy = Ok t'
    /\ Compose.assigned Src.lewinson_01 1118 "spy_m" = Some e
    /\ Compose.denote [("spy", Compose.OFrame spy)] e = Ok (Compose.OFrame t)
    /\ Compose.assigned Src.lewinson_01 1241 "spy_m" = Some e'
    /\ Compose.denote [("spy", Compose.OFrame spy)] e'
       = Ok (Compose.OFrame t')
    /\ columns t = ["mean"; "std"]
    /\ (forall r, In r (rows t) ->
         exists o qs sd,
           In o (months spy) /\ fst r = period o
           /\ qs = numbers (month_entries i spy o)
           /\ (15 <= length qs)%nat
           /\ std_value (month_entries i spy o) = Num sd
           /\ snd r = [Num (Qmean qs * 100); Num (sd * 100)])
    /\ (forall o, In o (months spy) ->
                  (15 <= length (numbers (month_entries i spy o)))%nat ->
                  exists r, In r (rows t) /\ fst r = period o)
    /\ columns t' = ["mean"; "std"; "mean_lag1"]
    /\ rows t' = with_lag t.
Proof.
  intros Hidx Hpos Htext.
  pose proof (spy_m_closed_form spy i Hidx Hpos Htext) as Hm.
  destruct (spy_m_lagged_closed_form spy i Hidx Hpos Htext)
    as (t0 & Hm0 & Hl).
  rewrite Hm in Hm0. injection Hm0 as <-.
  destruct (spy_m_denotes spy) as [Ha Hd].
  destruct (spy_m_lagged_denotes spy) as (e' & Ha' & Hd').
  rewrite Hm in Hd. rewrite Hl in Hd'.
  eexists. eexists. exists Src.spy_m_pipeline, e'.
  split; [exact Hm|]. split; [exact Hl|].
  split; [exact Ha|]. split; [exact Hd|].
  split; [exact Ha'|]. split; [exact Hd'|].
  split; [reflexivity|]. split; [|split; [|split; reflexivity]].
  - intros r Hr. cbn [rows] in Hr. apply in_map_iff in Hr.
    destruct Hr as (o & <- & Ho). apply filter_In in Ho.
    destruct Ho as [Ho Hcount]. apply Nat.leb_le in Hcount.
    exists o. unfold std_value, mean_value.
    destruct (numbers (month_entries i spy o)) as [|q1 [|q2 qs]] eqn:E;
      simpl in Hcount; try lia.
    eexists _, _. repeat split; [exact Ho|simpl; lia].
  - intros o Ho Hcount.
    exists (period o,
            [mul_scalar 100 (mean_value (month_entries i spy o));
             mul_scalar 100 (std_value (month_entries i spy o))]).
    split; [|reflexivity].
    cbn [rows]. apply in_map_iff. exists o. split; [reflexivity|].
    apply filter_In. split; [exact Ho|]. now apply Nat.leb_le.
Qed.

Lemma spy_m_monthly_witness :
  exists t, User.spy_m Sample.spy = Ok t /\ columns t = ["mean"; "std"].
Proof.
  destruct (spy_m_monthly (dtype := NumPy.float64_arithmetic) Sample.spy 1)
    as (t & t' & e & e' & Ht & _ & _ & _ & _ & _ & Hc & _).
  - reflexivity.
  - reflexivity.
  - reflexivity.
  - exists t. split; [exact Ht|exact Hc].
Defined.

(** C10 as stated fails for the second [spy_m]: on the sample it has
    the three columns [mean], [std] and [mean_lag1]. *)
Lemma second_spy_m_has_a_third_column :
  ~ keeps_only_mean_and_std (User.spy_m_lagged Sample.spy).
Proof.
  intros (x & Hx & Hc).
  destruct (spy_m_lagged_closed_form Sample.spy 1 eq_refl eq_refl eq_refl)
    as (t & _ & Ht').
  rewrite Ht' in Hx. injection Hx as <-. discriminate Hc.
Qed.

End MonthlyFacts.

(** ** Seeded construction of [df] and [people] *)

Module RandomFacts.
Import Pandas.

Section Seeded.
Context {G : NumPy.BitGenerator}.

Lemma randn_length n st : length (fst (NumPy.randn n st)) = n.
Proof.
  revert st. induction n as [|n IH]; intros st; [reflexivity|].
  simpl. destruct (NumPy.standard_normal st) as [x st1].
  specialize (IH st1). destruct (NumPy.randn n st1) as [xs st2].
  simpl in *. now rewrite IH.
Qed.

Lemma randn2_shape r c st :
  length (fst (NumPy.randn2 r c st)) = r
  /\ forallb (fun row => Nat.eqb (length row) c) (fst (NumPy.randn2 r c st))
     = true.
Proof.
  revert st. induction r as [|r IH]; intros st; [now split|].
  simpl. pose proof (randn_length c st) as Hc.
  destruct (NumPy.randn c st) as [xs st1].
  specialize (IH st1). destruct (NumPy.randn2 r c st1) as [xss st2].
  simpl in *. destruct IH as [IH1 IH2]. split; [now rewrite IH1|].
  rewrite Hc, Nat.eqb_refl. exact IH2.
Qed.

(** What [cell_df] binds to [df] depends on the generator only. *)
Lemma cell_df_table :
  exists df,
    columns df = ["key1"; "key2"; "data1"; "data2"]
    /\ length (rows df) = 5%nat
    /\ forall k, exists k', User.cell_df k = Ok k'
                            /\ User.names k' !! "df" = Some df.
Proof.
  pose proof (randn_length 5 (NumPy.init 42)) as H1.
  destruct (NumPy.randn 5 (NumPy.init 42)) as [data1 st1] eqn:E1.
  pose proof (randn_length 5 st1) as H2.
  destruct (NumPy.randn 5 st1) as [data2 st2] eqn:E2.
  simpl in H1, H2.
  eexists. split; [|split].
  3:{ intros k. unfold User.cell_df, NumPy.seed. rewrite E1, E2.
      unfold from_dict. cbn [snd forallb length map].
      rewrite !length_map, H1, H2. cbn [Nat.eqb andb].
      cbn [mbind result_bind mret result_ret].
      eexists. split; [reflexivity|]. cbn [User.names].
      apply lookup_insert_eq. }
  - reflexivity.
  - cbn [rows]. now rewrite length_map, length_seq.
Qed.

Lemma cell_people_table :
  exists people,
    columns people = ["a"; "b"; "c"; "d"; "e"]
    /\ map fst (rows people)
       = map LStr ["Joe"; "Steve"; "Wes"; "Jim"; "Travis"]
    /\ forall k, exists k', User.cell_people k = Ok k'
                            /\ User.names k' !! "people" = Some people.
Proof.
  destruct (randn2_shape 5 5 (NumPy.init 42)) as [H1 H2].
  destruct (NumPy.randn2 5 5 (NumPy.init 42)) as [data st1] eqn:E.
  simpl in H1, H2.
  assert (Hshape :
    Nat.eqb (length (map (map Num) data)) 5
    && forallb (fun r => Nat.eqb (length r) 5) (map (map Num) data) = true).
  { rewrite length_map, H1. simpl. clear E H1.
    induction data as [|row data IH]; [reflexivity|].
    simpl in *. apply andb_true_iff in H2. destruct H2 as [Hr Hd].
    rewrite length_map, Hr. simpl. now apply IH. }
  eexists. split; [|split].
  3:{ intros k. unfold User.cell_people, NumPy.seed. rewrite E.
      unfold from_matrix. cbn [length map]. rewrite Hshape.
      cbn [mbind result_bind mret result_ret].
      eexists. split; [reflexivity|]. cbn [User.names].
      apply lookup_insert_eq. }
  - reflexivity.
  - cbn [rows].
    destruct data as [|r1 [|r2 [|r3 [|r4 [|r5 [|r6 data]]]]]];
      try discriminate H1. reflexivity.
Qed.

(** C7.  Two executions, from any two kernel states (whatever the
    generator's state and whatever is bound): the cell that seeds the
    generator with 42 and builds [df] succeeds in both and binds [df] to
    the same table, with columns key1, key2, data1, data2; and so does the
    cell that builds [people], with columns a to e. *)
Theorem seeded_tables_identical (k1 k2 : User.kernel) :
  exists df people k1' k2' j1' j2',
    User.cell_df k1 = Ok k1' /\ User.cell_df k2 = Ok k2'
    /\ User.names k1' !! "df" = Some df
    /\ User.names k2' !! "df" = Some df
    /\ columns df = ["key1"; "key2"; "data1"; "data2"]
    /\ User.cell_people k1 = Ok j1' /\ User.cell_people k2 = Ok j2'
    /\ User.names j1' !! "people" = Some people
    /\ User.names j2' !! "people" = Some people
    /\ columns people = ["a"; "b"; "c"; "d"; "e"].
Proof.
  destruct cell_df_table as (df & Hc & _ & Hdf).
  destruct cell_people_table as (people & Hpc & _ & Hpeople).
  destruct (Hdf k1) as (k1' & E1 & L1). destruct (Hdf k2) as (k2' & E2 & L2).
  destruct (Hpeople k1) as (j1' & F1 & M1).
  destruct (Hpeople k2) as (j2' & F2 & M2).
  exists df, people, k1', k2', j1', j2'. repeat split; assumption.
Qed.

End Seeded.

(** Without the seed the draws follow the generator's state: the table
    [hier_df] (line 463) is built from draws that differ between two
    kernels whose generators differ. *)
Example unseeded_draws_differ :
  fst (User.draw_unseeded (User.Kernel Sample.counter 0%Z ∅))
  <> fst (User.draw_unseeded (User.Kernel Sample.counter 7%Z ∅)).
Proof. vm_compute. discriminate. Qed.

End RandomFacts.

(** ** The notebooks' functions as compositions of library calls *)

Module ComposeFacts.
Import Py Static Flow Pandas Compose.

Lemma peak_to_peak_composes `{RealOps} `{Arithmetic} `{Sorter} arr :
  call_def Src.mckinney_10 "peak_to_peak" [OSeries arr]
  = OScalar <$> User.peak_to_peak arr.
Proof.
  unfold User.peak_to_peak. cbn.
  destruct (max arr) as [hi|e]; [|reflexivity]. cbn.
  destruct (min arr) as [lo|e]; reflexivity.
Qed.

Lemma top_composes `{RealOps} `{Arithmetic} `{Sorter} x col n :
  call_def Src.mckinney_10 "top" [OFrame x; OStr col; OInt n]
  = OFrame <$> User.top x col n.
Proof.
  unfold User.top. cbn. destruct (sort_values col x); reflexivity.
Qed.

Lemma top_default_composes `{RealOps} `{Arithmetic} `{Sorter} x col :
  call_def Src.mckinney_10 "top" [OFrame x; OStr col]
  = OFrame <$> User.top x col User.top_n_default.
Proof.
  unfold User.top. cbn. destruct (sort_values col x); reflexivity.
Qed.

(** C1.  The notebooks define two functions, [peak_to_peak] and [top],
    both in the first notebook, and one lambda.  The body of each is one
    expression made of parameter names, constants, method calls and
    operators only.  Every call a cell makes has an attribute of an object
    or one of the builtins [print], [len], [range] as its callee: the
    notebooks' own functions are handed to the library ([agg], [apply],
    [assign]) and never called by the cells.  Evaluating the body of
    [peak_to_peak] or [top] by dispatching each method to the library
    gives, on every argument, what the function gives; for [top] also when
    [n] is left to its default. *)
Theorem functions_are_library_compositions
        {ops : RealOps} {dtype : Arithmetic} {sorter : Sorter} :
  map (fun nb => map (fun d => fst (fst d)) (function_defs nb)) Src.notebooks
  = [["peak_to_peak"; "top"]; []]
  /\ (forall nb f params body,
        In nb Src.notebooks -> In (f, params, body) (function_defs nb) ->
        exists e, body = [Return e]
                  /\ is_composition (map fst params) e = true)
  /\ (forall nb c params body,
        In nb Src.notebooks -> In c (nb_cells nb) ->
        In (params, body) (cell_lambdas c) ->
        is_composition params body = true)
  /\ (forall nb c call,
        In nb Src.notebooks -> In c (nb_cells nb) -> In call (cell_calls c) ->
        library_call call = true)
  /\ (forall arr,
        call_def Src.mckinney_10 "peak_to_peak" [OSeries arr]
        = OScalar <$> User.peak_to_peak arr)
  /\ (forall x col n,
        call_def Src.mckinney_10 "top" [OFrame x; OStr col; OInt n]
        = OFrame <$> User.top x col n)
  /\ (forall x col,
        call_def Src.mckinney_10 "top" [OFrame x; OStr col]
        = OFrame <$> User.top x col User.top_n_default).
Proof.
  split; [reflexivity|].
  split.
  { intros nb f params body [<-|[<-|[]]] Hd; simpl in Hd.
    - destruct Hd as [[= <- <- <-]|[[= <- <- <-]|[]]];
        eexists; split; reflexivity.
    - destruct Hd. }
  split.
  { intros nb c params body Hnb Hc Hl.
    assert (Hall : forallb (fun nb =>
                  forallb (fun c =>
                    forallb (fun l => is_composition (fst l) (snd l))
                            (cell_lambdas c))
                          (nb_cells nb))
                        Src.notebooks = true) by (vm_compute; reflexivity).
    rewrite forallb_forall in Hall. specialize (Hall _ Hnb).
    rewrite forallb_forall in Hall. specialize (Hall _ Hc).
    rewrite forallb_forall in Hall. exact (Hall _ Hl). }
  split.
  { intros nb c call Hnb Hc Hcall.
    assert (Hall : forallb (fun nb =>
                  forallb (fun c => forallb library_call (cell_calls c))
                          (nb_cells nb))
                        Src.notebooks = true) by (vm_compute; reflexivity).
    rewrite forallb_forall in Hall. specialize (Hall _ Hnb).
    rewrite forallb_forall in Hall. specialize (Hall _ Hc).
    rewrite forallb_forall in Hall. exact (Hall _ Hcall). }
  split; [exact peak_to_peak_composes|].
  split; [exact top_composes|exact top_default_composes].
Qed.

(** The lambda of line 1249 and the call [agg(peak_to_peak)] of line
    557. *)
Lemma functions_are_library_compositions_witness :
  is_composition ["x"]
    (method (item (Name "x") "mean") "shift" [int 1] []) = true
  /\ library_call
       (Attribute (item (Src.groupby (Name "df") (str "key1")) "data1") "agg",
        [Name "peak_to_peak"], []) = true.
Proof.
  destruct (functions_are_library_compositions
              (ops := Sample.newton_sqrt)
              (dtype := NumPy.float64_arithmetic)
              (sorter := Sample.insertion))
    as (_ & _ & Hl & Hc & _).
  split.
  - apply (Hl Src.lewinson_01 (nth 14 (nb_cells Src.lewinson_01) (Cell 0 []))).
    + right. left. reflexivity.
    + do 14 right. left. reflexivity.
    + simpl. tauto.
  - apply (Hc Src.mckinney_10 (nth 28 (nb_cells Src.mckinney_10) (Cell 0 []))).
    + left. reflexivity.
    + do 28 right. left. reflexivity.
    + simpl. tauto.
Defined.

End ComposeFacts.

(** ** A notebook run from top to bottom *)

Module RunFacts.
Import Py Static Exec Run Scoping.

Section Scoped.
Context {R : Runtime}.
Hypothesis well : well_behaved R.

Lemma loudM_ret {A} g (post : A -> Prop) a : post a -> loudM g post (ret a).
Proof. intros H w. simpl. split; [constructor|assumption]. Qed.

Lemma loudM_call g o args : loudM g (fun _ => True) (call g o args).
Proof.
  intros w. unfold call. destruct (perform o args w) as [w1 [x|v]]; simpl.
  - exists [], (Event g o args (Some x)). repeat split; auto.
  - repeat constructor.
Qed.

Lemma loudM_unpack g n v :
  loudM g (fun u => length (elements u) = n) (call g (OpUnpack n) [v]).
Proof.
  intros w. unfold call.
  destruct (perform (OpUnpack n) [v] w) as [w1 [x|u]] eqn:E; simpl.
  - exists [], (Event g (OpUnpack n) [v] (Some x)). repeat split; auto.
  - split; [repeat constructor|]. destruct well as [_ H]. eapply H, E.
Qed.

Lemma loudM_bind {A B} g (p : A -> Prop) (q : B -> Prop) (m : M A)
      (k : A -> M B) :
  loudM g p m -> (forall a, p a -> loudM g q (k a)) -> loudM g q (bind m k).
Proof.
  intros Hm Hk w. unfold bind. specialize (Hm w).
  destruct (m w) as [[w1 t1] [x|a]]; [exact Hm|]. destruct Hm as [Hq Ha].
  specialize (Hk a Ha w1). destruct (k a w1) as [[w2 t2] [x|b]].
  - now apply ExecFacts.failed_last_app.
  - destruct Hk. split; [apply Forall_app|]; auto.
Qed.

Lemma loudM_mapM {A B} g (f : A -> M B) (l : list A) :
  Forall (fun a => loudM g (fun _ => True) (f a)) l ->
  loudM g (fun _ => True) (mapM f l).
Proof.
  induction 1 as [|a l Ha _ IH]; simpl.
  - now apply loudM_ret.
  - eapply loudM_bind; [exact Ha|]. intros b _.
    eapply loudM_bind; [exact IH|]. intros bs _. now apply loudM_ret.
Qed.

Lemma loudM_optM {A B} g (f : A -> M B) (o : option A) :
  (forall a, o = Some a -> loudM g (fun _ => True) (f a)) ->
  loudM g (fun _ => True) (optM f o).
Proof.
  intros H. destruct o as [a|]; simpl.
  - eapply loudM_bind; [now apply H|]. intros b _. now apply loudM_ret.
  - now apply loudM_ret.
Qed.

Lemma loudM_load loc g x :
  known loc g x -> loudM g (fun _ => True) (load loc g x).
Proof.
  unfold load, known. intros H.
  destruct (assoc x loc); [now apply loudM_ret|].
  destruct (g !! x); [now apply loudM_ret|].
  destruct (builtin x); [now apply loudM_ret|].
  exfalso. destruct H as [H|[H|H]]; now apply H.
Qed.

Lemma known_local loc g target v x :
  (x <> target -> known loc g x) -> known ((target, v) :: loc) g x.
Proof.
  intros H. unfold known in *. simpl.
  destruct (String.eqb x target) eqn:E.
  - left. discriminate.
  - apply String.eqb_neq in E. auto.
Qed.

Lemma In_flat_map_intro {A B} (f : A -> list B) l a b :
  In a l -> In b (f a) -> In b (flat_map f l).
Proof. intros. apply in_flat_map. eauto. Qed.

(** An expression whose free names are all found raises only what a
    runtime operation raised. *)
Lemma eval_loud e :
  forall loc g,
    (forall x, In x (expr_names e) -> known loc g x) ->
    loudM g (fun _ => True) (eval loc g e).
Proof.
  induction e as
    [ id | c | v IHv a | f IHf args IHargs kws IHkws | v IHv s IHs
    | lo IHlo hi IHhi | l IHl o r IHr | l IHl o r IHr | es IHes | es IHes
    | kvs IHkvs | params body IHbody | elt IHelt target iter IHiter ];
    intros loc g Hn; simpl in *.
  - apply loudM_load. apply Hn. now left.
  - now apply loudM_ret.
  - eapply loudM_bind; [now apply IHv|]. intros. apply loudM_call.
  - eapply loudM_bind.
    { apply IHf. intros. apply Hn. rewrite in_app_iff. auto. }
    intros vf _. eapply loudM_bind.
    { apply loudM_mapM. apply ExecFacts.list_all_Forall in IHargs.
      rewrite List.Forall_forall in IHargs. apply List.Forall_forall.
      intros e He. apply IHargs; [assumption|]. intros x Hx. apply Hn.
      rewrite !in_app_iff. right. left. eapply In_flat_map_intro; eauto. }
    intros vargs _. eapply loudM_bind; [|intros; apply loudM_call].
    apply loudM_mapM.
    assert (IH : Forall (fun kw : string * expr =>
                           forall loc g,
                             (forall x, In x (expr_names (snd kw)) ->
                                        known loc g x) ->
                             loudM g (fun _ => True) (eval loc g (snd kw)))
                        kws).
    { eapply ExecFacts.list_all_ForallT; [|exact IHkws]. intros [k e] H.
      simpl. inversion H; subst. auto. }
    rewrite List.Forall_forall in IH. apply List.Forall_forall.
    intros kw Hkw. apply IH; [assumption|]. intros x Hx. apply Hn.
    rewrite !in_app_iff. right. right.
    apply in_flat_map. exists kw. auto.
  - eapply loudM_bind.
    { apply IHv. intros. apply Hn. rewrite in_app_iff. auto. }
    intros. eapply loudM_bind; [|intros; apply loudM_call].
    apply IHs. intros. apply Hn. rewrite in_app_iff. auto.
  - eapply loudM_bind.
    { apply loudM_optM. intros e ->. inversion IHlo; subst.
      apply H0. intros. apply Hn. rewrite in_app_iff. auto. }
    intros. eapply loudM_bind; [|intros; now apply loudM_ret].
    apply loudM_optM. intros e ->. inversion IHhi; subst.
    apply H1. intros. apply Hn. rewrite in_app_iff. auto.
  - eapply loudM_bind.
    { apply IHl. intros. apply Hn. rewrite in_app_iff. auto. }
    intros. eapply loudM_bind; [|intros; apply loudM_call].
    apply IHr. intros. apply Hn. rewrite in_app_iff. auto.
  - eapply loudM_bind.
    { apply IHl. intros. apply Hn. rewrite in_app_iff. auto. }
    intros. eapply loudM_bind; [|intros; apply loudM_call].
    apply IHr. intros. apply Hn. rewrite in_app_iff. auto.
  - eapply loudM_bind; [|intros; now apply loudM_ret].
    apply loudM_mapM. apply ExecFacts.list_all_Forall in IHes.
    rewrite List.Forall_forall in IHes. apply List.Forall_forall.
    intros e He. apply IHes; [assumption|]. intros x Hx. apply Hn.
    eapply In_flat_map_intro; eauto.
  - eapply loudM_bind; [|intros; now apply loudM_ret].
    apply loudM_mapM. apply ExecFacts.list_all_Forall in IHes.
    rewrite List.Forall_forall in IHes. apply List.Forall_forall.
    intros e He. apply IHes; [assumption|]. intros x Hx. apply Hn.
    eapply In_flat_map_intro; eauto.
  - eapply loudM_bind; [|intros; now apply loudM_ret].
    apply loudM_mapM.
    assert (IH : Forall (fun kv : expr * expr =>
                           (forall loc g,
                              (forall x, In x (expr_names (fst kv)) ->
                                         known loc g x) ->
                              loudM g (fun _ => True) (eval loc g (fst kv)))
                           /\ (forall loc g,
                                 (forall x, In x (expr_names (snd kv)) ->
                                            known loc g x) ->
                                 loudM g (fun _ => True)
                                       (eval loc g (snd kv))))
                        kvs).
    { eapply ExecFacts.list_all_ForallT; [|exact IHkvs]. intros [k v] H.
      simpl. inversion H; subst. auto. }
    rewrite List.Forall_forall in IH. apply List.Forall_forall.
    intros kv Hkv. destruct (IH kv Hkv) as [IHk IHv].
    eapply loudM_bind.
    { apply IHk. intros x Hx. apply Hn. apply in_flat_map. exists kv.
      rewrite in_app_iff. auto. }
    intros. eapply loudM_bind; [|intros; now apply loudM_ret].
    apply IHv. intros x Hx. apply Hn. apply in_flat_map. exists kv.
    rewrite in_app_iff. auto.
  - now apply loudM_ret.
  - eapply loudM_bind.
    { apply IHiter. intros. apply Hn. rewrite in_app_iff. auto. }
    intros vi _. eapply loudM_bind; [apply loudM_call|]. intros it _.
    eapply loudM_bind; [|intros; now apply loudM_ret].
    apply loudM_mapM. apply List.Forall_forall. intros v _.
    apply IHelt. intros x Hx. apply known_local. intros Hne. apply Hn.
    rewrite in_app_iff. right. apply filter_In. split; [assumption|].
    apply negb_true_iff. now apply String.eqb_neq.
Qed.

Lemma names_known bound l g :
  names_bound bound l = true -> covers bound g ->
  forall x, In x l -> known [] g x.
Proof.
  intros H Hg x Hx. unfold names_bound in H.
  rewrite forallb_forall in H. specialize (H x Hx).
  apply orb_true_iff in H. right. destruct H as [H|H].
  - left. apply Hg. now apply FlowFacts.mem_In.
  - right. destruct well as [Hb _]. apply Hb. now apply FlowFacts.mem_In.
Qed.

Lemma covers_incl b1 b2 g : incl b1 b2 -> covers b2 g -> covers b1 g.
Proof. intros Hi Hg x Hx. apply Hg, Hi, Hx. Qed.

Lemma sound_weaken (p q : namespace -> Prop) o :
  (forall g, p g -> q g) -> sound p o -> sound q o.
Proof. intros H [Hl Hp]. split; auto. Qed.

Lemma safe_ok p : safe p p ok.
Proof. intros g w Hg. split; [constructor|auto]. Qed.

Lemma safe_bind_name x v b :
  safe (covers b) (covers (x :: b)) (bind_name x v).
Proof.
  intros g w Hg. split; [constructor|]. intros _ y [<-|Hy]; simpl.
  - now rewrite lookup_insert_eq.
  - destruct (decide (x = y)) as [<-|Hne].
    + now rewrite lookup_insert_eq.
    + rewrite lookup_insert_ne by assumption. now apply Hg.
Qed.

Lemma sound_lift {A} (m : M A) (k : A -> action) g w (p : A -> Prop) q :
  loudM g p m -> (forall a w', p a -> sound q (k a g w')) ->
  sound q (lift m k g w).
Proof.
  intros Hm Hk. unfold lift. specialize (Hm w).
  destruct (m w) as [[w1 t1] [x|a]].
  - split; [exact Hm|discriminate].
  - destruct Hm as [Hq Ha]. destruct (Hk a w1 Ha) as [Hl Hp].
    split; [|exact Hp]. unfold loud in *. simpl.
    destruct (out_raised (k a g w1)).
    + now apply ExecFacts.failed_last_app.
    + apply Forall_app; auto.
Qed.

Lemma safe_seq p q r s1 s2 : safe p q s1 -> safe q r s2 -> safe p r (seq s1 s2).
Proof.
  intros H1 H2 g w Hg. unfold seq. destruct (H1 g w Hg) as [Hl Hq].
  unfold sound, loud in *.
  destruct (out_raised (s1 g w)) as [x|] eqn:E.
  - rewrite E. split; [exact Hl|discriminate].
  - destruct (H2 _ (out_world (s1 g w)) (Hq eq_refl)) as [Hl2 Hr]. simpl.
    split; [|exact Hr]. unfold loud in Hl2.
    destruct (out_raised (s2 (out_globals (s1 g w)) (out_world (s1 g w)))).
    + now apply ExecFacts.failed_last_app.
    + apply Forall_app; auto.
Qed.

Lemma safe_weaken (p p' q q' : namespace -> Prop) s :
  (forall g, p' g -> p g) -> (forall g, q g -> q' g) ->
  safe p q s -> safe p' q' s.
Proof.
  intros Hp Hq H g w Hg. eapply sound_weaken; [exact Hq|]. apply H, Hp, Hg.
Qed.

Lemma target_names bound b g :
  incl bound b -> covers b g -> forall l,
  names_bound bound l = true -> forall x, In x l -> known [] g x.
Proof.
  intros Hi Hg l Hl. eapply names_known; [exact Hl|].
  eapply covers_incl; eauto.
Qed.

(** Assigning to a well-formed target binds the names of the target. *)
Lemma assign_safe t :
  forall v bound b,
    target_ok bound t = true -> incl bound b ->
    safe (covers b) (covers (target_binds t ++ b)) (assign t v).
Proof.
  induction t as
    [ id | c | o IHo a | f IHf args IHargs kws IHkws | o IHo k IHk
    | lo IHlo hi IHhi | l IHl op r IHr | l IHl op r IHr | es IHes | ts IHts
    | kvs IHkvs | params body IHbody | elt IHelt target iter IHiter ];
    intros v bound b Hok Hi; simpl in Hok; try discriminate; simpl.
  - apply safe_bind_name.
  - intros g w Hg. eapply sound_lift.
    + eapply loudM_bind; [|intros; apply loudM_call].
      apply eval_loud. eapply target_names; eauto.
    + intros. now apply safe_ok.
  - apply andb_true_iff in Hok. destruct Hok as [Ho Hk].
    intros g w Hg. eapply sound_lift.
    + eapply loudM_bind; [apply eval_loud; eapply target_names; eauto|].
      intros. eapply loudM_bind; [|intros; apply loudM_call].
      apply eval_loud. eapply target_names; eauto.
    + intros. now apply safe_ok.
  - intros g w Hg. eapply sound_lift; [apply loudM_unpack|].
    simpl. intros u w'. generalize (elements u). intros vs Hlen.
    revert vs Hlen b Hi g w' Hg.
    apply ExecFacts.list_all_Forall in IHts.
    induction IHts as [|t ts Ht _ IH]; intros vs Hlen b Hi g w' Hg.
    + destruct vs; now apply safe_ok.
    + destruct vs as [|x vs]; [discriminate|]. simpl in Hok.
      apply andb_true_iff in Hok. destruct Hok as [Hok1 Hok2].
      revert g w' Hg. change (safe (covers b)
        (covers (flat_map target_binds (t :: ts) ++ b))
        (seq (assign t x)
             ((fix go (ts : list expr) (vs : list value) : action :=
                 match ts, vs with
                 | t :: ts', x :: vs' => seq (assign t x) (go ts' vs')
                 | _, _ => ok
                 end) ts vs))).
      eapply safe_seq; [now apply (Ht x bound b)|].
      intros g w' Hg.
      eapply sound_weaken;
        [|apply (IH Hok2 vs); [now injection Hlen| |exact Hg]].
      * intros g' Hg' y Hy. apply Hg'. simpl in Hy.
        rewrite !in_app_iff in *. tauto.
      * intros y Hy. apply in_app_iff. right. now apply Hi.
Qed.

Lemma block_safe (ex : stmt -> action) ss :
  Forall (fun s => forall bound,
            scoped bound s = true ->
            safe (covers bound) (covers (surely_binds s ++ bound)) (ex s)) ss ->
  forall bound,
    scoped_block scoped bound ss = true ->
    safe (covers bound) (covers (flat_map surely_binds ss ++ bound))
         (block ex ss).
Proof.
  induction 1 as [|s ss Hs _ IH]; intros bound Hok; simpl.
  - apply safe_ok.
  - simpl in Hok. apply andb_true_iff in Hok. destruct Hok as [H1 H2].
    eapply safe_seq; [now apply Hs|].
    eapply safe_weaken; [| |exact (IH _ H2)]; [auto|].
    intros g Hg y Hy. apply Hg. rewrite !in_app_iff in *. tauto.
Qed.

Lemma loop_safe p (body : value -> action) vs :
  (forall v, safe p p (body v)) -> safe p p (loop body vs).
Proof.
  intros H. induction vs as [|v vs IH]; simpl.
  - apply safe_ok.
  - eapply safe_seq; [apply H|exact IH].
Qed.

(** A scoped statement raises only what a runtime operation raised, and
    leaves the names it binds bound. *)
Lemma exec_safe s :
  forall bound,
    scoped bound s = true ->
    safe (covers bound) (covers (surely_binds s ++ bound)) (exec s).
Proof.
  induction s as
    [ m a | l | t v | v | t iter body IHbody | f params body IHbody | v
    | body IHbody handler IHhandler ]; intros bound Hok; simpl in Hok;
    try discriminate.
  - intros g w Hg. simpl. eapply sound_lift; [apply loudM_call|].
    intros v w' _. destruct a; now apply safe_bind_name.
  - intros g w Hg. simpl. eapply sound_lift; [apply loudM_call|].
    intros. now apply safe_ok.
  - apply andb_true_iff in Hok. destruct Hok as [Hv Ht].
    intros g w Hg. simpl. eapply sound_lift.
    + apply eval_loud. eapply names_known; eauto.
    + intros x w' _. eapply assign_safe; eauto. apply incl_refl.
  - intros g w Hg. simpl. eapply sound_lift.
    + apply eval_loud. eapply names_known; eauto.
    + intros. now apply safe_ok.
  - apply andb_true_iff in Hok. destruct Hok as [Hok Hbody].
    apply andb_true_iff in Hok. destruct Hok as [Hiter Ht].
    intros g w Hg. simpl. eapply sound_lift.
    + eapply loudM_bind; [|intros; apply loudM_call].
      apply eval_loud. eapply names_known; eauto.
    + intros it w' _. apply loop_safe; [|exact Hg]. intros x.
      eapply safe_seq; [eapply assign_safe; eauto; apply incl_refl|].
      eapply safe_weaken;
        [| |exact (block_safe exec body
                     (ExecFacts.list_all_Forall _ _ IHbody) _ Hbody)];
        [auto|].
      intros g' Hg' y Hy. apply Hg'. rewrite !in_app_iff. tauto.
  - intros g w Hg. simpl. eapply sound_lift.
    + apply loudM_mapM. apply List.Forall_forall. intros p Hp.
      apply loudM_optM. intros e He. apply eval_loud.
      rewrite forallb_forall in Hok. specialize (Hok p Hp).
      rewrite He in Hok. simpl in Hok. eapply names_known; eauto.
    + intros ds w' _. now apply safe_bind_name.
Qed.

Lemma exec_cell_safe ss :
  forall bound,
    scoped_block scoped bound ss = true ->
    safe (covers bound) (covers (flat_map surely_binds ss ++ bound))
         (exec_cell ss).
Proof.
  induction ss as [|s ss IH]; intros bound Hok.
  - apply safe_ok.
  - simpl in Hok. apply andb_true_iff in Hok. destruct Hok as [H1 H2].
    assert (Hseq : safe (covers bound)
                        (covers (flat_map surely_binds (s :: ss) ++ bound))
                        (seq (exec s) (exec_cell ss))).
    { eapply safe_seq; [now apply exec_safe|].
      eapply safe_weaken; [| |exact (IH _ H2)]; [auto|].
      intros g Hg y Hy. apply Hg. simpl in Hy.
      rewrite !in_app_iff in *. tauto. }
    destruct s; try exact Hseq.
    destruct ss; [|exact Hseq].
    intros g w Hg. simpl. eapply sound_lift.
    + eapply loudM_bind; [|intros; apply loudM_call].
      apply eval_loud. eapply names_known; eauto.
    + intros. now apply safe_ok.
Qed.

Lemma run_all_safe cs :
  forall bound,
    scoped_cells bound cs = true ->
    safe (covers bound) (fun _ => True) (run_all cs).
Proof.
  induction cs as [|c cs IH]; intros bound Hok; simpl.
  - intros g w _. split; [constructor|auto].
  - simpl in Hok. apply andb_true_iff in Hok. destruct Hok as [H1 H2].
    eapply safe_seq; [apply exec_cell_safe; exact H1|now apply IH].
Qed.

Lemma run_all_keeps x cs :
  ~ In x (flat_map cell_binds cs) -> keeps x (run_all cs).
Proof.
  induction cs as [|c cs IH]; intros Hx; simpl.
  - apply ExecFacts.keeps_ok.
  - simpl in Hx. rewrite in_app_iff in Hx.
    apply ExecFacts.keeps_seq;
      [apply ExecFacts.exec_cell_keeps|apply IH]; tauto.
Qed.

End Scoped.

Lemma trees_well_behaved : well_behaved Trees.trees.
Proof.
  split.
  - intros x Hx. apply FlowFacts.mem_In in Hx.
    change (builtin x)
      with (if mem x Flow.builtins then Some (Trees.Leaf x) else None).
    now rewrite Hx.
  - intros n args w w' u. simpl. unfold Trees.tree_perform.
    destruct w as [|w0]; [discriminate|].
    destruct args as [|v [|]]; try discriminate.
    destruct (Nat.eqb (length (Trees.items_of v)) n) eqn:E; [|discriminate].
    intros [= _ <-]. now apply Nat.eqb_eq.
Qed.

(** X1.  Run from top to bottom in a fresh kernel, over any runtime whose
    builtins [print], [len] and [range] exist and whose unpacking yields as
    many items as there are targets, neither notebook reads a name before
    it is bound or misplaces a statement: when the run stops with an
    exception, that exception is the one the last library operation
    raised, in the namespace the run leaves, and every operation before
    it succeeded; when it does not, every operation succeeded. *)
Theorem run_all_reads_bound_names {R : Runtime} (nb : notebook) (w : world) :
  well_behaved R -> In nb Src.notebooks ->
  let o := run_all (nb_cells nb) ∅ w in
  match out_raised o with
  | Some x => failed_last (out_globals o) x (out_trace o)
  | None => Forall quiet (out_trace o)
  end.
Proof.
  intros Hw Hnb.
  assert (H : forallb (fun nb => scoped_cells [] (nb_cells nb)) Src.notebooks
              = true) by (vm_compute; reflexivity).
  rewrite forallb_forall in H. specialize (H nb Hnb).
  destruct (run_all_safe Hw (nb_cells nb) [] H ∅ w) as [Hl _];
    [intros x []|exact Hl].
Qed.

Lemma run_all_reads_bound_names_witness :
  well_behaved Trees.trees /\ In Src.lewinson_01 Src.notebooks
  /\ let o := run_all (R := Trees.trees) (nb_cells Src.lewinson_01) ∅ 40%nat in
     match out_raised o with
     | Some x => failed_last (out_globals o) x (out_trace o)
     | None => Forall quiet (out_trace o)
     end.
Proof.
  assert (Hw : well_behaved Trees.trees) by exact trees_well_behaved.
  assert (Hnb : In Src.lewinson_01 Src.notebooks) by (simpl; tauto).
  split; [exact Hw|split; [exact Hnb|]].
  exact (run_all_reads_bound_names (R := Trees.trees) Src.lewinson_01 40%nat
           Hw Hnb).
Defined.

(** X2.  In both notebooks every name bound by an [import] or a [def] is
    bound by one cell only, and the cells that run after that cell, run
    one after the other over any runtime, from any namespace and world,
    leave the name bound to what it was bound to: no module alias and no
    function is rebound. *)
Theorem imports_and_functions_stay {R : Runtime} (nb : notebook) (x : string) :
  In nb Src.notebooks -> In x (fixed_names nb) ->
  exists before c after,
    nb_cells nb = (before ++ c :: after)%list
    /\ In x (cell_binds c)
    /\ ~ In x (flat_map cell_binds before)
    /\ keeps x (run_all after).
Proof.
  intros Hnb Hx.
  assert (H : forallb (fun nb =>
                forallb (fun x =>
                  existsb (fun k =>
                    mem x (opt_list cell_binds (nth_error (nb_cells nb) k))
                    && negb (mem x (flat_map cell_binds
                                      (firstn k (nb_cells nb))))
                    && negb (mem x (flat_map cell_binds
                                      (skipn (S k) (nb_cells nb)))))
                    (List.seq 0 (length (nb_cells nb))))
                  (fixed_names nb)) Src.notebooks = true)
    by (vm_compute; reflexivity).
  rewrite forallb_forall in H. specialize (H nb Hnb).
  rewrite forallb_forall in H. specialize (H x Hx).
  apply existsb_exists in H. destruct H as (k & _ & H).
  apply andb_true_iff in H. destruct H as [H H3].
  apply andb_true_iff in H. destruct H as [H1 H2].
  destruct (nth_error (nb_cells nb) k) as [c|] eqn:E; [|discriminate].
  apply nth_error_split in E. destruct E as (before & after & Hcells & Hk).
  exists before, c, after. rewrite Hcells in *.
  assert (Hf : firstn k (before ++ c :: after) = before).
  { rewrite <- Hk. rewrite firstn_app, Nat.sub_diag, firstn_all. simpl.
    apply app_nil_r. }
  assert (Hs : skipn (S k) (before ++ c :: after) = after).
  { rewrite <- Hk. rewrite skipn_app, skipn_all2 by lia.
    replace (S (length before) - length before)%nat with 1%nat by lia.
    reflexivity. }
  rewrite Hf in H2. rewrite Hs in H3.
  repeat split.
  - now apply FlowFacts.mem_In.
  - intros Hin. apply FlowFacts.mem_In in Hin. now rewrite Hin in H2.
  - apply run_all_keeps. intros Hin. apply FlowFacts.mem_In in Hin.
    now rewrite Hin in H3.
Qed.

Lemma imports_and_functions_stay_witness :
  In Src.mckinney_10 Src.notebooks
  /\ In "peak_to_peak" (fixed_names Src.mckinney_10)
  /\ exists before c after,
       nb_cells Src.mckinney_10 = (before ++ c :: after)%list
       /\ In "peak_to_peak" (cell_binds c)
       /\ ~ In "peak_to_peak" (flat_map cell_binds before)
       /\ keeps (R := Trees.trees) "peak_to_peak" (run_all after).
Proof.
  assert (Hnb : In Src.mckinney_10 Src.notebooks) by (simpl; tauto).
  assert (Hx : In "peak_to_peak" (fixed_names Src.mckinney_10))
    by (vm_compute; tauto).
  split; [exact Hnb|split; [exact Hx|]].
  exact (imports_and_functions_stay (R := Trees.trees) Src.mckinney_10
           "peak_to_peak" Hnb Hx).
Defined.

End RunFacts.

(** ** The two functions outside their intended inputs *)

Module EdgeFacts.
Import Pandas Sample.

Lemma no_text_existsb vs : existsb is_text vs = false <-> no_text vs.
Proof.
  unfold no_text. induction vs as [|v vs IH]; simpl.
  - split; [constructor|reflexivity].
  - rewrite orb_false_iff, IH. split.
    + intros [Hv Hvs]. now constructor.
    + intros H. inversion H; subst. now split.
Qed.

(** What a reduction gives on an array that holds a string: a string, or
    [TypeError] when the array also holds a number. *)
Lemma reduce_greater_text vs :
  existsb is_text vs = true ->
  reduce greater vs = Raise TypeError
  \/ exists s, reduce greater vs = Ok (Text s).
Proof.
  induction vs as [|v vs IH]; [discriminate|]. simpl existsb. intros H.
  destruct v as [q|s|]; simpl in H.
  - destruct (IH H) as [E|[s E]]; cbn; rewrite E; cbn; auto.
  - destruct (existsb is_text vs) eqn:Et.
    + destruct (IH eq_refl) as [E|[s' E]]; cbn; rewrite E; cbn; eauto.
    + apply no_text_existsb in Et.
      pose proof (RangeFacts.max_greatest vs Et) as Hm.
      destruct (numbers vs).
      * cbn. rewrite Hm. cbn. eauto.
      * destruct Hm as (hi & E & _). cbn. rewrite E. cbn. auto.
  - cbn. auto.
Qed.

Lemma reduce_smaller_text vs :
  existsb is_text vs = true ->
  reduce smaller vs = Raise TypeError
  \/ exists s, reduce smaller vs = Ok (Text s).
Proof.
  induction vs as [|v vs IH]; [discriminate|]. simpl existsb. intros H.
  destruct v as [q|s|]; simpl in H.
  - destruct (IH H) as [E|[s E]]; cbn; rewrite E; cbn; auto.
  - destruct (existsb is_text vs) eqn:Et.
    + destruct (IH eq_refl) as [E|[s' E]]; cbn; rewrite E; cbn; eauto.
    + apply no_text_existsb in Et.
      pose proof (RangeFacts.min_least vs Et) as Hm.
      destruct (numbers vs).
      * cbn. rewrite Hm. cbn. eauto.
      * destruct Hm as (lo & E & _). cbn. rewrite E. cbn. auto.
  - cbn. auto.
Qed.

Lemma peak_to_peak_text `{Arithmetic} arr :
  existsb is_text (s_values arr) = true ->
  User.peak_to_peak arr = Raise TypeError.
Proof.
  intros Ht. unfold User.peak_to_peak, max, min.
  destruct (reduce_greater_text _ Ht) as [E|[s E]]; rewrite E; cbn;
    [reflexivity|].
  destruct (reduce_smaller_text _ Ht) as [E'|[s' E']]; rewrite E'; reflexivity.
Qed.

Lemma peak_to_peak_no_text `{Arithmetic} arr :
  existsb is_text (s_values arr) = false ->
  User.peak_to_peak arr = Ok (Entry NaN)
  \/ exists hi lo, User.peak_to_peak arr = Ok (minus hi lo).
Proof.
  intros Ht. apply no_text_existsb in Ht.
  pose proof (RangeFacts.max_greatest _ Ht) as Hmax.
  pose proof (RangeFacts.min_least _ Ht) as Hmin.
  unfold User.peak_to_peak, max, min.
  destruct (numbers (s_values arr)).
  - rewrite Hmax, Hmin. cbn. now left.
  - destruct Hmax as (hi & E1 & _). destruct Hmin as (lo & E2 & _).
    rewrite E1, E2. cbn. right. now exists hi, lo.
Qed.

Lemma round64_no_text q s : NumPy.round64 q <> Entry (Text s).
Proof.
  unfold NumPy.round64, NumPy.round64_pos.
  destruct (Qnum q); [discriminate| |];
    match goal with |- context [if ?c then _ else _] => destruct c end;
    discriminate.
Qed.

(** X3.  Among the arrays of finite numbers, strings and missing values,
    whatever the arithmetic of the dtype: [peak_to_peak] raises
    [TypeError] on every array that holds a string, be it one string among
    missing values only (from comparing a string with a number, or from
    subtracting two strings), and it raises nothing on an array that holds
    none.  In float64 and in int64 arithmetic it never returns a
    string. *)
Theorem peak_to_peak_rejects_strings (arr : Series) :
  (existsb is_text (s_values arr) = true ->
   forall A : Arithmetic, User.peak_to_peak arr = Raise TypeError)
  /\ (existsb is_text (s_values arr) = false ->
      forall A : Arithmetic, exists d, User.peak_to_peak arr = Ok d)
  /\ (forall s, User.peak_to_peak (H := NumPy.float64_arithmetic) arr
                <> Ok (Entry (Text s)))
  /\ (forall s, User.peak_to_peak (H := NumPy.int64_arithmetic) arr
                <> Ok (Entry (Text s))).
Proof.
  split; [|split; [|split]].
  - intros Ht A. now apply peak_to_peak_text.
  - intros Ht A.
    destruct (peak_to_peak_no_text arr Ht) as [E|(hi & lo & E)]; eauto.
  - intros s. destruct (existsb is_text (s_values arr)) eqn:Ht.
    + rewrite (peak_to_peak_text arr Ht). discriminate.
    + destruct (peak_to_peak_no_text (H := NumPy.float64_arithmetic) arr Ht)
        as [E|(hi & lo & E)]; rewrite E; [discriminate|].
      intros [= E']. exact (round64_no_text _ _ E').
  - intros s. destruct (existsb is_text (s_values arr)) eqn:Ht.
    + rewrite (peak_to_peak_text arr Ht). discriminate.
    + destruct (peak_to_peak_no_text (H := NumPy.int64_arithmetic) arr Ht)
        as [E|(hi & lo & E)]; rewrite E; discriminate.
Qed.

Lemma peak_to_peak_rejects_strings_witness :
  User.peak_to_peak (H := NumPy.float64_arithmetic)
                    {| s_index := [LInt 0; LInt 1];
                       s_values := [NaN; Text "a"] |} = Raise TypeError.
Proof.
  apply (peak_to_peak_rejects_strings
           {| s_index := [LInt 0; LInt 1]; s_values := [NaN; Text "a"] |}).
  reflexivity.
Defined.

Lemma numbers_incl part whole :
  incl part whole -> incl (numbers part) (numbers whole).
Proof.
  intros Hi q Hq. unfold numbers in *. apply in_flat_map in Hq.
  destruct Hq as (v & Hv & Hq). apply in_flat_map. exists v.
  split; [now apply Hi|assumption].
Qed.

Lemma position_None c cs : position c cs = None <-> ~ In c cs.
Proof.
  induction cs as [|c' cs IH]; simpl; [tauto|].
  destruct (String.eqb c c') eqn:E.
  - apply String.eqb_eq in E. subst. split; [discriminate|]. tauto.
  - apply String.eqb_neq in E. destruct (position c cs) as [j|].
    + split; [discriminate|]. intros H. exfalso. apply H. right.
      destruct IH as [_ IH].
      destruct (in_dec string_dec c cs) as [Hin|Hn]; [assumption|].
      specialize (IH Hn). discriminate IH.
    + split; [|reflexivity]. intros _ [H|H]; [congruence|]. now apply IH.
Qed.

Lemma In_firstn {A} n (l : list A) a : In a (firstn n l) -> In a l.
Proof.
  intros H. rewrite <- (firstn_skipn n l). apply in_or_app. now left.
Qed.

#[local] Abbreviation by_column i :=
  (fun a b : label * list scalar => key_leb (entry i a) (entry i b)).

(** What [top] does, case by case. *)
Lemma top_cases `{Sorter} x col n :
  match position col (columns x) with
  | None => User.top x col n = Raise (KeyError col)
  | Some i =>
      if (1 <? occurrences col (columns x))%nat
      then User.top x col n = Raise ValueError
      else if mixed (map (entry i) (rows x))
      then User.top x col n = Raise TypeError
      else User.top x col n
           = Ok (head n {| dtypes := dtypes x;
                           rows := sort_rows (by_column i) (rows x) |})
  end.
Proof.
  unfold User.top, sort_values. destruct (position col (columns x)) as [i|];
    [|reflexivity].
  destruct (1 <? occurrences col (columns x))%nat; [reflexivity|].
  destruct (mixed (map (entry i) (rows x))); reflexivity.
Qed.

(** X4.  What [top] raises, case by case, on a frame whose index has no
    name, whatever [n] is and however the sort orders equal keys.  Without
    a column [col]: [KeyError(col)].  With more than one column labelled
    [col]: [ValueError].  With exactly one, holding both numbers and
    strings: [TypeError].  With exactly one that does not mix them: no
    exception; a well-formed frame is always in one of the cases other
    than the third. *)
Theorem top_errors `{Sorter} (x : DataFrame) (col : string) (n : Z) :
  (~ In col (columns x) -> User.top x col n = Raise (KeyError col))
  /\ ((1 < occurrences col (columns x))%nat ->
      User.top x col n = Raise ValueError)
  /\ (forall i,
        occurrences col (columns x) = 1%nat ->
        position col (columns x) = Some i ->
        if mixed (map (entry i) (rows x))
        then User.top x col n = Raise TypeError /\ well_formed x = false
        else exists r, User.top x col n = Ok r).
Proof.
  pose proof (top_cases x col n) as Hc.
  split; [|split].
  - intros Hn. apply position_None in Hn. now rewrite Hn in Hc.
  - intros Hmany.
    destruct (SortFacts.occurrences_position col (columns x)) as (i & Hi);
      [lia|].
    rewrite Hi in Hc. apply Nat.ltb_lt in Hmany. now rewrite Hmany in Hc.
  - intros i Hone Hi. rewrite Hi, Hone in Hc. cbn in Hc.
    destruct (mixed (map (entry i) (rows x))) eqn:Em; [|eauto].
    split; [exact Hc|].
    destruct (well_formed x) eqn:Hwf; [|reflexivity].
    pose proof (SortFacts.well_formed_not_mixed x col i Hwf Hi
                  (SortFacts.position_nth_error _ _ _ Hi)).
    congruence.
Qed.

Lemma top_errors_witness :
  User.top Sample.spy "Volume" 3 = Raise (KeyError "Volume")
  /\ User.top Sample.repeated_label "v" 3 = Raise ValueError.
Proof.
  split.
  - apply (top_errors Sample.spy "Volume" 3).
    vm_compute. intros [Hv|[Hv|[]]]; discriminate.
  - apply (top_errors Sample.repeated_label "v" 3).
    unfold occurrences. simpl. lia.
Defined.

(** X5.  A negative [n] makes [top] leave out the last [-n] rows of the
    sorted frame: [top(x, col, n)] is [top(x, col, len(x) + n)], and the
    empty frame when [-n] is the number of rows or more. *)
Theorem top_negative `{Sorter} (x : DataFrame) (col : string) (n : Z) :
  (n < 0)%Z ->
  User.top x col n
  = User.top x col (Z.max 0 (Z.of_nat (length (rows x)) + n)).
Proof.
  intros Hn.
  pose proof (top_cases x col n) as H1.
  pose proof (top_cases x col (Z.max 0 (Z.of_nat (length (rows x)) + n)))
    as H2.
  destruct (position col (columns x)) as [i|]; [|congruence].
  destruct (1 <? occurrences col (columns x))%nat; [congruence|].
  destruct (mixed (map (entry i) (rows x))); [congruence|].
  rewrite H1, H2. unfold head. cbn [rows dtypes]. f_equal. f_equal.
  assert (Hlen : length (sort_rows (by_column i) (rows x)) = length (rows x))
    by (apply Permutation_length, sort_rows_perm).
  rewrite Hlen.
  destruct (Z.ltb_spec n 0); [|lia].
  destruct (Z.ltb_spec (Z.max 0 (Z.of_nat (length (rows x)) + n)) 0); [lia|].
  f_equal. lia.
Qed.

Lemma top_negative_witness :
  User.top Sample.spy "Return" (-1)
  = User.top Sample.spy "Return"
      (Z.max 0 (Z.of_nat (length (rows Sample.spy)) + -1)).
Proof. apply (top_negative Sample.spy "Return" (-1)). lia. Defined.

Lemma existsb_incl {A} (f : A -> bool) l1 l2 :
  incl l1 l2 -> existsb f l2 = false -> existsb f l1 = false.
Proof.
  intros Hi Hf. apply not_true_is_false. intros H1.
  apply existsb_exists in H1. destruct H1 as (a & Ha & Hfa).
  assert (H2 : existsb f l2 = true)
    by (apply existsb_exists; exists a; split; [now apply Hi|assumption]).
  congruence.
Qed.

Lemma mixed_incl l1 l2 : incl l1 l2 -> mixed l2 = false -> mixed l1 = false.
Proof.
  unfold mixed. intros Hi Hm. apply andb_false_iff in Hm.
  apply andb_false_iff. destruct Hm as [Hm|Hm]; [left|right];
    eapply existsb_incl; eauto.
Qed.

(** X6.  Taking the top [m] rows of the top [n] rows by the same column,
    for [n, m >= 0], however the sort orders equal keys.  When
    [top(x, col, n)] raises, [top(x, col, min(n, m))] raises the same.
    Otherwise the second [top] succeeds, and what it returns is a choice
    of [min(n, m)] smallest rows of [x] (all rows if [x] has fewer), in
    ascending order of [col]: its rows with the rows [rest] make up
    [x], and no row of [rest] has a smaller key.  With equal keys these
    need not be the very rows that [top(x, col, min(n, m))] returns. *)
Theorem top_of_top `{Sorter} (x : DataFrame) (col : string) (n m : Z) :
  (0 <= n)%Z -> (0 <= m)%Z ->
  match User.top x col n with
  | Raise e => User.top x col (Z.min n m) = Raise e
  | Ok r =>
      exists i r2 rest,
        position col (columns x) = Some i
        /\ User.top r col m = Ok r2
        /\ dtypes r2 = dtypes x
        /\ length (rows r2)
           = Nat.min (Z.to_nat (Z.min n m)) (length (rows x))
        /\ Permutation (rows x) (rows r2 ++ rest)
        /\ StronglySorted (fun a b => by_column i a b = true) (rows r2)
        /\ (forall a b, In a (rows r2) -> In b rest ->
                        by_column i a b = true)
  end.
Proof.
  intros Hn Hm.
  pose proof (top_cases x col n) as H1.
  pose proof (top_cases x col (Z.min n m)) as H2.
  destruct (position col (columns x)) as [i|] eqn:Ep;
    [|rewrite H1; exact H2].
  destruct (1 <? occurrences col (columns x))%nat eqn:Eo;
    [rewrite H1; exact H2|].
  destruct (mixed (map (entry i) (rows x))) eqn:Em;
    [rewrite H1; exact H2|].
  rewrite H1. clear H1 H2.
  set (s := sort_rows (by_column i) (rows x)).
  assert (Hperm : Permutation s (rows x)) by apply sort_rows_perm.
  assert (Hs : StronglySorted (fun a b => by_column i a b = true) s).
  { apply sort_rows_sorted.
    - intros a b. apply SortFacts.key_leb_total.
    - intros a b c. apply SortFacts.key_leb_trans. }
  assert (Hrows : rows (head n {| dtypes := dtypes x; rows := s |})
                  = firstn (Z.to_nat n) s).
  { unfold head. cbn [rows]. destruct (Z.ltb_spec n 0); [lia|reflexivity]. }
  pose proof (top_cases (head n {| dtypes := dtypes x; rows := s |}) col m)
    as H3.
  rewrite Hrows in H3. unfold columns in H3. cbn [head dtypes] in H3.
  unfold columns in Ep, Eo. rewrite Ep, Eo in H3.
  assert (Hmix : mixed (map (entry i) (firstn (Z.to_nat n) s)) = false).
  { eapply mixed_incl; [|exact Em]. intros v Hv.
    apply in_map_iff in Hv. destruct Hv as (r & <- & Hr).
    apply in_map. apply In_firstn in Hr.
    eapply Permutation_in; [exact Hperm|exact Hr]. }
  rewrite Hmix in H3.
  set (s2 := sort_rows (by_column i) (firstn (Z.to_nat n) s)) in *.
  assert (Hperm2 : Permutation s2 (firstn (Z.to_nat n) s))
    by apply sort_rows_perm.
  assert (Hs2 : StronglySorted (fun a b => by_column i a b = true) s2).
  { apply sort_rows_sorted.
    - intros a b. apply SortFacts.key_leb_total.
    - intros a b c. apply SortFacts.key_leb_trans. }
  exists i, (head m {| dtypes := dtypes x; rows := s2 |}),
         (skipn (Z.to_nat m) s2 ++ skipn (Z.to_nat n) s)%list.
  assert (Hrows2 : rows (head m {| dtypes := dtypes x; rows := s2 |})
                   = firstn (Z.to_nat m) s2).
  { unfold head. cbn [rows]. destruct (Z.ltb_spec m 0); [lia|reflexivity]. }
  rewrite Hrows2.
  rewrite <- (firstn_skipn (Z.to_nat m) s2) in Hs2.
  apply SortFacts.sorted_app in Hs2. destruct Hs2 as [Hs2 Hcross2].
  rewrite <- (firstn_skipn (Z.to_nat n) s) in Hs.
  apply SortFacts.sorted_app in Hs. destruct Hs as [_ Hcross].
  split; [reflexivity|]. split; [exact H3|]. split; [reflexivity|].
  split; [|split; [|split; [exact Hs2|]]].
  - rewrite length_firstn, (Permutation_length Hperm2), length_firstn,
      (Permutation_length Hperm). lia.
  - rewrite app_assoc, firstn_skipn.
    rewrite <- Hperm, <- (firstn_skipn (Z.to_nat n) s) at 1.
    apply Permutation_app_tail. now symmetry.
  - intros a b Ha Hb. apply in_app_or in Hb. destruct Hb as [Hb|Hb].
    + now apply Hcross2.
    + apply Hcross; [|exact Hb].
      apply In_firstn in Ha. eapply Permutation_in; [exact Hperm2|exact Ha].
Qed.

Lemma top_of_top_witness :
  exists r r2,
    User.top Sample.paired "data1" 3 = Ok r
    /\ User.top r "data1" 2 = Ok r2
    /\ length (rows r2) = 2%nat.
Proof.
  pose proof (top_of_top Sample.paired "data1" 3 2) as Ht.
  destruct (User.top Sample.paired "data1" 3) as [r|e] eqn:E;
    [|discriminate E].
  destruct Ht as (i & r2 & rest & _ & H2 & _ & Hlen & _); [lia|lia|].
  exists r, r2. split; [reflexivity|]. split; [exact H2|].
  rewrite Hlen. reflexivity.
Defined.

(** X7.  [top] keeps a frame well formed: what it returns has the columns
    and column types of [x], and every row still has one entry of the
    column's type per column. *)
Theorem top_well_formed `{Sorter} (x r : DataFrame) (col : string) (n : Z) :
  well_formed x = true -> User.top x col n = Ok r ->
  dtypes r = dtypes x /\ well_formed r = true.
Proof.
  intros Hwf Hr. pose proof (top_cases x col n) as Hc.
  destruct (position col (columns x)) as [i|]; [|congruence].
  destruct (1 <? occurrences col (columns x))%nat; [congruence|].
  destruct (mixed (map (entry i) (rows x))); [congruence|].
  rewrite Hc in Hr. injection Hr as <-. split; [reflexivity|].
  unfold well_formed in *. cbn [head dtypes rows].
  rewrite forallb_forall in *. intros a Ha. apply Hwf.
  eapply Permutation_in; [apply sort_rows_perm|].
  destruct (n <? 0)%Z; eapply In_firstn; exact Ha.
Qed.

Lemma top_well_formed_witness :
  dtypes (head 2 Drawn.df) = dtypes Drawn.df
  /\ well_formed (head 2 Drawn.df) = true.
Proof.
  apply (top_well_formed Drawn.df (head 2 Drawn.df) "data1" 2).
  - reflexivity.
  - reflexivity.
Defined.

End EdgeFacts.

(** ** The monthly pipeline outside its intended inputs *)

Module PipelineFacts.
Import Pandas Sample ListFacts.

#[local] Arguments mean_value : simpl never.
#[local] Arguments std_value : simpl never.
#[local] Arguments numbers : simpl never.
#[local] Arguments period : simpl never.
#[local] Arguments month_entries : simpl never.
#[local] Arguments mul_scalar : simpl never.
#[local] Arguments inject_Z : simpl never.
#[local] Arguments Z.of_nat : simpl never.
#[local] Arguments Qle_bool : simpl never.
#[local] Arguments Nat.leb : simpl never.
#[local] Arguments agg : simpl never.
#[local] Arguments query_ge : simpl never.
#[local] Arguments drop : simpl never.
#[local] Arguments mul : simpl never.

Lemma resample_cases (x : DataFrame) :
  if datetime_index x
  then resample_M x = Ok {| rs_frame := x; rs_bins := months x |}
  else resample_M x = Raise TypeError.
Proof.
  destruct (datetime_index x) eqn:E; [now apply MonthlyFacts.resample_ok|].
  unfold resample_M, datetime_index in *.
  induction (rows x) as [|r l IH]; [discriminate|].
  simpl in E. cbn. destruct (month_ordinal (fst r)); [|reflexivity].
  simpl in E. specialize (IH E). cbn.
  destruct (mapM _ l); [discriminate IH|].
  cbn in *. congruence.
Qed.

Lemma resample_plain (x : DataFrame) :
  existsb (fun r => plain_label (fst r)) (rows x) = true ->
  resample_M x = Raise TypeError.
Proof.
  intros Hp. pose proof (resample_cases x) as Hc.
  destruct (datetime_index x) eqn:E; [|exact Hc].
  exfalso. apply existsb_exists in Hp. destruct Hp as (r & Hr & Hp).
  unfold datetime_index in E. rewrite forallb_forall in E.
  specialize (E r Hr). destruct (fst r); discriminate.
Qed.

(** X8.  How the monthly pipeline fails at its first two steps.  On a
    frame whose index holds an integer or a string label it raises
    [TypeError] (from [resample]).  On a frame with rows, a date index and
    no column [Return] it raises [KeyError('Column not found: Return')]
    (from selecting the column). *)
Theorem spy_m_errors `{RealOps} (spy : DataFrame) :
  (existsb (fun r => plain_label (fst r)) (rows spy) = true ->
   User.spy_m spy = Raise TypeError)
  /\ (datetime_index spy = true -> rows spy <> [] ->
      ~ In "Return" (columns spy) ->
      User.spy_m spy = Raise (KeyError "Column not found: Return")).
Proof.
  split.
  - intros Hp. unfold User.spy_m. now rewrite (resample_plain spy Hp).
  - intros Hd _ Hn. pose proof (resample_cases spy) as Hr.
    rewrite Hd in Hr. unfold User.spy_m. rewrite Hr. cbn.
    unfold resampler_getitem. cbn [rs_frame rs_bins].
    apply EdgeFacts.position_None in Hn. now rewrite Hn.
Qed.

Lemma spy_m_errors_witness :
  User.spy_m (H := newton_sqrt)
             {| dtypes := [("Close", float64)];
                rows := [(LInt 0, [Num 1])] |} = Raise TypeError
  /\ User.spy_m (H := newton_sqrt)
                {| dtypes := [("Close", float64)];
                   rows := [(LDate 2020 1 2, [Num 1])] |}
     = Raise (KeyError "Column not found: Return").
Proof.
  split.
  - apply (spy_m_errors (H := newton_sqrt)
             {| dtypes := [("Close", float64)];
                rows := [(LInt 0, [Num 1])] |}).
    reflexivity.
  - apply (spy_m_errors (H := newton_sqrt)
             {| dtypes := [("Close", float64)];
                rows := [(LDate 2020 1 2, [Num 1])] |}).
    + reflexivity.
    + discriminate.
    + simpl. intros [Hc|[]]. discriminate Hc.
Defined.

Lemma mapM_Ok_inv {A B} (f : A -> result B) (g : A -> B) (l : list A) bs :
  (forall a b, In a l -> f a = Ok b -> b = g a) ->
  mapM f l = Ok bs -> bs = map g l.
Proof.
  revert bs. induction l as [|a l IH]; intros bs H E.
  - cbn in E. now injection E as <-.
  - cbn in E. destruct (f a) as [b|] eqn:Ea; [|discriminate E]. cbn in E.
    destruct (mapM f l) as [bs'|] eqn:El; [|discriminate E]. cbn in E.
    injection E as <-. simpl. f_equal.
    + apply H; [now left|assumption].
    + apply IH; [|reflexivity]. intros a' b' Hin. apply H. now right.
Qed.

(** The number of entries of a column that are not missing. *)
#[local] Abbreviation present vs :=
  (length (List.filter (fun v => negb (is_missing v)) vs)).

Lemma agg_rows `{RealOps} (groups : list (Z * list scalar)) a :
  agg ["mean"; "std"; "count"] groups = Ok a ->
  a = {| dtypes := [("mean", float64); ("std", float64); ("count", float64)];
         rows := map (fun g =>
                        (period (fst g),
                         [mean_value (snd g); std_value (snd g);
                          Num (inject_Z (Z.of_nat (present (snd g))))]))
                     groups |}.
Proof.
  unfold agg. cbn. intros E.
  destruct (mapM _ groups) as [rs|e] eqn:Em; [|discriminate E].
  cbn in E. injection E as <-. f_equal.
  eapply mapM_Ok_inv; [|exact Em]. intros g b _. cbn.
  unfold mean, std, count.
  destruct (existsb is_text (snd g)); cbn; [discriminate|].
  now intros [= <-].
Qed.

(** The months the first pipeline keeps and the rows it returns. *)
Lemma spy_m_rows `{RealOps} (spy t : DataFrame) :
  User.spy_m spy = Ok t ->
  exists i,
    position "Return" (columns spy) = Some i
    /\ map fst (rows t)
       = map period
           (List.filter (fun o => (15 <=? present (month_entries i spy o))%nat)
                        (months spy)).
Proof.
  intros E. unfold User.spy_m in E.
  pose proof (resample_cases spy) as Hr.
  destruct (datetime_index spy); rewrite Hr in E; [|discriminate E].
  cbn in E. unfold resampler_getitem in E. cbn [rs_frame rs_bins] in E.
  destruct (position "Return" (columns spy)) as [i|]; [|discriminate E].
  exists i. split; [reflexivity|]. cbn in E.
  fold (month_entries i spy) in E.
  destruct (agg _ _) as [a|] eqn:Ea; [|discriminate E].
  apply agg_rows in Ea. subst a. cbn in E.
  unfold query_ge, columns in E. cbn in E.
  rewrite existsb_map_false in E by (intros; reflexivity).
  cbn in E. unfold drop, columns in E. cbn in E. injection E as <-.
  unfold mul. cbn [rows]. rewrite (map_map _ _ (months spy)).
  rewrite filter_map_swap, !map_map. cbn [fst].
  f_equal. apply filter_ext. intros o. unfold entry. cbn [snd nth].
  apply MonthlyFacts.enough_observations.
Qed.

Lemma spy_m_shape `{RealOps} (spy t : DataFrame) :
  User.spy_m spy = Ok t -> dtypes t = [("mean", float64); ("std", float64)].
Proof.
  intros E. unfold User.spy_m in E.
  destruct (resample_M spy) as [r|]; [|discriminate E]. cbn in E.
  destruct (resampler_getitem "Return" r) as [g|]; [|discriminate E].
  cbn in E. destruct (agg _ g) as [a|] eqn:Ea; [|discriminate E].
  apply agg_rows in Ea. subst a. cbn in E.
  unfold query_ge, columns in E. cbn in E.
  rewrite existsb_map_false in E by (intros; reflexivity).
  cbn in E. unfold drop, columns in E. cbn in E. now injection E as <-.
Qed.

Lemma range_sorted lo n :
  forall a,
    StronglySorted Z.lt (map (fun k => lo + Z.of_nat k)%Z (seq a n)).
Proof.
  induction n as [|n IH]; intros a; simpl; constructor; [apply IH|].
  apply List.Forall_forall. intros y Hy. apply in_map_iff in Hy.
  destruct Hy as (k & <- & Hk). apply in_seq in Hk. lia.
Qed.

Lemma month_range_sorted os : StronglySorted Z.lt (month_range os).
Proof. destruct os; [constructor|apply range_sorted]. Qed.

Lemma filter_sorted {A} (R : A -> A -> Prop) (f : A -> bool) l :
  StronglySorted R l -> StronglySorted R (List.filter f l).
Proof.
  induction 1 as [|a l Hl IH Ha]; simpl; [constructor|].
  destruct (f a); [|assumption]. constructor; [assumption|].
  rewrite List.Forall_forall in *. intros b Hb. apply filter_In in Hb.
  now apply Ha.
Qed.

(** A row falls in one month at most. *)
Lemma one_bin r os :
  StronglySorted Z.lt os ->
  (length (List.filter (fun o => in_month o r) os) <= 1)%nat.
Proof.
  induction 1 as [|a l Hl IH Ha]; simpl; [lia|].
  destruct (in_month a r) eqn:E; [|assumption]. simpl.
  assert (Hnone : List.filter (fun o => in_month o r) l = []).
  { unfold in_month in *. destruct (month_ordinal (fst r)) as [o'|];
      [|discriminate]. apply Z.eqb_eq in E. subst o'.
    clear IH Hl. induction l as [|b l IHl]; [reflexivity|].
    inversion Ha; subst. simpl.
    destruct (Z.eqb_spec b a); [lia|]. now apply IHl. }
  rewrite Hnone. simpl. lia.
Qed.

Lemma list_sum_filter_length {A} (f : A -> bool) l :
  list_sum (map (fun a => if f a then 1 else 0)%nat l)
  = length (List.filter f l).
Proof.
  induction l as [|a l IH]; [reflexivity|]. simpl.
  destruct (f a); simpl; now rewrite IH.
Qed.

(** The months' rows together are no more than the rows. *)
Lemma bins_within rs os :
  StronglySorted Z.lt os ->
  (list_sum (map (fun o => length (List.filter (in_month o) rs)) os)
   <= length rs)%nat.
Proof.
  intros Hos. induction rs as [|r rs IH]; simpl.
  - induction os as [|o os IHos]; [simpl; lia|].
    inversion Hos; subst. simpl. now apply IHos.
  - assert (E : list_sum (map (fun o =>
                   length (if in_month o r
                           then r :: List.filter (in_month o) rs
                           else List.filter (in_month o) rs)) os)
               = (length (List.filter (fun o => in_month o r) os)
                  + list_sum (map (fun o =>
                       length (List.filter (in_month o) rs)) os))%nat).
    { rewrite <- list_sum_filter_length. clear.
      induction os as [|o os IHos]; [reflexivity|]. simpl.
      rewrite IHos. destruct (in_month o r); simpl; lia. }
    rewrite E. pose proof (one_bin r os Hos). lia.
Qed.

Lemma present_le vs : (present vs <= length vs)%nat.
Proof. apply filter_length_le. Qed.

Lemma kept_months_bound (cnt size : Z -> nat) os :
  (forall o, cnt o <= size o)%nat ->
  (15 * length (List.filter (fun o => (15 <=? cnt o)%nat) os)
   <= list_sum (map size os))%nat.
Proof.
  intros H. induction os as [|o os IH]; simpl; [lia|].
  specialize (H o). destruct (Nat.leb_spec 15 (cnt o)); simpl; lia.
Qed.

(** X9.  Whenever the first pipeline returns a table: its rows are in
    calendar order and no month has two rows; and since a month is kept
    only with at least 15 returns, and a day belongs to one month, the
    table has at most one row for every 15 rows of [spy]. *)
Theorem spy_m_calendar_order `{RealOps} (spy t : DataFrame) :
  User.spy_m spy = Ok t ->
  (exists os, map fst (rows t) = map period os /\ StronglySorted Z.lt os)
  /\ (15 * length (rows t) <= length (rows spy))%nat.
Proof.
  intros E. destruct (spy_m_rows spy t E) as (i & _ & Hrows).
  assert (Hs : StronglySorted Z.lt (months spy)) by apply month_range_sorted.
  split.
  - eexists. split; [exact Hrows|]. now apply filter_sorted.
  - rewrite <- (length_map fst (rows t)), Hrows, length_map.
    etransitivity; [|apply (bins_within (rows spy) (months spy) Hs)].
    apply kept_months_bound. intros o. unfold month_entries.
    etransitivity; [apply present_le|]. now rewrite length_map.
Qed.

Lemma spy_m_calendar_order_witness :
  exists t,
    User.spy_m (H := newton_sqrt) Sample.spy = Ok t
    /\ (exists os, map fst (rows t) = map period os
                   /\ StronglySorted Z.lt os)
    /\ (15 * length (rows t) <= length (rows Sample.spy))%nat.
Proof.
  pose proof (MonthlyFacts.spy_m_closed_form (H := newton_sqrt) Sample.spy 1
                eq_refl eq_refl eq_refl) as E.
  eexists. split; [exact E|].
  apply (spy_m_calendar_order (H := newton_sqrt) Sample.spy). exact E.
Defined.

End PipelineFacts.

(** ** What the two seeded tables share *)

Module SeedFacts.
Import Pandas.

Section Seeded.
Context {G : NumPy.BitGenerator}.

Lemma randn2_S r c st :
  NumPy.randn2 (S r) c st
  = (fst (NumPy.randn c st)
       :: fst (NumPy.randn2 r c (snd (NumPy.randn c st))),
     snd (NumPy.randn2 r c (snd (NumPy.randn c st)))).
Proof.
  simpl. destruct (NumPy.randn c st) as [xs st1]. simpl.
  now destruct (NumPy.randn2 r c st1).
Qed.

Lemma five {A} (l : list A) :
  length l = 5%nat -> exists a b c d e, l = [a; b; c; d; e].
Proof.
  destruct l as [|a [|b [|c [|d [|e [|f l]]]]]]; try discriminate.
  intros _. now exists a, b, c, d, e.
Qed.

(** X10.  Both cells seed the generator with 42, so they see the same
    draws: column [data1] of [df] holds the five draws that fill the first
    row of [people] (Joe), and column [data2] the five draws that fill the
    second row (Steve). *)
Theorem df_columns_are_people_rows (k k' j j' : User.kernel)
        (df people : DataFrame) :
  User.cell_df k = Ok k' -> User.names k' !! "df" = Some df ->
  User.cell_people j = Ok j' -> User.names j' !! "people" = Some people ->
  exists data1 data2 joe steve rest,
    getitem "data1" df = Ok data1 /\ getitem "data2" df = Ok data2
    /\ rows people = (LStr "Joe", joe) :: (LStr "Steve", steve) :: rest
    /\ s_values data1 = joe /\ s_values data2 = steve.
Proof.
  unfold User.cell_df, User.cell_people, NumPy.seed.
  rewrite !randn2_S. cbn [NumPy.randn2 fst snd].
  pose proof (RandomFacts.randn_length 5 (NumPy.init 42)) as H1.
  destruct (NumPy.randn 5 (NumPy.init 42)) as [d1 st1].
  cbn [fst snd] in *.
  pose proof (RandomFacts.randn_length 5 st1) as H2.
  destruct (NumPy.randn 5 st1) as [d2 st2].
  cbn [fst snd] in *.
  destruct (five _ H1) as (a1 & a2 & a3 & a4 & a5 & ->).
  destruct (five _ H2) as (b1 & b2 & b3 & b4 & b5 & ->).
  unfold from_dict, from_matrix. cbn [map length Nat.eqb forallb andb snd].
  rewrite !length_map, !RandomFacts.randn_length.
  cbn [Nat.eqb andb mbind result_bind mret result_ret].
  intros [= <-]. cbn [User.names]. rewrite lookup_insert_eq. intros [= <-].
  intros [= <-]. cbn [User.names]. rewrite lookup_insert_eq. intros [= <-].
  do 5 eexists. cbn. repeat split; reflexivity.
Qed.

(** X11.  The people cell leaves the generator where the seed and its 25
    draws put it, whatever its state was before: the draws that fill
    [hier_df], made without seeding, are the same in every session in
    which no other draw is made between the two cells. *)
Theorem draws_after_people (k1 k2 k1' k2' : User.kernel) :
  User.cell_people k1 = Ok k1' -> User.cell_people k2 = Ok k2' ->
  User.rng k1' = User.rng k2'
  /\ User.draw_unseeded k1' = User.draw_unseeded k2'.
Proof.
  unfold User.cell_people, User.draw_unseeded, NumPy.seed.
  destruct (NumPy.randn2 5 5 (NumPy.init 42)) as [data st1].
  destruct (from_matrix _ _ _) as [people|]; [|discriminate].
  cbn. intros [= <-] [= <-]. split; reflexivity.
Qed.

End Seeded.

Lemma df_columns_are_people_rows_witness :
  exists data1 data2 joe steve rest,
    getitem "data1" Drawn.df = Ok data1
    /\ getitem "data2" Drawn.df = Ok data2
    /\ rows Drawn.people = (LStr "Joe", joe) :: (LStr "Steve", steve) :: rest
    /\ s_values data1 = joe /\ s_values data2 = steve.
Proof.
  apply (df_columns_are_people_rows (G := Sample.counter)
           (Drawn.fresh 0) Drawn.after_df (Drawn.fresh 7) Drawn.after_people).
  - vm_compute. reflexivity.
  - apply lookup_insert_eq.
  - vm_compute. reflexivity.
  - apply lookup_insert_eq.
Defined.

Lemma draws_after_people_witness :
  User.rng Drawn.after_people = User.rng Drawn.after_people
  /\ User.draw_unseeded Drawn.after_people
     = User.draw_unseeded Drawn.after_people.
Proof.
  apply (draws_after_people (G := Sample.counter)
           (Drawn.fresh 0) (Drawn.fresh 9)).
  - vm_compute. reflexivity.
  - vm_compute. reflexivity.
Defined.

End SeedFacts.

(** ** The lagged returns of the autocorrelation cells *)

Module LagFacts.
Import Pandas Lagged.

Lemma present_app l1 l2 : present (l1 ++ l2) = (present l1 + present l2)%nat.
Proof. unfold present. now rewrite List.filter_app, length_app. Qed.

Lemma present_repeat_NaN n : present (repeat NaN n) = 0%nat.
Proof. induction n; [reflexivity|assumption]. Qed.

Lemma firstn_repeat_min {A} (a : A) n t :
  firstn n (repeat a t) = repeat a (Nat.min t n).
Proof.
  revert t. induction n as [|n IH]; intros [|t]; try reflexivity.
  simpl. now rewrite IH.
Qed.

Lemma nth_firstn_lt {A} n r (l : list A) d :
  (r < n)%nat -> nth r (firstn n l) d = nth r l d.
Proof.
  revert r l. induction n as [|n IH]; intros [|r] [|a l] H; simpl;
    try lia; try reflexivity.
  apply IH. lia.
Qed.

(** Shifting down by [t] rows: the first [t] entries are missing, the
    others are the entries [t] rows above. *)
Lemma shift_down (t : nat) (s : Series) :
  s_index (shift (Z.of_nat t) s) = s_index s
  /\ s_values (shift (Z.of_nat t) s)
     = (repeat NaN (Nat.min t (length (s_values s)))
        ++ firstn (length (s_values s) - t) (s_values s))%list.
Proof.
  unfold shift. cbn [s_index s_values]. split; [reflexivity|].
  destruct (Z.ltb_spec (Z.of_nat t) 0); [lia|]. rewrite Nat2Z.id.
  set (vs := s_values s). rewrite firstn_app, repeat_length.
  f_equal. apply firstn_repeat_min.
Qed.

Lemma nth_shift_down (t r : nat) (s : Series) :
  (r < length (s_values s))%nat ->
  nth r (s_values (shift (Z.of_nat t) s)) NaN
  = if (r <? t)%nat then NaN else nth (r - t) (s_values s) NaN.
Proof.
  intros Hr. destruct (shift_down t s) as [_ ->].
  destruct (Nat.ltb_spec r t).
  - rewrite app_nth1 by (rewrite repeat_length; lia).
    apply nth_repeat.
  - rewrite app_nth2 by (rewrite repeat_length; lia).
    rewrite repeat_length.
    replace (Nat.min t (length (s_values s))) with t by lia.
    apply nth_firstn_lt. lia.
Qed.

(** X12.  The list both autocorrelation cells hand to [pd.concat], for a
    table with a column [Return] and [N >= 0]: it holds [N + 1] series;
    the one at position [t] has the index of [Return] and as many
    entries; its first [t] entries are missing and entry [r >= t] is the
    return [t] rows above; so it has as many entries present as the
    returns have in all rows but the last [t], which is what
    [spy_lags.count()] gives for lag [t]. *)
Theorem lags_are_shifted_returns (spy : DataFrame) (ret : Series) (N : Z) :
  getitem "Return" spy = Ok ret -> (0 <= N)%Z ->
  exists objs,
    lags N spy = Ok objs
    /\ length objs = S (Z.to_nat N)
    /\ forall t, (t <= Z.to_nat N)%nat ->
         exists s,
           nth_error objs t = Some s
           /\ s_index s = s_index ret
           /\ length (s_values s) = length (s_values ret)
           /\ (forall r, (r < length (s_values ret))%nat ->
                 nth r (s_values s) NaN
                 = if (r <? t)%nat then NaN
                   else nth (r - t) (s_values ret) NaN)
           /\ present (s_values s)
              = present (firstn (length (s_values ret) - t) (s_values ret)).
Proof.
  intros Hret HN. unfold lags, range.
  exists (map (fun t => shift t ret) (map Z.of_nat (seq 0 (Z.to_nat (N + 1))))).
  replace (Z.to_nat (N + 1)) with (S (Z.to_nat N)) by lia.
  split; [|split].
  - apply MonthlyFacts.mapM_Ok. intros t _. now rewrite Hret.
  - now rewrite !length_map, length_seq.
  - intros t Ht. exists (shift (Z.of_nat t) ret).
    destruct (shift_down t ret) as [Hi Hv].
    split; [|split; [exact Hi|split; [|split]]].
    + rewrite map_map, nth_error_map.
      rewrite (nth_error_nth' _ 0%nat) by (rewrite length_seq; lia).
      rewrite seq_nth by lia. reflexivity.
    + rewrite Hv, length_app, repeat_length, length_firstn. lia.
    + intros r Hr. now apply nth_shift_down.
    + rewrite Hv, present_app, present_repeat_NaN. reflexivity.
Qed.

Lemma lags_are_shifted_returns_witness :
  exists objs,
    lags 2 Sample.spy = Ok objs /\ length objs = 3%nat.
Proof.
  destruct (lags_are_shifted_returns Sample.spy
              {| s_index := map fst (rows Sample.spy);
                 s_values := map (entry 1) (rows Sample.spy) |} 2)
    as (objs & E & Hl & _).
  - reflexivity.
  - lia.
  - exists objs. split; [exact E|exact Hl].
Defined.

Lemma combine_fst {A B} (l1 : list A) (l2 : list B) :
  length l1 = length l2 -> map fst (combine l1 l2) = l1.
Proof.
  revert l2. induction l1 as [|a l1 IH]; intros [|b l2] Hl;
    try discriminate; [reflexivity|].
  simpl. f_equal. apply IH. now injection Hl.
Qed.

(** X15.  The step the second pipeline adds never fails: the second
    pipeline raises exactly what the first raises on the same table, and
    when the first returns a table the second returns one with the same
    row labels in the same order and the columns [mean], [std] and
    [mean_lag1]. *)
Theorem lag_step_never_fails `{RealOps} (spy : DataFrame) :
  match User.spy_m spy with
  | Raise e => User.spy_m_lagged spy = Raise e
  | Ok t =>
      exists t',
        User.spy_m_lagged spy = Ok t'
        /\ map fst (rows t') = map fst (rows t)
        /\ columns t' = ["mean"; "std"; "mean_lag1"]
  end.
Proof.
  unfold User.spy_m_lagged.
  destruct (User.spy_m spy) as [t|e] eqn:E; [|reflexivity].
  pose proof (PipelineFacts.spy_m_shape spy t E) as Hd.
  cbn [mbind result_bind]. unfold assign, getitem, columns. rewrite Hd.
  cbn [map fst position String.eqb Ascii.eqb Bool.eqb mbind result_bind
       mret result_ret].
  change 1%Z with (Z.of_nat 1).
  destruct (shift_down 1 {| s_index := map fst (rows t);
                            s_values := map (entry 0) (rows t) |})
    as [_ Hv].
  assert (Hlen : length (s_values
                   (shift (Z.of_nat 1)
                      {| s_index := map fst (rows t);
                         s_values := map (entry 0) (rows t) |}))
                 = length (rows t)).
  { rewrite Hv. cbn [s_values].
    rewrite length_app, repeat_length, length_firstn, length_map. lia. }
  rewrite Hlen, Nat.eqb_refl. cbn [negb]. clear Hv.
  set (lagged := s_values _) in *.
  eexists. split; [reflexivity|]. cbn [rows dtypes]. split.
  - rewrite map_map. cbn [fst].
    rewrite <- (map_map fst fst), combine_fst by now rewrite Hlen.
    reflexivity.
  - unfold columns. cbn [dtypes]. now rewrite map_app.
Qed.

End LagFacts.

(** ** The notebook's functions, group by group *)

Module GroupFacts.
Import Pandas GroupBy Sample.

Lemma key_eqb_refl v : is_missing v = false -> key_eqb v v = true.
Proof.
  destruct v as [q|s|]; simpl; intros H; try discriminate.
  - apply Qeq_bool_iff. reflexivity.
  - apply String.eqb_refl.
Qed.

Lemma key_eqb_sym u v : key_eqb u v = key_eqb v u.
Proof.
  destruct u as [a|a|], v as [b|b|]; simpl; try reflexivity.
  - destruct (Qeq_bool a b) eqn:E1, (Qeq_bool b a) eqn:E2; try reflexivity.
    + apply Qeq_bool_iff in E1. symmetry in E1.
      apply Qeq_bool_iff in E1. congruence.
    + apply Qeq_bool_iff in E2. symmetry in E2.
      apply Qeq_bool_iff in E2. congruence.
  - apply String.eqb_sym.
Qed.

Lemma key_eqb_trans u v w :
  key_eqb u v = true -> key_eqb v w = true -> key_eqb u w = true.
Proof.
  destruct u as [a|a|], v as [b|b|], w as [c|c|]; simpl; try discriminate.
  - rewrite !Qeq_bool_iff. intros -> ->. reflexivity.
  - rewrite !String.eqb_eq. congruence.
Qed.

Lemma key_eqb_present u v : key_eqb u v = true -> is_missing u = false.
Proof. destruct u, v; simpl; congruence. Qed.

#[local] Abbreviation differ := (fun a b : scalar => key_eqb a b = false).

Lemma distinct_In l k : In k (distinct l) -> In k l.
Proof.
  induction l as [|a l IH]; simpl; [tauto|]. intros [H|H]; [now left|].
  apply filter_In in H. right. now apply IH.
Qed.

(** Every key that is not missing is equal to one of the distinct keys. *)
Lemma distinct_covers l v :
  In v l -> is_missing v = false ->
  exists k, In k (distinct l) /\ key_eqb v k = true.
Proof.
  induction l as [|a l IH]; simpl; [tauto|]. intros [->|Hin] Hv.
  - exists v. split; [now left|now apply key_eqb_refl].
  - destruct (IH Hin Hv) as (k & Hk & E).
    destruct (key_eqb a k) eqn:Ea.
    + exists a. split; [now left|].
      eapply key_eqb_trans; [exact E|]. now rewrite key_eqb_sym.
    + exists k. split; [|exact E]. right. apply filter_In.
      split; [assumption|]. now rewrite Ea.
Qed.

Lemma pairs_filter {A} (R : A -> A -> Prop) (f : A -> bool) l :
  ForallOrdPairs R l -> ForallOrdPairs R (List.filter f l).
Proof.
  induction 1 as [|a l Ha Hl IH]; simpl; [constructor|].
  destruct (f a); [|assumption]. constructor; [|assumption].
  rewrite List.Forall_forall in *. intros b Hb. apply filter_In in Hb.
  now apply Ha.
Qed.

Lemma distinct_pairs l : ForallOrdPairs differ (distinct l).
Proof.
  induction l as [|a l IH]; simpl; constructor.
  - apply List.Forall_forall. intros b Hb. apply filter_In in Hb.
    destruct Hb as [_ Hb]. now apply negb_true_iff in Hb.
  - now apply pairs_filter.
Qed.

Lemma insert_strict a l :
  StronglySorted key_lt l -> Forall (differ a) l ->
  StronglySorted key_lt (insert key_leb a l).
Proof.
  induction 1 as [|b l Hl IH Hb]; simpl; intros Ha.
  - repeat constructor.
  - inversion Ha as [|? ? Hab Hal]; subst.
    destruct (key_leb a b) eqn:E.
    + constructor; [now constructor|]. constructor; [now split|].
      rewrite List.Forall_forall in *. intros c Hc. split.
      * eapply SortFacts.key_leb_trans; [exact E|]. now apply Hb.
      * now apply Hal.
    + constructor; [now apply IH|]. apply List.Forall_forall. intros c Hc.
      eapply Permutation_in in Hc; [|apply SortFacts.insert_perm].
      destruct Hc as [<-|Hc].
      * split.
        -- destruct (SortFacts.key_leb_total a b); congruence.
        -- now rewrite key_eqb_sym.
      * rewrite List.Forall_forall in Hb. now apply Hb.
Qed.

Lemma sort_strict l :
  ForallOrdPairs differ l -> StronglySorted key_lt (sort key_leb l).
Proof.
  induction 1 as [|a l Ha Hl IH]; simpl; [constructor|].
  apply insert_strict; [assumption|].
  rewrite List.Forall_forall in *. intros b Hb. apply Ha.
  eapply Permutation_in; [apply SortFacts.sort_perm|exact Hb].
Qed.

(** The keys of [groupby]: in ascending order without repetition, one for
    every row that has a key, each the key of some row. *)
Lemma groupby_keys (col : string) (x : DataFrame) (i : nat) :
  occurrences col (columns x) = 1%nat ->
  position col (columns x) = Some i ->
  exists g,
    groupby col x = Ok g /\ obj g = x /\ key_column g = i
    /\ StronglySorted key_lt (keys g)
    /\ (forall r, In r (rows x) -> is_missing (entry i r) = false ->
          exists k, In k (keys g) /\ key_eqb (entry i r) k = true)
    /\ (forall k, In k (keys g) ->
          exists r, In r (rows x) /\ key_eqb (entry i r) k = true).
Proof.
  intros Hone Hpos. unfold groupby. rewrite Hpos, Hone. cbn. eexists.
  split; [reflexivity|]. cbn [obj key_column keys].
  split; [reflexivity|split; [reflexivity|split; [|split]]].
  - apply sort_strict, distinct_pairs.
  - intros r Hr Hm.
    destruct (distinct_covers
                (List.filter (fun v => negb (is_missing v))
                             (map (entry i) (rows x)))
                (entry i r)) as (k & Hk & E).
    + apply filter_In. split; [now apply in_map|now rewrite Hm].
    + assumption.
    + exists k. split; [|exact E].
      eapply Permutation_in; [symmetry; apply SortFacts.sort_perm|exact Hk].
  - intros k Hk.
    eapply Permutation_in in Hk; [|apply SortFacts.sort_perm].
    apply distinct_In in Hk. apply filter_In in Hk. destruct Hk as [Hk Hm].
    apply in_map_iff in Hk. destruct Hk as (r & <- & Hr).
    exists r. split; [assumption|]. apply key_eqb_refl.
    now apply negb_true_iff in Hm.
Qed.

Lemma group_rows g k r :
  In r (rows (get_group g k))
  <-> In r (rows (obj g)) /\ key_eqb (entry (key_column g) r) k = true.
Proof. unfold get_group. cbn [rows]. apply filter_In. Qed.

(** What [peak_to_peak] gives on an array without strings: missing when
    it holds no number, otherwise the greatest number minus the least, in
    the arithmetic of the dtype. *)
Lemma peak_to_peak_extremes `{Arithmetic} (s : Series) :
  no_text (s_values s) ->
  match numbers (s_values s) with
  | [] => User.peak_to_peak s = Ok (Entry NaN)
  | _ :: _ =>
      exists hi lo,
        In hi (numbers (s_values s)) /\ In lo (numbers (s_values s))
        /\ (forall q, In q (numbers (s_values s)) -> (lo <= q <= hi)%Q)
        /\ User.peak_to_peak s = Ok (minus hi lo)
  end.
Proof.
  intros Hn. pose proof (RangeFacts.max_greatest _ Hn) as H1.
  pose proof (RangeFacts.min_least _ Hn) as H2.
  unfold User.peak_to_peak, max, min.
  destruct (numbers (s_values s)) as [|q qs].
  - now rewrite H1, H2.
  - destruct H1 as (hi & E1 & Hhi & Hmax). destruct H2 as (lo & E2 & Hlo & Hmin).
    exists hi, lo. rewrite E1, E2. cbn. repeat split; auto.
Qed.

(** X13.  [df.groupby('key1')['data1'].agg(peak_to_peak)] on a table with
    one column [key1] and one column [data1], the latter holding no
    string.  It succeeds, whatever the arithmetic of the dtype, with one
    entry per distinct key, in ascending order of the keys; every row with
    a key falls in one of the groups and no group is empty.  The entry of
    a group is [peak_to_peak] of the [data1] entries of the rows with that
    key: missing when none of them is a number, otherwise the greatest of
    them minus the least, in the arithmetic of the dtype.  In float64
    arithmetic, on float64 numbers, that entry is not negative. *)
Theorem ranges_by_key_spec (df : DataFrame) (i j : nat) :
  occurrences "key1" (columns df) = 1%nat ->
  position "key1" (columns df) = Some i ->
  occurrences "data1" (columns df) = 1%nat ->
  position "data1" (columns df) = Some j ->
  no_text (map (entry j) (rows df)) ->
  exists g,
    groupby "key1" df = Ok g
    /\ StronglySorted key_lt (keys g)
    /\ (forall r, In r (rows df) -> is_missing (entry i r) = false ->
          exists k, In k (keys g) /\ key_eqb (entry i r) k = true)
    /\ (forall k, In k (keys g) -> rows (get_group g k) <> [])
    /\ (forall A : Arithmetic,
        exists out,
          ranges_by_key df = Ok out
          /\ map fst out = keys g
          /\ forall k v, In (k, v) out ->
               User.peak_to_peak (column j (get_group g k)) = Ok v
               /\ match numbers (map (entry j) (rows (get_group g k))) with
                  | [] => v = Entry NaN
                  | qs =>
                      exists hi lo,
                        In hi qs /\ In lo qs
                        /\ (forall q, In q qs -> (lo <= q <= hi)%Q)
                        /\ v = minus hi lo
                  end)
    /\ (forallb NumPy.is_float64 (numbers (map (entry j) (rows df))) = true ->
        forall out k v,
          ranges_by_key (H := NumPy.float64_arithmetic) df = Ok out ->
          In (k, v) out -> v = Entry NaN \/ nonneg v).
Proof.
  intros Hone Hi _ Hj Hnt.
  destruct (groupby_keys "key1" df i Hone Hi)
    as (g & Hg & Hobj & Hcol & Hsorted & Hcover & Hkeys).
  assert (Hpart : forall k, incl (map (entry j) (rows (get_group g k)))
                                 (map (entry j) (rows df))).
  { intros k v Hv. apply in_map_iff in Hv.
    destruct Hv as (r & <- & Hr). apply group_rows in Hr.
    rewrite Hobj in Hr. apply in_map. tauto. }
  assert (Hpnt : forall k, no_text (s_values (column j (get_group g k)))).
  { intros k. cbn [column s_values]. unfold no_text in *.
    rewrite List.Forall_forall in *.
    intros v Hv. apply Hnt. now apply (Hpart k). }
  assert (Hgen : forall A : Arithmetic,
    exists out,
      ranges_by_key df = Ok out
      /\ map fst out = keys g
      /\ forall k v, In (k, v) out ->
           User.peak_to_peak (column j (get_group g k)) = Ok v
           /\ match numbers (map (entry j) (rows (get_group g k))) with
              | [] => v = Entry NaN
              | qs =>
                  exists hi lo,
                    In hi qs /\ In lo qs
                    /\ (forall q, In q qs -> (lo <= q <= hi)%Q)
                    /\ v = minus hi lo
              end).
  { intros A.
    set (range := fun grp : scalar * Series =>
                    (fst grp, match User.peak_to_peak (snd grp) with
                              | Ok v => v
                              | Raise _ => Entry NaN
                              end)).
    assert (Hok : forall k, exists v,
               User.peak_to_peak (column j (get_group g k)) = Ok v).
    { intros k. pose proof (peak_to_peak_extremes _ (Hpnt k)) as Hp.
      destruct (numbers _); [eauto|].
      destruct Hp as (hi & lo & _ & _ & _ & Hp). eauto. }
    exists (map range (map (fun k => (k, column j (get_group g k))) (keys g))).
    split; [|split].
    - unfold ranges_by_key. rewrite Hg. cbn [mbind result_bind].
      unfold groupby_getitem. rewrite Hobj, Hj. cbn [mbind result_bind].
      unfold agg_with. apply MonthlyFacts.mapM_Ok. intros grp Hgrp.
      apply in_map_iff in Hgrp. destruct Hgrp as (k & <- & _).
      unfold range. cbn [fst snd]. destruct (Hok k) as (v & ->). reflexivity.
    - rewrite !map_map. cbn. apply map_id.
    - intros k v Hin. rewrite map_map in Hin. apply in_map_iff in Hin.
      destruct Hin as (k' & E & Hk'). unfold range in E. cbn [fst snd] in E.
      injection E as -> Hv. destruct (Hok k) as (v' & Hv').
      rewrite Hv' in Hv. subst v'. split; [exact Hv'|].
      pose proof (peak_to_peak_extremes _ (Hpnt k)) as Hp.
      cbn [column s_values] in Hp.
      destruct (numbers (map (entry j) (rows (get_group g k)))) as [|q qs].
      + congruence.
      + destruct Hp as (hi & lo & Hhi & Hlo & Hb & Hp).
        exists hi, lo. repeat split; try assumption; try apply Hb; auto.
        congruence. }
  exists g. split; [exact Hg|]. split; [exact Hsorted|].
  split; [exact Hcover|]. split; [|split; [exact Hgen|]].
  - intros k Hk Hnil. destruct (Hkeys k Hk) as (r & Hr & Er).
    assert (Hin : In r (rows (get_group g k)))
      by (apply group_rows; rewrite Hobj, Hcol; tauto).
    rewrite Hnil in Hin. destruct Hin.
  - intros Hf out k v Hout Hin.
    destruct (Hgen NumPy.float64_arithmetic) as (out' & Hout' & _ & Hv).
    rewrite Hout in Hout'. injection Hout' as <-.
    destruct (Hv k v Hin) as [_ Hm].
    destruct (numbers (map (entry j) (rows (get_group g k)))) as [|q qs] eqn:En;
      [now left|right].
    destruct Hm as (hi & lo & Hhi & Hlo & Hb & ->).
    rewrite forallb_forall in Hf.
    assert (Hin' : incl (q :: qs) (numbers (map (entry j) (rows df)))).
    { rewrite <- En. apply EdgeFacts.numbers_incl, Hpart. }
    apply ArithmeticFacts.float64_difference.
    + apply Hf, Hin', Hhi.
    + apply Hf, Hin', Hlo.
    + destruct (Hb hi Hhi) as [Hle _]. exact Hle.
Qed.

Lemma ranges_by_key_spec_witness :
  exists g out,
    groupby "key1" Drawn.df = Ok g
    /\ ranges_by_key (H := NumPy.float64_arithmetic) Drawn.df = Ok out
    /\ map fst out = keys g.
Proof.
  destruct (ranges_by_key_spec Drawn.df 0 2)
    as (g & Hg & _ & _ & _ & Hout & _).
  - reflexivity.
  - reflexivity.
  - reflexivity.
  - reflexivity.
  - repeat constructor.
  - destruct (Hout NumPy.float64_arithmetic) as (out & Ho & Hk & _).
    exists g, out. repeat split; assumption.
Defined.

Lemma group_well_formed g k :
  well_formed (obj g) = true -> well_formed (get_group g k) = true.
Proof.
  unfold well_formed, get_group. cbn [dtypes rows]. intros H.
  rewrite forallb_forall in *. intros r Hr. apply filter_In in Hr.
  now apply H.
Qed.

(** *** Labels and positions *)

Lemma label_eqb_eq a b : label_eqb a b = true <-> a = b.
Proof.
  destruct a, b; simpl; try (split; discriminate).
  - rewrite Z.eqb_eq. split; congruence.
  - rewrite String.eqb_eq. split; congruence.
  - rewrite !andb_true_iff, !Z.eqb_eq. split.
    + intros [[-> ->] ->]. reflexivity.
    + intros [= -> -> ->]. auto.
  - rewrite !andb_true_iff, !Z.eqb_eq. split.
    + intros [-> ->]. reflexivity.
    + intros [= -> ->]. auto.
Qed.

Lemma same_labels_eq l1 l2 : same_labels l1 l2 = true <-> l1 = l2.
Proof.
  revert l2. induction l1 as [|a l1 IH]; intros [|b l2]; simpl;
    try (split; [discriminate|discriminate]); [tauto|].
  rewrite andb_true_iff, label_eqb_eq, IH. split.
  - intros [-> ->]. reflexivity.
  - intros [= -> ->]. auto.
Qed.

Lemma filter_none {A} (f : A -> bool) l :
  (forall a, In a l -> f a = false) -> List.filter f l = [].
Proof.
  induction l as [|a l IH]; intros Hf; [reflexivity|]. simpl.
  rewrite (Hf a) by now left. apply IH. intros b Hb. apply Hf. now right.
Qed.

Lemma filter_all {A} (f : A -> bool) l :
  (forall a, In a l -> f a = true) -> List.filter f l = l.
Proof.
  induction l as [|a l IH]; intros Hf; [reflexivity|]. simpl.
  rewrite (Hf a) by now left. f_equal. apply IH. intros b Hb.
  apply Hf. now right.
Qed.

(** Two rows of a list whose first components do not repeat are equal as
    soon as their first components are. *)
Lemma fst_injective {A B} (l : list (A * B)) a b :
  List.NoDup (map fst l) -> In a l -> In b l -> fst a = fst b -> a = b.
Proof.
  induction l as [|c l IH]; simpl; [tauto|]. intros Hn Ha Hb E.
  apply List.NoDup_cons_iff in Hn. destruct Hn as [Hc Hn].
  destruct Ha as [->|Ha], Hb as [->|Hb]; auto.
  - exfalso. apply Hc. rewrite E. now apply in_map.
  - exfalso. apply Hc. rewrite <- E. now apply in_map.
Qed.

Lemma same_labels_perm {A B} (l1 l2 : list (A * B)) :
  Permutation l1 l2 -> map fst l1 = map fst l2 ->
  List.NoDup (map fst l2) -> l1 = l2.
Proof.
  revert l2. induction l1 as [|a l1 IH]; intros [|b l2] Hp E Hn;
    try discriminate; [reflexivity|].
  simpl in E. injection E as Eab E.
  assert (a = b).
  { apply (fst_injective (b :: l2)); auto.
    - apply (Permutation_in _ Hp). now left.
    - now left. }
  subst b. f_equal. apply IH; auto.
  - now apply Permutation_cons_inv in Hp.
  - simpl in Hn. now apply List.NoDup_cons_iff in Hn.
Qed.

Lemma labels_filter {A B} (f : A * B -> bool) l :
  List.NoDup (map fst l) -> List.NoDup (map fst (List.filter f l)).
Proof.
  induction l as [|a l IH]; simpl; [auto|]. intros Hn.
  apply List.NoDup_cons_iff in Hn. destruct Hn as [Ha Hn].
  destruct (f a); simpl; [|auto]. constructor; [|auto].
  intros Hin. apply Ha. apply in_map_iff in Hin.
  destruct Hin as (b & E & Hb). apply filter_In in Hb.
  apply in_map_iff. exists b. tauto.
Qed.

Lemma filter_label {B} (l : list (label * B)) r :
  List.NoDup (map fst l) -> In r l ->
  List.filter (fun r' => label_eqb (fst r) (fst r')) l = [r].
Proof.
  induction l as [|a l IH]; simpl; [tauto|]. intros Hn Hin.
  apply List.NoDup_cons_iff in Hn. destruct Hn as [Ha Hn].
  destruct (label_eqb (fst r) (fst a)) eqn:E.
  - apply label_eqb_eq in E.
    assert (r = a).
    { destruct Hin as [->|Hin]; [reflexivity|].
      exfalso. apply Ha. rewrite <- E. now apply in_map. }
    subst r. f_equal. apply filter_none. intros b Hb.
    apply not_true_is_false. intros Eb. apply label_eqb_eq in Eb.
    apply Ha. rewrite Eb. now apply in_map.
  - destruct Hin as [->|Hin]; [|now apply IH].
    assert (label_eqb (fst r) (fst r) = true) by now apply label_eqb_eq.
    congruence.
Qed.

Lemma numbered_from_filter {A} (p : A -> bool) (l : list A) s :
  map snd (List.filter (fun nr => p (snd nr)) (combine (seq s (length l)) l))
  = List.filter p l.
Proof.
  revert s. induction l as [|a l IH]; intros s; [reflexivity|]. simpl.
  destruct (p a); simpl; now rewrite IH.
Qed.

Lemma numbered_NoDup {A} (l : list A) : List.NoDup (map fst (numbered l)).
Proof.
  unfold numbered. rewrite LagFacts.combine_fst by apply length_seq.
  apply List.seq_NoDup.
Qed.

Lemma unique_NoDup {A} (l : list (nat * A)) :
  List.NoDup (map fst l) -> unique l = l.
Proof.
  induction l as [|a l IH]; simpl; [reflexivity|]. intros Hn.
  apply List.NoDup_cons_iff in Hn. destruct Hn as [Ha Hn].
  rewrite IH by assumption. f_equal. apply filter_all. intros b Hb.
  apply negb_true_iff, Nat.eqb_neq. intros E. apply Ha. rewrite E.
  now apply in_map.
Qed.

Lemma NoDup_flat_filter {K A} (P : K -> A -> bool) (N : list A)
      (ax : list K) :
  List.NoDup N -> List.NoDup ax ->
  (forall k k' a, P k a = true -> P k' a = true -> k = k') ->
  List.NoDup (flat_map (fun k => List.filter (P k) N) ax).
Proof.
  intros HN Hax Hone. induction ax as [|k ax IH]; simpl; [constructor|].
  apply List.NoDup_cons_iff in Hax. destruct Hax as [Hk Hax].
  apply List.NoDup_app.
  - now apply List.NoDup_filter.
  - now apply IH.
  - intros a Ha Hin. apply filter_In in Ha. apply in_flat_map in Hin.
    destruct Hin as (k' & Hk' & Hin). apply filter_In in Hin.
    assert (k = k') by (eapply Hone; [apply Ha|apply Hin]).
    subst k'. contradiction.
Qed.

Lemma NoDup_fst_incl {A B} (l N : list (A * B)) :
  List.NoDup l -> incl l N -> List.NoDup (map fst N) ->
  List.NoDup (map fst l).
Proof.
  intros Hl Hi HN. induction l as [|a l IH]; simpl; [constructor|].
  apply List.NoDup_cons_iff in Hl. destruct Hl as [Ha Hl].
  constructor.
  - intros Hin. apply in_map_iff in Hin. destruct Hin as (b & E & Hb).
    assert (b = a).
    { apply (fst_injective N); auto; apply Hi; [now right|now left]. }
    subst b. contradiction.
  - apply IH; [assumption|]. intros b Hb. apply Hi. now right.
Qed.

Lemma rows_by_label (stacked F : list (label * list scalar)) :
  List.NoDup (map fst stacked) -> incl F stacked ->
  map snd
      (flat_map
         (fun l => List.filter (fun nr => label_eqb l (fst (snd nr)))
                               (numbered stacked))
         (map fst F))
  = F.
Proof.
  intros Hs. induction F as [|r F IH]; intros Hi; [reflexivity|].
  simpl. rewrite map_app. unfold numbered at 1.
  rewrite (numbered_from_filter (fun r' => label_eqb (fst r) (fst r'))).
  rewrite filter_label; [|assumption|apply Hi; now left].
  simpl. f_equal. apply IH. intros a Ha. apply Hi. now right.
Qed.

(** Rows taken label by label from a rearrangement of them come back in
    the order of the labels. *)
Lemma taken_by_label (stacked F : list (label * list scalar)) :
  Permutation stacked F -> List.NoDup (map fst F) ->
  map snd
      (unique
         (flat_map
            (fun l => List.filter (fun nr => label_eqb l (fst (snd nr)))
                                  (numbered stacked))
            (map fst F)))
  = F.
Proof.
  intros Hp Hn.
  assert (Hs : List.NoDup (map fst stacked)).
  { eapply Permutation_NoDup; [|exact Hn].
    apply Permutation_map. now symmetry. }
  rewrite unique_NoDup.
  - apply rows_by_label; [assumption|].
    intros a Ha. eapply Permutation_in; [symmetry; exact Hp|exact Ha].
  - apply (NoDup_fst_incl _ (numbered stacked)).
    + apply NoDup_flat_filter.
      * eapply List.NoDup_map_inv. apply numbered_NoDup.
      * exact Hn.
      * intros l l' nr E1 E2. apply label_eqb_eq in E1, E2. congruence.
    + intros nr Hin. apply in_flat_map in Hin.
      destruct Hin as (l & _ & Hin). now apply filter_In in Hin.
    + apply numbered_NoDup.
Qed.

(** *** The groups make up the rows that have a key *)

Lemma flat_map_nil {A B} (f : A -> list B) l :
  (forall a, In a l -> f a = []) -> flat_map f l = [].
Proof.
  induction l as [|a l IH]; intros Hf; [reflexivity|]. simpl.
  rewrite (Hf a) by now left. apply IH. intros b Hb. apply Hf. now right.
Qed.

Lemma flat_map_split {A B} (f h : A -> list B) l :
  Permutation (flat_map (fun a => f a ++ h a)%list l)
              (flat_map f l ++ flat_map h l).
Proof.
  induction l as [|a l IH]; [constructor|]. simpl.
  rewrite IH. rewrite <- !app_assoc. apply Permutation_app_head.
  rewrite !app_assoc. apply Permutation_app_tail. apply Permutation_app_comm.
Qed.

(** Among keys in strict order at most one equals a given key. *)
Lemma one_key {A} (e : scalar) (r : A) ks :
  StronglySorted key_lt ks ->
  flat_map (fun k => if key_eqb e k then [r] else []) ks
  = if existsb (key_eqb e) ks then [r] else [].
Proof.
  induction 1 as [|k ks Hs IH Hk]; [reflexivity|]. simpl.
  destruct (key_eqb e k) eqn:E; simpl; [|exact IH].
  f_equal. apply flat_map_nil. intros k' Hk'.
  destruct (key_eqb e k') eqn:E'; [|reflexivity].
  rewrite List.Forall_forall in Hk. destruct (Hk k' Hk') as [_ Hd].
  rewrite key_eqb_sym in E.
  rewrite (key_eqb_trans _ _ _ E E') in Hd. discriminate.
Qed.

Lemma groups_partition (i : nat) (rs : list (label * list scalar)) ks :
  StronglySorted key_lt ks ->
  (forall r, In r rs -> is_missing (entry i r) = false ->
             exists k, In k ks /\ key_eqb (entry i r) k = true) ->
  Permutation
    (flat_map (fun k => List.filter (fun r => key_eqb (entry i r) k) rs) ks)
    (List.filter (fun r => negb (is_missing (entry i r))) rs).
Proof.
  intros Hs. induction rs as [|r rs IH]; intros Hc.
  - simpl. rewrite flat_map_nil; [constructor|reflexivity].
  - simpl.
    transitivity
      (flat_map (fun k => (if key_eqb (entry i r) k then [r] else [])
                          ++ List.filter (fun r => key_eqb (entry i r) k) rs)%list
                ks).
    { erewrite flat_map_ext; [reflexivity|]. intros k. simpl.
      now destruct (key_eqb (entry i r) k). }
    rewrite flat_map_split, (one_key _ _ _ Hs).
    rewrite IH by (intros r' Hr'; apply Hc; now right).
    destruct (is_missing (entry i r)) eqn:Em; simpl.
    + assert (Hno : existsb (key_eqb (entry i r)) ks = false).
      { apply not_true_is_false. intros Hex. apply existsb_exists in Hex.
        destruct Hex as (k & _ & E). apply key_eqb_present in E. congruence. }
      now rewrite Hno.
    + destruct (Hc r (or_introl eq_refl) Em) as (k & Hk & E).
      rewrite (proj2 (existsb_exists _ _)) by eauto. reflexivity.
Qed.

Lemma flat_map_pieces {A} (piece : A -> DataFrame) (ks : list A) :
  flat_map (fun p : A * DataFrame => rows (snd p))
           (map (fun k => (k, piece k)) ks)
  = flat_map (fun k => rows (piece k)) ks.
Proof.
  induction ks as [|k ks IH]; [reflexivity|]. simpl. now rewrite IH.
Qed.

Lemma flat_map_same {A B} (f h : A -> list B) l :
  (forall a, In a l -> f a = h a) -> flat_map f l = flat_map h l.
Proof.
  induction l as [|a l IH]; intros E; [reflexivity|]. simpl.
  rewrite (E a) by now left. f_equal. apply IH. intros b Hb.
  apply E. now right.
Qed.

(** X14.  [df.groupby('key1').apply(top, col=col, n=2)] on a well-formed
    table with one column [key1] and one column [col], however the sort
    orders equal keys.  [top] is called once per distinct key, in
    ascending order of the keys, and succeeds; the piece it returns for a
    key has the columns of the table and one or two rows; they are rows of
    the table with that key, in ascending order of [col]; and the rows of
    the group that are left out have no smaller [col] than the rows kept.
    The pieces are stacked under their keys unless each of them has the
    index of its group; so they are as soon as one group has more than
    two rows.  When instead one frame with the index of the table comes
    back, no group has more than two rows, and, the labels of the table
    being distinct, that frame holds the rows of the table that have a
    key, unchanged and in the order of the table. *)
Theorem top_by_key_spec `{Sorter} (df : DataFrame) (col : string)
        (i c : nat) :
  well_formed df = true ->
  occurrences "key1" (columns df) = 1%nat ->
  position "key1" (columns df) = Some i ->
  occurrences col (columns df) = 1%nat ->
  position col (columns df) = Some c ->
  exists g pieces,
    groupby "key1" df = Ok g
    /\ map fst pieces = keys g
    /\ StronglySorted key_lt (keys g)
    /\ (forall k piece, In (k, piece) pieces ->
          User.top (get_group g k) col 2 = Ok piece
          /\ dtypes piece = dtypes df
          /\ (1 <= length (rows piece) <= 2)%nat
          /\ (forall r, In r (rows piece) ->
                In r (rows df) /\ key_eqb (entry i r) k = true)
          /\ StronglySorted
               (fun a b => key_leb (entry c a) (entry c b) = true)
               (rows piece)
          /\ exists rest,
               Permutation (rows (get_group g k)) (rows piece ++ rest)
               /\ forall a b, In a (rows piece) -> In b rest ->
                              key_leb (entry c a) (entry c b) = true)
    /\ top_by_key col df
       = Ok (if forallb (like_indexed g) pieces
             then Restored (restore g pieces) else Stacked pieces)
    /\ ((exists k, In k (keys g)
                   /\ (2 < length (rows (get_group g k)))%nat) ->
        top_by_key col df = Ok (Stacked pieces))
    /\ (forall frame,
          top_by_key col df = Ok (Restored frame) ->
          dtypes frame = dtypes df
          /\ (forall k, In k (keys g) ->
                        (length (rows (get_group g k)) <= 2)%nat)
          /\ (List.NoDup (map fst (rows df)) ->
              rows frame
              = List.filter (fun r => negb (is_missing (entry i r)))
                            (rows df))).
Proof.
  intros Hwf Hone Hi Honec Hc.
  destruct (groupby_keys "key1" df i Hone Hi)
    as (g & Hg & Hobj & Hcol & Hsorted & Hcover & Hkeys).
  set (leb := fun a b : label * list scalar =>
                key_leb (entry c a) (entry c b)).
  set (piece := fun k =>
                  head 2 {| dtypes := dtypes df;
                            rows := sort_rows leb (rows (get_group g k)) |}).
  assert (Htop : forall k, User.top (get_group g k) col 2 = Ok (piece k)).
  { intros k. pose proof (EdgeFacts.top_cases (get_group g k) col 2) as Ht.
    unfold columns in Ht. cbn [get_group dtypes] in Ht. rewrite Hobj in Ht.
    unfold columns in Hc, Honec. rewrite Hc, Honec in Ht.
    change (1 <? 1)%nat with false in Ht. cbv iota in Ht.
    rewrite (SortFacts.well_formed_not_mixed (get_group g k) col c) in Ht.
    - exact Ht.
    - apply group_well_formed. now rewrite Hobj.
    - unfold columns. cbn [get_group dtypes]. now rewrite Hobj.
    - unfold columns. cbn [get_group dtypes]. rewrite Hobj.
      now apply SortFacts.position_nth_error. }
  assert (Hperm : forall k, Permutation (sort_rows leb (rows (get_group g k)))
                                        (rows (get_group g k)))
    by (intros k; apply sort_rows_perm).
  assert (Hrows : forall k, rows (piece k)
                            = firstn 2 (sort_rows leb (rows (get_group g k))))
    by reflexivity.
  assert (Hpieces :
    top_by_key col df
    = Ok (if forallb (like_indexed g) (map (fun k => (k, piece k)) (keys g))
          then Restored (restore g (map (fun k => (k, piece k)) (keys g)))
          else Stacked (map (fun k => (k, piece k)) (keys g)))).
  { unfold top_by_key. rewrite Hg. cbn [mbind result_bind].
    unfold apply_with.
    rewrite (MonthlyFacts.mapM_Ok _ (fun k => (k, piece k)));
      [|intros k _; now rewrite Htop].
    cbn [mbind result_bind].
    destruct (keys g) as [|k0 ks]; [|reflexivity].
    pose proof (EdgeFacts.top_cases
                  {| dtypes := dtypes (obj g); rows := [] |} col 2) as Ht.
    unfold columns in Ht. cbn [dtypes rows] in Ht. rewrite Hobj in Ht.
    unfold columns in Hc, Honec. rewrite Hc, Honec in Ht.
    change (1 <? 1)%nat with false in Ht. cbn [map mixed existsb andb] in Ht.
    rewrite Hobj. now rewrite Ht. }
  assert (Hlike : forall k,
    In k (keys g) ->
    forallb (like_indexed g) (map (fun k => (k, piece k)) (keys g)) = true ->
    map fst (firstn 2 (sort_rows leb (rows (get_group g k))))
    = map fst (rows (get_group g k))
    /\ firstn 2 (sort_rows leb (rows (get_group g k)))
       = sort_rows leb (rows (get_group g k))
    /\ (length (rows (get_group g k)) <= 2)%nat).
  { intros k Hk Hall. rewrite forallb_forall in Hall.
    specialize (Hall (k, piece k) (in_map _ _ _ Hk)).
    unfold like_indexed in Hall. cbn [fst snd] in Hall.
    rewrite Hrows in Hall. apply same_labels_eq in Hall.
    pose proof (f_equal (@length _) Hall) as Hlen.
    rewrite !length_map, length_firstn in Hlen.
    pose proof (Permutation_length (Hperm k)) as Hl.
    split; [exact Hall|]. split; [|lia].
    apply firstn_all2. lia. }
  exists g, (map (fun k => (k, piece k)) (keys g)).
  split; [exact Hg|]. split; [|split; [exact Hsorted|split; [|split; [|split]]]].
  - rewrite map_map. cbn. apply map_id.
  - intros k p Hin. apply in_map_iff in Hin. destruct Hin as (k' & E & Hk).
    injection E as -> <-. split; [apply Htop|].
    unfold piece, head. cbn [dtypes rows].
    change (2 <? 0)%Z with false. cbv iota. change (Z.to_nat 2) with 2%nat.
    set (s := sort_rows leb (rows (get_group g k))).
    assert (Hs : StronglySorted (fun a b => leb a b = true) s).
    { apply sort_rows_sorted.
      - intros a b. apply SortFacts.key_leb_total.
      - intros a b d. apply SortFacts.key_leb_trans. }
    split; [reflexivity|]. split; [|split; [|split]].
    + rewrite length_firstn. split; [|lia].
      destruct (Hkeys k Hk) as (r & Hr & Er).
      assert (Hin : In r (rows (get_group g k)))
        by (apply group_rows; rewrite Hobj, Hcol; tauto).
      apply (Permutation_in _ (Permutation_sym (Hperm k))) in Hin.
      fold s in Hin. destruct s; [destruct Hin|]. simpl. lia.
    + intros r Hr. apply EdgeFacts.In_firstn in Hr.
      apply (Permutation_in _ (Hperm k)) in Hr. apply group_rows in Hr.
      now rewrite Hobj, Hcol in Hr.
    + rewrite <- (firstn_skipn 2 s) in Hs.
      now apply SortFacts.sorted_app in Hs.
    + exists (skipn 2 s). split.
      * rewrite firstn_skipn. symmetry. apply Hperm.
      * rewrite <- (firstn_skipn 2 s) in Hs.
        apply SortFacts.sorted_app in Hs. apply Hs.
  - exact Hpieces.
  - intros (k & Hk & Hlong). rewrite Hpieces.
    destruct (forallb _ _) eqn:Hall; [|reflexivity].
    destruct (Hlike k Hk eq_refl) as (_ & _ & Hshort). lia.
  - intros frame Hframe. rewrite Hpieces in Hframe.
    destruct (forallb _ _) eqn:Hall; [|discriminate Hframe].
    injection Hframe as <-.
    split; [cbn; now rewrite Hobj|]. split.
    { intros k Hk. now destruct (Hlike k Hk eq_refl) as (_ & _ & Hshort). }
    intros Hnodup.
    set (F := List.filter (fun r => negb (is_missing (entry i r))) (rows df)).
    assert (HF : List.NoDup (map fst F)) by now apply labels_filter.
    assert (Hstacked :
      flat_map (fun p : scalar * DataFrame => rows (snd p))
               (map (fun k => (k, piece k)) (keys g))
      = flat_map (fun k => List.filter (fun r => key_eqb (entry i r) k)
                                       (rows df))
                 (keys g)).
    { rewrite flat_map_pieces. apply flat_map_same. intros k Hk.
      destruct (Hlike k Hk eq_refl) as (Hlab & Hall2 & _).
      rewrite Hrows, Hall2. rewrite Hall2 in Hlab.
      replace (List.filter (fun r => key_eqb (entry i r) k) (rows df))
        with (rows (get_group g k))
        by (unfold get_group; cbn [rows]; now rewrite Hobj, Hcol).
      apply same_labels_perm; [apply Hperm|exact Hlab|].
      unfold get_group. cbn [rows]. apply labels_filter. now rewrite Hobj. }
    pose proof (groups_partition i (rows df) (keys g) Hsorted Hcover)
      as Hpart.
    fold F in Hpart. rewrite <- Hstacked in Hpart.
    unfold restore. cbn [rows]. rewrite Hobj, Hcol. fold F.
    destruct (same_labels _ _) eqn:Esame.
    + apply same_labels_eq in Esame. now apply same_labels_perm.
    + now apply taken_by_label.
Qed.

Lemma top_by_key_spec_witness :
  exists g pieces,
    groupby "key1" Drawn.df = Ok g
    /\ map fst pieces = keys g
    /\ top_by_key "data1" Drawn.df
       = Ok (if forallb (like_indexed g) pieces
             then Restored (restore g pieces) else Stacked pieces).
Proof.
  destruct (top_by_key_spec Drawn.df "data1" 0 2)
    as (g & pieces & Hg & Hk & _ & _ & Hout & _).
  - reflexivity.
  - reflexivity.
  - reflexivity.
  - reflexivity.
  - reflexivity.
  - exists g, pieces. repeat split; assumption.
Defined.

(** On the table [df] of the notebook the pieces are stacked: the key
    [a] has three rows. *)
Example top_by_key_stacks :
  exists pieces,
    top_by_key "data1" Drawn.df = Ok (Stacked pieces)
    /\ map fst pieces = [Text "a"; Text "b"]
    /\ map (fun p => map fst (rows (snd p))) pieces
       = [[LInt 0; LInt 1]; [LInt 2; LInt 3]].
Proof. eexists. split; [vm_compute; reflexivity|]. split; reflexivity. Qed.

(** On a table whose groups have two rows each, already in ascending
    order, one frame comes back, in the order of the table. *)
Example top_by_key_restores :
  top_by_key "data1" paired = Ok (Restored paired).
Proof. vm_compute. reflexivity. Qed.

End GroupFacts.
